(** * kluchnik: motion-gated TRNG firmware and AES demo

    A shallow embedding of the C++ sources of the repository:

    - [aes_crypto.cpp] / [aes_crypto.h]: PKCS#7-style padding, CBC
      wrappers over the mbedtls AES primitive, hex dump ([AesCrypto]);
    - the padding/encrypt/decrypt demo sketch ([Demo]);
    - the TRNG firmware v2.2 with its menu, entropy sampler, key
      protection and serial report ([Firmware]).

    Integers are [Z] with the wrap-around of their C type written out
    (ESP32: [int], [long] and [size_t] are 32 bits wide).  Bytes are [Z]
    in [0, 256).  The display driver is write-only and never read back, so
    drawing calls are left out of the state. *)

From Stdlib Require Import String Ascii ZArith List Bool Lia Btauto.
Import ListNotations.
Open Scope Z_scope.

(* ===================================================================== *)
(** ** Machine integers and arrays *)
(* ===================================================================== *)

Module Machine.

Definition wrap_u8 (z : Z) : Z := z mod 256.
Definition wrap_u32 (z : Z) : Z := z mod 2 ^ 32.
Definition wrap_s8 (z : Z) : Z := (z + 128) mod 256 - 128.
Definition wrap_s32 (z : Z) : Z := (z + 2 ^ 31) mod 2 ^ 32 - 2 ^ 31.

Definition is_byte (z : Z) : Prop := 0 <= z < 256.
Definition is_byteb (z : Z) : bool := (0 <=? z) && (z <? 256).

Definition is_int16 (z : Z) : Prop := -32768 <= z <= 32767.

(** [a[i] = v]; a store outside the array is left out of the model (the
    list is returned unchanged). *)
Fixpoint upd {A : Type} (i : nat) (v : A) (l : list A) : list A :=
  match l, i with
  | [], _ => []
  | _ :: r, O => v :: r
  | x :: r, S i' => x :: upd i' v r
  end.

(** [memcpy(dst, src, n)] *)
Definition memcpy {A : Type} (dst src : list A) (n : nat) : list A :=
  firstn n src ++ skipn n dst.

End Machine.
Import Machine.

(* ===================================================================== *)
(** ** The Arduino [Print] class behind [Serial] *)
(* ===================================================================== *)

Module Print.

Definition CR : ascii := ascii_of_nat 13.
Definition LF : ascii := ascii_of_nat 10.

(** [Print::println()] writes a carriage return and a line feed. *)
Definition newline : string := String CR (String LF EmptyString).

Definition char_of_byte (b : Z) : ascii := ascii_of_nat (Z.to_nat b).

(** [c < 10 ? c + '0' : c + 'A' - 10] *)
Definition digit_char (c : Z) : ascii :=
  char_of_byte (if c <? 10 then c + 48 else c + 65 - 10).

(** The do-while loop of [Print::printNumber]; [fuel] is the size of its
    digit buffer. *)
Fixpoint printNumber_loop (fuel : nat) (n base : Z) (str : string) : string :=
  match fuel with
  | O => str
  | S fuel' =>
      let c := n mod base in
      let n' := n / base in
      let str' := String (digit_char c) str in
      if n' =? 0 then str' else printNumber_loop fuel' n' base str'
  end.

(** [Print::printNumber(unsigned long n, uint8_t base)] *)
Definition printNumber (n base : Z) : string :=
  let base := if base <? 2 then 10 else base in
  printNumber_loop 32 n base EmptyString.

Definition DEC : Z := 10.
Definition HEX : Z := 16.

(** [Print::print(long n, DEC)], which [print(int)] forwards to. *)
Definition print_long (n : Z) : string :=
  if n <? 0 then String "-" (printNumber (wrap_u32 (- n)) DEC)
  else printNumber n DEC.

(** [Print::print(unsigned char b, int base)] *)
Definition print_byte (b base : Z) : string := printNumber b base.

(** [Print::print(char c)] *)
Definition print_char (c : Z) : string := String (char_of_byte c) EmptyString.

Definition string_of_bytes (l : list Z) : string :=
  fold_right (fun b s => String (char_of_byte b) s) EmptyString l.

End Print.

(* ===================================================================== *)
(** ** AES-128 (FIPS-197), the block cipher behind AESLib and mbedtls *)
(* ===================================================================== *)

Module AES.

(** A byte as its eight bits, most significant first. *)
Inductive u8 : Type := U8 (b7 b6 b5 b4 b3 b2 b1 b0 : bool).

Definition u8_zero : u8 := U8 false false false false false false false false.
Definition u8_one : u8 := U8 false false false false false false false true.

Definition u8_of_Z (z : Z) : u8 :=
  U8 (Z.testbit z 7) (Z.testbit z 6) (Z.testbit z 5) (Z.testbit z 4)
     (Z.testbit z 3) (Z.testbit z 2) (Z.testbit z 1) (Z.testbit z 0).

Definition Z_of_u8 (x : u8) : Z :=
  match x with
  | U8 b7 b6 b5 b4 b3 b2 b1 b0 =>
      Z.b2z b7 * 128 + Z.b2z b6 * 64 + Z.b2z b5 * 32 + Z.b2z b4 * 16
      + Z.b2z b3 * 8 + Z.b2z b2 * 4 + Z.b2z b1 * 2 + Z.b2z b0
  end.

Definition xor8 (x y : u8) : u8 :=
  match x, y with
  | U8 a7 a6 a5 a4 a3 a2 a1 a0, U8 b7 b6 b5 b4 b3 b2 b1 b0 =>
      U8 (xorb a7 b7) (xorb a6 b6) (xorb a5 b5) (xorb a4 b4)
         (xorb a3 b3) (xorb a2 b2) (xorb a1 b1) (xorb a0 b0)
  end.

(** Multiplication by x in GF(2^8) modulo x^8 + x^4 + x^3 + x + 1. *)
Definition xtime (x : u8) : u8 :=
  match x with
  | U8 b7 b6 b5 b4 b3 b2 b1 b0 =>
      U8 b6 b5 b4 (xorb b3 b7) (xorb b2 b7) b1 (xorb b0 b7) b7
  end.

Definition sel8 (b : bool) (x : u8) : u8 := if b then x else u8_zero.

Definition gmul (a b : u8) : u8 :=
  match b with
  | U8 b7 b6 b5 b4 b3 b2 b1 b0 =>
      let a1 := xtime a in let a2 := xtime a1 in let a3 := xtime a2 in
      let a4 := xtime a3 in let a5 := xtime a4 in let a6 := xtime a5 in
      let a7 := xtime a6 in
      xor8 (sel8 b0 a) (xor8 (sel8 b1 a1) (xor8 (sel8 b2 a2) (xor8 (sel8 b3 a3)
        (xor8 (sel8 b4 a4) (xor8 (sel8 b5 a5) (xor8 (sel8 b6 a6) (sel8 b7 a7)))))))
  end.

Definition gsq (a : u8) : u8 := gmul a a.

(** [a^254]: the multiplicative inverse, with 0 sent to 0. *)
Definition ginv (a : u8) : u8 :=
  let a2 := gsq a in let a4 := gsq a2 in let a8 := gsq a4 in
  let a16 := gsq a8 in let a32 := gsq a16 in let a64 := gsq a32 in
  let a128 := gsq a64 in
  gmul a128 (gmul a64 (gmul a32 (gmul a16 (gmul a8 (gmul a4 a2))))).

(** The affine map of the S-box, constant 0x63. *)
Definition affine (x : u8) : u8 :=
  match x with
  | U8 b7 b6 b5 b4 b3 b2 b1 b0 =>
      U8 (xorb b7 (xorb b3 (xorb b4 (xorb b5 b6))))
         (negb (xorb b6 (xorb b2 (xorb b3 (xorb b4 b5)))))
         (negb (xorb b5 (xorb b1 (xorb b2 (xorb b3 b4)))))
         (xorb b4 (xorb b0 (xorb b1 (xorb b2 b3))))
         (xorb b3 (xorb b7 (xorb b0 (xorb b1 b2))))
         (xorb b2 (xorb b6 (xorb b7 (xorb b0 b1))))
         (negb (xorb b1 (xorb b5 (xorb b6 (xorb b7 b0)))))
         (negb (xorb b0 (xorb b4 (xorb b5 (xorb b6 b7)))))
  end.

(** Its inverse, constant 0x05. *)
Definition inv_affine (x : u8) : u8 :=
  match x with
  | U8 b7 b6 b5 b4 b3 b2 b1 b0 =>
      U8 (xorb b1 (xorb b4 b6))
         (xorb b0 (xorb b3 b5))
         (xorb b7 (xorb b2 b4))
         (xorb b6 (xorb b1 b3))
         (xorb b5 (xorb b0 b2))
         (negb (xorb b4 (xorb b7 b1)))
         (xorb b3 (xorb b6 b0))
         (negb (xorb b2 (xorb b5 b7)))
  end.

Definition sbox (x : u8) : u8 := affine (ginv x).
Definition inv_sbox (x : u8) : u8 := ginv (inv_affine x).

(** The state: four columns of four bytes. *)
Inductive col : Type := Col (r0 r1 r2 r3 : u8).
Inductive block : Type := Block (c0 c1 c2 c3 : col).

Definition cmap (f : u8 -> u8) (c : col) : col :=
  match c with Col a b c d => Col (f a) (f b) (f c) (f d) end.

Definition cxor (x y : col) : col :=
  match x, y with
  | Col a b c d, Col a' b' c' d' =>
      Col (xor8 a a') (xor8 b b') (xor8 c c') (xor8 d d')
  end.

Definition bmap (f : col -> col) (s : block) : block :=
  match s with Block c0 c1 c2 c3 => Block (f c0) (f c1) (f c2) (f c3) end.

Definition AddRoundKey (k s : block) : block :=
  match k, s with
  | Block k0 k1 k2 k3, Block c0 c1 c2 c3 =>
      Block (cxor c0 k0) (cxor c1 k1) (cxor c2 k2) (cxor c3 k3)
  end.

Definition SubBytes : block -> block := bmap (cmap sbox).
Definition InvSubBytes : block -> block := bmap (cmap inv_sbox).

Definition ShiftRows (s : block) : block :=
  match s with
  | Block (Col s00 s10 s20 s30) (Col s01 s11 s21 s31)
          (Col s02 s12 s22 s32) (Col s03 s13 s23 s33) =>
      Block (Col s00 s11 s22 s33) (Col s01 s12 s23 s30)
            (Col s02 s13 s20 s31) (Col s03 s10 s21 s32)
  end.

Definition InvShiftRows (s : block) : block :=
  match s with
  | Block (Col s00 s10 s20 s30) (Col s01 s11 s21 s31)
          (Col s02 s12 s22 s32) (Col s03 s13 s23 s33) =>
      Block (Col s00 s13 s22 s31) (Col s01 s10 s23 s32)
            (Col s02 s11 s20 s33) (Col s03 s12 s21 s30)
  end.

Definition mul2 (x : u8) : u8 := xtime x.
Definition mul3 (x : u8) : u8 := xor8 (xtime x) x.
Definition mul9 (x : u8) : u8 := xor8 (xtime (xtime (xtime x))) x.
Definition mul11 (x : u8) : u8 :=
  xor8 (xtime (xtime (xtime x))) (xor8 (xtime x) x).
Definition mul13 (x : u8) : u8 :=
  xor8 (xtime (xtime (xtime x))) (xor8 (xtime (xtime x)) x).
Definition mul14 (x : u8) : u8 :=
  xor8 (xtime (xtime (xtime x))) (xor8 (xtime (xtime x)) (xtime x)).

Definition xor4 (a b c d : u8) : u8 := xor8 a (xor8 b (xor8 c d)).

Definition mix_col (c : col) : col :=
  match c with
  | Col a b c d =>
      Col (xor4 (mul2 a) (mul3 b) c d) (xor4 a (mul2 b) (mul3 c) d)
          (xor4 a b (mul2 c) (mul3 d)) (xor4 (mul3 a) b c (mul2 d))
  end.

Definition inv_mix_col (c : col) : col :=
  match c with
  | Col a b c d =>
      Col (xor4 (mul14 a) (mul11 b) (mul13 c) (mul9 d))
          (xor4 (mul9 a) (mul14 b) (mul11 c) (mul13 d))
          (xor4 (mul13 a) (mul9 b) (mul14 c) (mul11 d))
          (xor4 (mul11 a) (mul13 b) (mul9 c) (mul14 d))
  end.

Definition MixColumns : block -> block := bmap mix_col.
Definition InvMixColumns : block -> block := bmap inv_mix_col.

Definition RotWord (w : col) : col :=
  match w with Col a b c d => Col b c d a end.
Definition SubWord (w : col) : col := cmap sbox w.

Definition next_round_key (rc : u8) (k : block) : block :=
  match k with
  | Block w0 w1 w2 w3 =>
      let t := cxor (SubWord (RotWord w3)) (Col rc u8_zero u8_zero u8_zero) in
      let w4 := cxor w0 t in
      let w5 := cxor w1 w4 in
      let w6 := cxor w2 w5 in
      let w7 := cxor w3 w6 in
      Block w4 w5 w6 w7
  end.

Fixpoint expand (n : nat) (rc : u8) (k : block) : list block :=
  match n with
  | O => []
  | S n' => let k' := next_round_key rc k in k' :: expand n' (xtime rc) k'
  end.

(** Round keys: the cipher key, rounds 1 to 9, round 10. *)
Record schedule : Type :=
  { k_first : block; k_mid : list block; k_last : block }.

Definition KeyExpansion (key : block) : schedule :=
  let ks := expand 10 u8_one key in
  {| k_first := key; k_mid := firstn 9 ks; k_last := nth 9 ks key |}.

Definition round (s k : block) : block :=
  AddRoundKey k (MixColumns (ShiftRows (SubBytes s))).
Definition final_round (s k : block) : block :=
  AddRoundKey k (ShiftRows (SubBytes s)).

Definition Cipher (w : schedule) (s : block) : block :=
  final_round (fold_left round (k_mid w) (AddRoundKey (k_first w) s)) (k_last w).

Definition inv_round (k s : block) : block :=
  InvSubBytes (InvShiftRows (InvMixColumns (AddRoundKey k s))).
Definition inv_final_round (k s : block) : block :=
  InvSubBytes (InvShiftRows (AddRoundKey k s)).

Definition InvCipher (w : schedule) (s : block) : block :=
  AddRoundKey (k_first w)
    (fold_right inv_round (inv_final_round (k_last w) s) (k_mid w)).

(** Byte arrays in and out, column by column. *)
Definition byte_at (l : list Z) (i : nat) : u8 := u8_of_Z (nth i l 0).
Definition col_of_bytes (l : list Z) (i : nat) : col :=
  Col (byte_at l i) (byte_at l (i + 1)) (byte_at l (i + 2)) (byte_at l (i + 3)).
Definition block_of_bytes (l : list Z) : block :=
  Block (col_of_bytes l 0) (col_of_bytes l 4)
        (col_of_bytes l 8) (col_of_bytes l 12).
Definition bytes_of_col (c : col) : list Z :=
  match c with Col a b c d => [Z_of_u8 a; Z_of_u8 b; Z_of_u8 c; Z_of_u8 d] end.
Definition bytes_of_block (s : block) : list Z :=
  match s with
  | Block c0 c1 c2 c3 =>
      bytes_of_col c0 ++ bytes_of_col c1 ++ bytes_of_col c2 ++ bytes_of_col c3
  end.

(** AESLib: [aes128_enc_single(key, data)] and its inverse
    [aes128_dec_single(key, data)], one 16-byte block in place. *)
Definition aes128_enc_single (key data : list Z) : list Z :=
  bytes_of_block (Cipher (KeyExpansion (block_of_bytes key)) (block_of_bytes data)).
Definition aes128_dec_single (key data : list Z) : list Z :=
  bytes_of_block (InvCipher (KeyExpansion (block_of_bytes key)) (block_of_bytes data)).

(** mbedtls: [mbedtls_aes_crypt_cbc] over whole blocks. *)
Fixpoint to_blocks (n : nat) (l : list Z) : list block :=
  match n with
  | O => []
  | S n' => block_of_bytes (firstn 16 l) :: to_blocks n' (skipn 16 l)
  end.

Definition of_blocks (bs : list block) : list Z :=
  flat_map bytes_of_block bs.

Fixpoint cbc_encrypt (w : schedule) (iv : block) (bs : list block) : list block :=
  match bs with
  | [] => []
  | b :: r => let c := Cipher w (AddRoundKey iv b) in c :: cbc_encrypt w c r
  end.

Fixpoint cbc_decrypt (w : schedule) (iv : block) (bs : list block) : list block :=
  match bs with
  | [] => []
  | c :: r => AddRoundKey iv (InvCipher w c) :: cbc_decrypt w c r
  end.

Inductive mode : Type := MBEDTLS_AES_ENCRYPT | MBEDTLS_AES_DECRYPT.

(** The bytes written to [output]; nothing is written when [len] is not a
    multiple of the block size (the call returns an error code). *)
Definition mbedtls_aes_crypt_cbc (m : mode) (key : list Z) (len : Z)
    (iv input : list Z) : list Z :=
  if len mod 16 =? 0 then
    let w := KeyExpansion (block_of_bytes key) in
    let bs := to_blocks (Z.to_nat (len / 16)) input in
    match m with
    | MBEDTLS_AES_ENCRYPT => of_blocks (cbc_encrypt w (block_of_bytes iv) bs)
    | MBEDTLS_AES_DECRYPT => of_blocks (cbc_decrypt w (block_of_bytes iv) bs)
    end
  else [].

End AES.

(* ===================================================================== *)
(** ** aes_crypto.cpp *)
(* ===================================================================== *)

Module AesCrypto.

Import Print.
Local Open Scope string_scope.
Local Open Scope Z_scope.

Definition KEY_SIZE : Z := 16.
Definition BLOCK_SIZE : Z := 16.

(** [for (i = 0; i < n; i++) Serial.print(f(i))]: the text printed. *)
Fixpoint print_for (n : nat) (f : nat -> string) : string :=
  match n with
  | O => ""
  | S n' => print_for n' f ++ f n'
  end.

(** [for (i = from; i < from + n; i++) a[i] = v] *)
Fixpoint store_from {A : Type} (from n : nat) (v : A) (a : list A) : list A :=
  match n with
  | O => a
  | S n' => store_from (S from) n' v (upd from v a)
  end.

(** A callee writes [out] at the start of the caller's buffer [buf]. *)
Definition store_bytes (buf out : list Z) : list Z :=
  (out ++ skipn (length out) buf)%list.

Definition charset : string :=
  "ABCDEFGHIJKLMNOPQRSTUVWXYZ"
  ++ "abcdefghijklmnopqrstuvwxyz"
  ++ "0123456789"
  ++ "!" ++ String (ascii_of_nat 34) "#$%&'()*+,-./:;<=>?@[\]^_`{|}~ ".

Definition charSet_size : Z := Z.of_nat (String.length charset).

Definition charset_at (i : Z) : Z :=
  match String.get (Z.to_nat i) charset with
  | Some c => Z.of_nat (nat_of_ascii c)
  | None => 0
  end.

(** [generation_Key(key_gen)]; [rnd] lists the values returned by the
    successive calls [random(charSet_size)]. *)
Definition generation_Key (rnd : list Z) : list Z :=
  (map (fun i => charset_at (nth i rnd 0)) (seq 0 (Z.to_nat KEY_SIZE)) ++ [0])%list.

Definition applyPadding (input : list Z) (inputLen : Z) (output : list Z)
  : list Z * Z :=
  let paddedLen := wrap_u32 ((inputLen / BLOCK_SIZE + 1) * BLOCK_SIZE) in
  let output := memcpy output input (Z.to_nat inputLen) in
  let padValue := wrap_u8 (paddedLen - inputLen) in
  let output :=
    store_from (Z.to_nat inputLen) (Z.to_nat (paddedLen - inputLen)) padValue output in
  (output, paddedLen).

Definition iv : list Z :=
  [0xff; 0x01; 0x02; 0x03; 0x04; 0x05; 0x06; 0x07;
   0x08; 0x09; 0x0a; 0x0b; 0x0c; 0x0d; 0x0e; 0x0f].

Definition printHex (data : list Z) (len : Z) : string :=
  print_for (Z.to_nat len) (fun i =>
    let b := nth i data 0 in
    (if b <? 16 then "0" else "") ++ print_byte b HEX ++ " ")
  ++ newline.

Section Cipher.

(** The mbedtls primitive, external to the repository: the bytes it
    writes to its output buffer. *)
Variable aes_crypt_cbc : AES.mode -> list Z -> Z -> list Z -> list Z -> list Z.

Definition encrypt (input : list Z) (len : Z) (key : list Z) (output : list Z)
  : list Z :=
  store_bytes output (aes_crypt_cbc AES.MBEDTLS_AES_ENCRYPT key len iv input).

Definition decrypt (input : list Z) (len : Z) (key : list Z) (output : list Z)
  : list Z :=
  store_bytes output (aes_crypt_cbc AES.MBEDTLS_AES_DECRYPT key len iv input).

End Cipher.

End AesCrypto.

(* ===================================================================== *)
(** ** The padding / encryption demo sketch *)
(* ===================================================================== *)

Module Demo.

Import Print AesCrypto.
Local Open Scope string_scope.
Local Open Scope Z_scope.

(** The three uninitialised 64-byte arrays of [setup]. *)
Record frame : Type :=
  { paddedInput : list Z; encrypted : list Z; decrypted : list Z }.

Definition msg_prompt : string := "Введите строку и нажмите Enter:".
Definition msg_key : string := "Ключ: ".
Definition msg_encrypted : string := "Зашифровано (HEX):".
Definition msg_decrypted : string := "Расшифровка (без паддинга):".
Definition msg_padding_error : string := "Ошибка паддинга!".

(** A NUL-terminated [char*] as printed by [Serial.println(key)]. *)
Fixpoint cstr (l : list Z) : list Z :=
  match l with
  | [] => []
  | c :: r => if c =? 0 then [] else c :: cstr r
  end.

Section Cipher.

Variable aes_crypt_cbc : AES.mode -> list Z -> Z -> list Z -> list Z -> list Z.

(** What [setup] has printed and computed when it reaches the padding
    check: the text so far, the padded length and the decrypted buffer.
    [inputString] is the line read from the host after [trim()], [rnd]
    the values of the random number generator. *)
Definition setup_decrypt (inputString rnd : list Z) (f : frame)
  : string * Z * list Z :=
  let out := msg_prompt ++ newline in
  let out := out ++ string_of_bytes inputString ++ newline in
  let inputLen := Z.of_nat (length inputString) in
  let '(paddedInput, paddedLen) :=
    applyPadding inputString inputLen (paddedInput f) in
  let key := generation_Key rnd in
  let out := out ++ msg_key in
  let out := out ++ string_of_bytes (cstr key) ++ newline in
  let encrypted :=
    encrypt aes_crypt_cbc paddedInput paddedLen key (encrypted f) in
  let decrypted :=
    decrypt aes_crypt_cbc encrypted paddedLen key (decrypted f) in
  let out := out ++ msg_encrypted ++ newline in
  let out := out ++ printHex encrypted paddedLen in
  (out, paddedLen, decrypted).

(** The text printed by [setup]. *)
Definition setup (inputString rnd : list Z) (f : frame) : string :=
  let '(out, paddedLen, decrypted) := setup_decrypt inputString rnd f in
  let padLen := nth (Z.to_nat (paddedLen - 1)) decrypted 0 in
  if (0 <? padLen) && (padLen <=? BLOCK_SIZE) then
    let out := out ++ msg_decrypted ++ newline in
    let out := out ++
      print_for (Z.to_nat (wrap_u32 (paddedLen - padLen)))
        (fun i => print_char (nth i decrypted 0)) in
    out ++ newline
  else
    out ++ msg_padding_error ++ newline.

End Cipher.

End Demo.

(* ===================================================================== *)
(** ** The TRNG firmware (v2.2, advanced UI) *)
(* ===================================================================== *)

Module Firmware.

Import Print.
Local Open Scope string_scope.
Local Open Scope Z_scope.

(** *** Configuration *)

Definition BUTTON_UP : Z := 13.
Definition BUTTON_DOWN : Z := 12.
Definition BUTTON_SELECT : Z := 14.
Definition GATE_CONTROL_PIN : Z := 27.
Definition COUNTER_RESET_PIN : Z := 26.
Definition counterPins : list Z := [4; 5; 15; 16; 17; 18; 19; 23].

Definition MENU_ITEMS_COUNT : Z := 4.
Definition menuItems : list string :=
  ["Generate Password"; "Set Length"; "Set Complexity"; "About"].

Definition debounceDelay : Z := 200.

Inductive Complexity : Type :=
| NUMBERS_ONLY | LOWERCASE_ONLY | UPPERCASE_ONLY
| LOWER_UPPER | LOWER_UPPER_NUM | ALL_CHARS.

Definition Complexity_value (c : Complexity) : Z :=
  match c with
  | NUMBERS_ONLY => 0 | LOWERCASE_ONLY => 1 | UPPERCASE_ONLY => 2
  | LOWER_UPPER => 3 | LOWER_UPPER_NUM => 4 | ALL_CHARS => 5
  end.

Definition complexityNames : list string :=
  ["Numbers"; "Lowercase"; "Uppercase"; "Letters"; "Alphanumeric"; "All Symbols"].

Definition encryptionKey : list Z :=
  [0x2B; 0x7E; 0x15; 0x16; 0x28; 0xAE; 0xD2; 0xA6;
   0xAB; 0xF7; 0x15; 0x88; 0x09; 0xCF; 0x4F; 0x3C].

(** *** Hardware *)

(** One [mpu.getMotion6] reading. *)
Record Motion : Type :=
  { ax : Z; ay : Z; az : Z; gx : Z; gy : Z; gz : Z }.

Definition still : Motion :=
  {| ax := 0; ay := 0; az := 0; gx := 0; gy := 0; gz := 0 |}.

Inductive Event : Type :=
| DigitalWrite (pin : Z) (high : bool)
| DelayMicroseconds (us : Z).

(** The board as the firmware sees it: a clock, the readings the sensors
    will return and the time the motion sensor will take to return them,
    and what has been written to the output pins and to the serial
    port. *)
Record Hw : Type := mkHw
  { micros : Z;                     (* time since boot, microseconds *)
    motion : list Motion;           (* coming [getMotion6] readings *)
    sensor_us : list N;             (* microseconds the coming [getMotion6] calls take *)
    counter : list (Z -> bool);     (* pin levels at the coming [readCounter] calls *)
    trace : list Event;             (* pin writes and waits, latest first *)
    serial : string }.              (* bytes sent to the host *)

Definition with_micros (t : Z) (h : Hw) : Hw :=
  mkHw t (motion h) (sensor_us h) (counter h) (trace h) (serial h).
Definition with_motion (m : list Motion) (h : Hw) : Hw :=
  mkHw (micros h) m (sensor_us h) (counter h) (trace h) (serial h).
Definition with_sensor_us (u : list N) (h : Hw) : Hw :=
  mkHw (micros h) (motion h) u (counter h) (trace h) (serial h).
Definition with_counter (c : list (Z -> bool)) (h : Hw) : Hw :=
  mkHw (micros h) (motion h) (sensor_us h) c (trace h) (serial h).
Definition with_trace (e : list Event) (h : Hw) : Hw :=
  mkHw (micros h) (motion h) (sensor_us h) (counter h) e (serial h).
Definition with_serial (o : string) (h : Hw) : Hw :=
  mkHw (micros h) (motion h) (sensor_us h) (counter h) (trace h) o.

Definition hw_millis (h : Hw) : Z := wrap_u32 (micros h / 1000).

Definition digitalWrite (pin : Z) (high : bool) (h : Hw) : Hw :=
  with_trace (DigitalWrite pin high :: trace h) h.

Definition delayMicroseconds (us : Z) (h : Hw) : Hw :=
  with_trace (DelayMicroseconds us :: trace h) (with_micros (micros h + us) h).

Definition hw_delay (ms : Z) (h : Hw) : Hw := with_micros (micros h + 1000 * ms) h.

(** [mpu.getMotion6(&ax, ...)]: a transfer over I2C.  The call returns
    the next reading once the transfer is done; how long that took is
    the board's affair, and the clock has moved on by as much. *)
Definition getMotion6 (h : Hw) : Motion * Hw :=
  let took := Z.of_N (hd 0%N (sensor_us h)) in
  let h := with_sensor_us (tl (sensor_us h)) (with_micros (micros h + took) h) in
  match motion h with
  | [] => (still, h)
  | m :: r => (m, with_motion r h)
  end.

Definition Serial_print (str : string) (h : Hw) : Hw :=
  with_serial (serial h ++ str) h.

(** [for (i = from; i < from + n; i++) body] *)
Fixpoint for_range {S : Type} (from n : nat) (body : nat -> S -> S) (s : S) : S :=
  match n with
  | O => s
  | S n' => for_range (Datatypes.S from) n' body (body from s)
  end.

(** *** Core TRNG and crypto logic *)

Definition readCounter (h : Hw) : Z * Hw :=
  let pins := hd (fun _ => false) (counter h) in
  let value :=
    for_range 0 8
      (fun i value =>
         if pins (nth i counterPins 0)
         then wrap_u8 (Z.lor value (Z.shiftl 1 (Z.of_nat i)))
         else value)
      0 in
  (value, with_counter (tl (counter h)) h).

Definition motionEnergy (m : Motion) : Z :=
  wrap_s32 (Z.abs (ax m) + Z.abs (ay m) + Z.abs (az m)
            + Z.abs (gx m) + Z.abs (gy m) + Z.abs (gz m)).

Definition gateTime (m : Motion) : Z :=
  wrap_u32 (Z.rem (motionEnergy m) 100 + 10).

(** One turn of the acquisition loop. *)
Definition gate_pulse (h : Hw) : Hw :=
  let (m, h) := getMotion6 h in
  let h := digitalWrite GATE_CONTROL_PIN true h in
  let h := delayMicroseconds (gateTime m) h in
  let h := digitalWrite GATE_CONTROL_PIN false h in
  delayMicroseconds 10 h.

(** [while (millis() - startTime < 200) ...] *)
Fixpoint gate_loop (fuel : nat) (startTime : Z) (h : Hw) : Hw :=
  match fuel with
  | O => h
  | S fuel' =>
      if wrap_u32 (hw_millis h - startTime) <? 200
      then gate_loop fuel' startTime (gate_pulse h)
      else h
  end.

(** Every turn takes 20 microseconds or more, so the 200 ms window closes
    within this many turns. *)
Definition acquisition_turns : nat := Z.to_nat 10050.

Definition generateRandomByte (h : Hw) : Z * Hw :=
  let h := digitalWrite COUNTER_RESET_PIN true h in
  let h := delayMicroseconds 10 h in
  let h := digitalWrite COUNTER_RESET_PIN false h in
  let startTime := hw_millis h in
  let h := gate_loop acquisition_turns startTime h in
  readCounter h.

(** Lines 236-238 of [runPasswordGeneration]:
    [for (i = 0; i < 16; i++) generatedKey[i] = generateRandomByte();]
    over any sampler and any state [W] the sampler works on. *)
Definition fillGeneratedKey {W : Type} (sampler : W -> Z * W)
    (generatedKey : list Z) (w : W) : list Z * W :=
  for_range 0 16
    (fun i '(key, w) => let (b, w) := sampler w in (upd i b key, w))
    (generatedKey, w).

(** *** Program state *)

Record State : Type := mkState
  { selector : Z;
    top_line_index : Z;
    lastDebounceTime : Z;
    passwordLength : Z;
    complexityLevel : Z;
    generatedKey : list Z;
    hw : Hw }.

Definition with_selector (v : Z) (s : State) : State :=
  mkState v (top_line_index s) (lastDebounceTime s) (passwordLength s)
    (complexityLevel s) (generatedKey s) (hw s).
Definition with_top_line_index (v : Z) (s : State) : State :=
  mkState (selector s) v (lastDebounceTime s) (passwordLength s)
    (complexityLevel s) (generatedKey s) (hw s).
Definition with_lastDebounceTime (v : Z) (s : State) : State :=
  mkState (selector s) (top_line_index s) v (passwordLength s)
    (complexityLevel s) (generatedKey s) (hw s).
Definition with_passwordLength (v : Z) (s : State) : State :=
  mkState (selector s) (top_line_index s) (lastDebounceTime s) v
    (complexityLevel s) (generatedKey s) (hw s).
Definition with_complexityLevel (v : Z) (s : State) : State :=
  mkState (selector s) (top_line_index s) (lastDebounceTime s) (passwordLength s)
    v (generatedKey s) (hw s).
Definition with_generatedKey (v : list Z) (s : State) : State :=
  mkState (selector s) (top_line_index s) (lastDebounceTime s) (passwordLength s)
    (complexityLevel s) v (hw s).
Definition with_hw (v : Hw) (s : State) : State :=
  mkState (selector s) (top_line_index s) (lastDebounceTime s) (passwordLength s)
    (complexityLevel s) (generatedKey s) v.

(** The globals as initialised, on a given board. *)
Definition boot (h : Hw) : State :=
  {| selector := 0; top_line_index := 0; lastDebounceTime := 0;
     passwordLength := 16; complexityLevel := Complexity_value ALL_CHARS;
     generatedKey := repeat 0 16; hw := h |}.

Definition millis (s : State) : Z := hw_millis (hw s).
Definition delay (ms : Z) (s : State) : State := with_hw (hw_delay ms (hw s)) s.

(** [millis() - lastDebounceTime], computed in [unsigned long]. *)
Definition sinceLastDebounce (s : State) : Z :=
  wrap_u32 (millis s - lastDebounceTime s).

(** [lastDebounceTime = millis();] *)
Definition stampDebounce (s : State) : State :=
  with_lastDebounceTime (wrap_s32 (millis s)) s.

Definition sendToPC (dataToSend : list Z) (s : State) : State :=
  let h := hw s in
  let h := Serial_print "LEN:" h in
  let h := Serial_print (print_long (passwordLength s)) h in
  let h := Serial_print ",COMPLEX:" h in
  let h := Serial_print (print_long (complexityLevel s)) h in
  let h := Serial_print ",KEY:" h in
  let h :=
    for_range 0 16
      (fun i h =>
         let b := nth i dataToSend 0 in
         let h := if b <? 16 then Serial_print "0" h else h in
         Serial_print (print_byte b HEX) h)
      h in
  let h := Serial_print newline h in
  with_hw h s.

Definition runPasswordGeneration (s : State) : State :=
  let (key, h) := fillGeneratedKey generateRandomByte (generatedKey s) (hw s) in
  let s := with_hw h (with_generatedKey key s) in
  let s :=
    with_generatedKey (AES.aes128_enc_single encryptionKey (generatedKey s)) s in
  let s := sendToPC (generatedKey s) s in
  delay 2000 s.

(** *** Buttons *)

(** One look at the buttons: the time that went by since the firmware
    last looked, and which of the three pins read LOW. *)
Record Poll : Type := mkPoll
  { elapsed_us : N; upPressed : bool; downPressed : bool; selectPressed : bool }.

Definition tick (p : Poll) (s : State) : State :=
  with_hw (with_micros (micros (hw s) + Z.of_N (elapsed_us p)) (hw s)) s.

(** A screen either returns, leaving the polls it has not consumed, or is
    still waiting for a button when the recorded polls run out. *)
Inductive Res : Type :=
| Done (s : State) (rest : list Poll)
| Waiting (s : State).

Definition bind (r : Res) (k : State -> list Poll -> Res) : Res :=
  match r with
  | Done s rest => k s rest
  | Waiting s => Waiting s
  end.

Definition state_of (r : Res) : State :=
  match r with Done s _ => s | Waiting s => s end.

(** One turn of the [while (setting)] loop of [chooseLength]; the boolean
    is [setting]. *)
Definition chooseLength_turn (p : Poll) (s : State) : State * bool :=
  let s := tick p s in
  if debounceDelay <? sinceLastDebounce s then
    let s :=
      if upPressed p then
        let s := with_passwordLength (wrap_s32 (passwordLength s + 1)) s in
        let s := if 64 <? passwordLength s then with_passwordLength 64 s else s in
        stampDebounce s
      else s in
    let s :=
      if downPressed p then
        let s := with_passwordLength (wrap_s32 (passwordLength s - 1)) s in
        let s := if passwordLength s <? 8 then with_passwordLength 8 s else s in
        stampDebounce s
      else s in
    if selectPressed p then (stampDebounce s, false) else (s, true)
  else (s, true).

Fixpoint chooseLength_loop (polls : list Poll) (s : State) : Res :=
  match polls with
  | [] => Waiting s
  | p :: rest =>
      let (s, setting) := chooseLength_turn p s in
      if setting then chooseLength_loop rest s else Done s rest
  end.

Definition chooseLength (polls : list Poll) (s : State) : Res :=
  bind (chooseLength_loop polls s) (fun s rest => Done (delay 200 s) rest).

Definition numComplexityLevels : Z := Z.of_nat (length complexityNames).

(** One turn of the loop of [chooseComplexity] on [tempSelector]. *)
Definition chooseComplexity_turn (p : Poll) (tempSelector : Z) (s : State)
  : Z * State * bool :=
  let s := tick p s in
  if debounceDelay <? sinceLastDebounce s then
    let '(tempSelector, s) :=
      if upPressed p then
        let t := wrap_s32 (tempSelector - 1) in
        let t := if t <? 0 then numComplexityLevels - 1 else t in
        (t, stampDebounce s)
      else (tempSelector, s) in
    let '(tempSelector, s) :=
      if downPressed p then
        let t := wrap_s32 (tempSelector + 1) in
        let t := if numComplexityLevels <=? t then 0 else t in
        (t, stampDebounce s)
      else (tempSelector, s) in
    if selectPressed p then
      (tempSelector, stampDebounce (with_complexityLevel tempSelector s), false)
    else (tempSelector, s, true)
  else (tempSelector, s, true).

Fixpoint chooseComplexity_loop (polls : list Poll) (tempSelector : Z) (s : State)
  : Res :=
  match polls with
  | [] => Waiting s
  | p :: rest =>
      let '(tempSelector, s, setting) := chooseComplexity_turn p tempSelector s in
      if setting then chooseComplexity_loop rest tempSelector s else Done s rest
  end.

Definition chooseComplexity (polls : list Poll) (s : State) : Res :=
  bind (chooseComplexity_loop polls (complexityLevel s) s)
    (fun s rest => Done (delay 200 s) rest).

(** [displayAbout]: [helpShown] is set while the help text of a topic is
    on screen and the inner [while (digitalRead(BUTTON_SELECT) == HIGH)]
    is spinning. *)
Fixpoint displayAbout_loop (polls : list Poll) (helpShown : bool)
    (aboutSelector : Z) (s : State) : Res :=
  match polls with
  | [] => Waiting s
  | p :: rest =>
      let s := tick p s in
      if helpShown then
        if selectPressed p
        then displayAbout_loop rest false aboutSelector (stampDebounce s)
        else displayAbout_loop rest true aboutSelector s
      else if debounceDelay <? sinceLastDebounce s then
        let '(aboutSelector, s) :=
          if upPressed p then
            let a := wrap_s32 (aboutSelector - 1) in
            let a := if a <? 0 then 4 - 1 else a in
            (a, stampDebounce s)
          else (aboutSelector, s) in
        let '(aboutSelector, s) :=
          if downPressed p then
            let a := wrap_s32 (aboutSelector + 1) in
            let a := if 4 <=? a then 0 else a in
            (a, stampDebounce s)
          else (aboutSelector, s) in
        if selectPressed p then
          if aboutSelector =? 0 then Done (stampDebounce s) rest
          else displayAbout_loop rest true aboutSelector (delay 500 s)
        else displayAbout_loop rest false aboutSelector s
      else displayAbout_loop rest false aboutSelector s
  end.

Definition displayAbout (polls : list Poll) (s : State) : Res :=
  bind (displayAbout_loop polls false 1 s) (fun s rest => Done (delay 200 s) rest).

(** *** Menu and input handling *)

Definition performAction (polls : list Poll) (s : State) : Res :=
  if selector s =? 0 then Done (runPasswordGeneration s) polls
  else if selector s =? 1 then chooseLength polls s
  else if selector s =? 2 then chooseComplexity polls s
  else if selector s =? 3 then displayAbout polls s
  else Done s polls.

Definition handleInput (p : Poll) (polls : list Poll) (s : State) : Res :=
  let s := tick p s in
  if sinceLastDebounce s <? debounceDelay then Done s polls
  else
    let s :=
      if upPressed p then
        let s := with_selector (wrap_s8 (selector s - 1)) s in
        if selector s <? 0 then with_selector (MENU_ITEMS_COUNT - 1) s else s
      else s in
    let s :=
      if downPressed p then
        let s := with_selector (wrap_s8 (selector s + 1)) s in
        if MENU_ITEMS_COUNT <=? selector s then with_selector 0 s else s
      else s in
    let s :=
      if selector s <? top_line_index s
      then with_top_line_index (selector s) s else s in
    let s :=
      if top_line_index s + 3 <=? selector s
      then with_top_line_index (wrap_s8 (selector s - 2)) s else s in
    bind (if selectPressed p then performAction polls s else Done s polls)
      (fun s rest =>
         if upPressed p || downPressed p || selectPressed p
         then Done (stampDebounce s) rest
         else Done s rest).

(** [loop()] run over a recorded sequence of polls; every call of
    [handleInput] takes one poll or more, so [length polls] calls are
    enough to use them up. *)
Fixpoint loop_n (n : nat) (polls : list Poll) (s : State) : Res :=
  match n, polls with
  | S n', p :: rest => bind (handleInput p rest s) (fun s rest => loop_n n' rest s)
  | _, _ => Done s polls
  end.

Definition run (polls : list Poll) (s : State) : Res :=
  loop_n (length polls) polls s.

End Firmware.

(* ===================================================================== *)
(** ** Vocabulary of the statements *)
(* ===================================================================== *)

Module Reference.

Import Print.
Local Open Scope string_scope.
Local Open Scope Z_scope.

(** Two hexadecimal digits for one byte, high nibble first. *)
Definition hex_pair (b : Z) : string :=
  String (digit_char (b / 16)) (String (digit_char (b mod 16)) "").

Definition hex_string (l : list Z) : string :=
  fold_right (fun b s => hex_pair b ++ s) "" l.

Fixpoint string_forall (P : ascii -> bool) (s : string) : bool :=
  match s with
  | "" => true
  | String c r => P c && string_forall P r
  end.

Definition code (c : ascii) : Z := Z.of_nat (nat_of_ascii c).

Definition is_digit (c : ascii) : bool := (48 <=? code c) && (code c <=? 57).
Definition is_hex_digit (c : ascii) : bool :=
  is_digit c || ((65 <=? code c) && (code c <=? 70)).
(** Printable ASCII: neither a control character nor beyond 7 bits. *)
Definition is_printable (c : ascii) : bool := (32 <=? code c) && (code c <=? 126).

(** The number a string of decimal digits denotes. *)
Fixpoint digits_value (s : string) : Z :=
  match s with
  | "" => 0
  | String c r => (code c - 48) * 10 ^ Z.of_nat (String.length r) + digits_value r
  end.

Definition decimal_value (s : string) : Z :=
  match s with
  | String c r =>
      if Ascii.eqb c "-" then - digits_value r else digits_value s
  | "" => 0
  end.

(** Is [s] an optional minus sign and then digits only? *)
Definition is_decimal (s : string) : bool :=
  match s with
  | String c r =>
      if Ascii.eqb c "-" then string_forall is_digit r
      else string_forall is_digit s
  | "" => false
  end.

(** The texts [f from], [f (from + 1)], ... ([n] of them) one after the
    other. *)
Fixpoint text_range (from n : nat) (f : nat -> string) : string :=
  match n with
  | O => ""
  | S n' => f from ++ text_range (S from) n' f
  end.

(** [n] successive calls of a sampler: the values returned, in order, and
    the state left behind. *)
Fixpoint sample_n {W : Type} (n : nat) (sampler : W -> Z * W) (w : W)
  : list Z * W :=
  match n with
  | O => ([], w)
  | S n' =>
      let (b, w) := sampler w in
      let (bs, w) := sample_n n' sampler w in
      (b :: bs, w)
  end.

(** A sampler instrumented with a count of its calls. *)
Definition counting {W : Type} (sampler : W -> Z * W) (wc : W * nat)
  : Z * (W * nat) :=
  let (b, w) := sampler (fst wc) in (b, (w, S (snd wc))).

(** A mocked sampler replaying a recorded stream of values (and returning
    0 once the stream is used up). *)
Definition replay (stream : list Z) : Z * list Z :=
  (hd 0 stream, tl stream).

(** "Decrypt inverts encrypt" for the wrappers of aes_crypto.cpp built on a
    CBC primitive: whatever the buffers held before, the first [len] bytes
    come back. *)
Definition decrypt_inverts_encrypt
    (cbc : AES.mode -> list Z -> Z -> list Z -> list Z -> list Z) : Prop :=
  forall (input key e0 d0 : list Z) (len : Z),
    0 <= len -> len mod 16 = 0 ->
    (Z.to_nat len <= length input)%nat ->
    Forall is_byte (firstn (Z.to_nat len) input) ->
    firstn (Z.to_nat len)
      (AesCrypto.decrypt cbc (AesCrypto.encrypt cbc input len key e0) len key d0)
    = firstn (Z.to_nat len) input.

(** A broken primitive that writes zeros, to exercise the error path of
    the demo. *)
Definition zeroing_cbc (m : AES.mode) (key : list Z) (len : Z)
    (iv input : list Z) : list Z :=
  repeat 0 (Z.to_nat len).

(** The stack frame of the demo with its arrays zeroed. *)
Definition blank_frame : Demo.frame :=
  {| Demo.paddedInput := repeat 0 64;
     Demo.encrypted := repeat 0 64;
     Demo.decrypted := repeat 0 64 |}.

(** A motion reading made of six signed 16-bit values. *)
Definition motion_int16 (m : Firmware.Motion) : Prop :=
  is_int16 (Firmware.ax m) /\ is_int16 (Firmware.ay m) /\ is_int16 (Firmware.az m)
  /\ is_int16 (Firmware.gx m) /\ is_int16 (Firmware.gy m) /\ is_int16 (Firmware.gz m).

(** The ranges of the two settings. *)
Definition length_ok (s : Firmware.State) : Prop :=
  8 <= Firmware.passwordLength s <= 64.
Definition level_ok (v : Z) : Prop := 0 <= v <= 5.
Definition settings_ok (s : Firmware.State) : Prop :=
  length_ok s /\ level_ok (Firmware.complexityLevel s).

(** A screen hands back no more polls than it was given. *)
Definition leaves_no_more (r : Firmware.Res) (polls : list Firmware.Poll) : Prop :=
  match r with
  | Firmware.Done _ rest => (length rest <= length polls)%nat
  | Firmware.Waiting _ => True
  end.

(** A board just powered up, with nothing moving and nothing counted. *)
Definition idle_board : Firmware.Hw := Firmware.mkHw 0 [] [] [] [] "".

(** Every coming read of the motion sensor returns within one period of
    the microsecond counter (2^32 microseconds, some 71 minutes). *)
Definition sensor_prompt (h : Firmware.Hw) : Prop :=
  Forall (fun us => Z.of_N us < 2 ^ 32) (Firmware.sensor_us h).

(** The debounce test of the editor screens lets this poll through. *)
Definition editor_accepts (p : Firmware.Poll) (s : Firmware.State) : Prop :=
  Firmware.debounceDelay < Firmware.sinceLastDebounce (Firmware.tick p s).

(** The debounce test of the main menu lets this poll through. *)
Definition menu_accepts (p : Firmware.Poll) (s : Firmware.State) : Prop :=
  Firmware.debounceDelay <= Firmware.sinceLastDebounce (Firmware.tick p s).

(** The program state apart from the board: selector, scroll offset,
    debounce time stamp, settings and key buffer. *)
Definition globals (s : Firmware.State) : Z * Z * Z * Z * Z * list Z :=
  (Firmware.selector s, Firmware.top_line_index s, Firmware.lastDebounceTime s,
   Firmware.passwordLength s, Firmware.complexityLevel s, Firmware.generatedKey s).

End Reference.

(* ===================================================================== *)
(** ** The main menu on the display *)
(* ===================================================================== *)

Module Display.

Import Firmware.
Local Open Scope string_scope.
Local Open Scope Z_scope.

(** The calls made on the display driver, in the order they are made. *)
Inductive Draw : Type :=
| ClearDisplay
| SetTextSize (n : Z)
| SetTextColor (c : Z)
| SetCursor (x y : Z)
| PrintText (t : string)
| DisplayFlush.

Definition WHITE : Z := 1.

Definition drawMenu (s : State) : list Draw :=
  let d := [ClearDisplay; SetTextSize 1; SetTextColor WHITE] in
  let d :=
    for_range 0 3
      (fun i d =>
         let item_index := top_line_index s + Z.of_nat i in
         if item_index <? MENU_ITEMS_COUNT then
           (d ++ [SetCursor 10 (Z.of_nat i * 10);
                  PrintText (nth (Z.to_nat item_index) menuItems "")])%list
         else d)
      d in
  let selector_y_pos := (selector s - top_line_index s) * 10 in
  (d ++ [SetCursor 0 selector_y_pos; PrintText ">"; DisplayFlush])%list.

End Display.

(* ===================================================================== *)
(** ** The TRNG firmware v2.0: what differs from v2.2 *)
(* ===================================================================== *)

Module FirmwareV20.

Import Print.
Local Open Scope string_scope.
Local Open Scope Z_scope.

(** The settings of v2.0 and the board. *)
Record State : Type := mkState
  { passwordLength : Z;
    useSpecialSymbols : bool;
    hw : Firmware.Hw }.

Definition sendToPC (dataToSend : list Z) (s : State) : State :=
  let h := hw s in
  let h := Firmware.Serial_print "LEN:" h in
  let h := Firmware.Serial_print (print_long (passwordLength s)) h in
  let h := Firmware.Serial_print ",COMPLEX:" h in
  let h := Firmware.Serial_print (if useSpecialSymbols s then "1" else "0") h in
  let h := Firmware.Serial_print ",KEY:" h in
  let h :=
    Firmware.for_range 0 16
      (fun i h =>
         let b := nth i dataToSend 0 in
         let h := if b <? 16 then Firmware.Serial_print "0" h else h in
         Firmware.Serial_print (print_byte b HEX) h)
      h in
  let h := Firmware.Serial_print newline h in
  mkState (passwordLength s) (useSpecialSymbols s) h.

(** Toggle on each entry, then show the new value for 1.5 s. *)
Definition chooseComplexity (s : State) : State :=
  mkState (passwordLength s) (negb (useSpecialSymbols s))
    (Firmware.hw_delay 1500 (hw s)).

End FirmwareV20.

(* ===================================================================== *)
(** ** Vocabulary of the further statements *)
(* ===================================================================== *)

Module Words.

Import Print Reference Firmware.
Local Open Scope string_scope.
Local Open Scope Z_scope.

(** What the editor screens and the About screen leave alone: the menu
    position, the key buffer, and the board apart from its clock. *)
Definition untouched (s : State)
  : Z * Z * list Z * list Motion * list (Z -> bool) * list Event * string :=
  (selector s, top_line_index s, generatedKey s,
   motion (hw s), counter (hw s), trace (hw s), serial (hw s)).

(** The selector is on one of the four items and within the three lines
    shown from [top_line_index]. *)
Definition menu_ok (s : State) : Prop :=
  0 <= selector s <= 3
  /\ 0 <= top_line_index s <= 1
  /\ top_line_index s <= selector s <= top_line_index s + 2.

(** The selector after the Up and Down tests of the main menu: one step
    round the four items. *)
Definition moved (up down : bool) (sel : Z) : Z :=
  match up, down with
  | true, false => (sel - 1) mod 4
  | false, true => (sel + 1) mod 4
  | _, _ => sel
  end.

(** The scroll offset that keeps a selector on one of the three lines. *)
Definition scrolled (top sel : Z) : Z :=
  if sel <? top then sel else if top + 3 <=? sel then sel - 2 else top.

(** The main menu after its Up/Down and scroll steps on a poll. *)
Definition menu_step (p : Poll) (s : State) : State :=
  let sel := moved (upPressed p) (downPressed p) (selector s) in
  with_top_line_index (scrolled (top_line_index s) sel)
    (with_selector sel (tick p s)).

(** The pin events of [generateRandomByte], latest first as in [trace]:
    the reset pulse of the counter, and one gate pulse held open for
    [g] microseconds. *)
Definition reset_pulse : list Event :=
  [DigitalWrite COUNTER_RESET_PIN false;
   DelayMicroseconds 10;
   DigitalWrite COUNTER_RESET_PIN true].

Definition gate_pulse_events (g : Z) : list Event :=
  [DelayMicroseconds 10;
   DigitalWrite GATE_CONTROL_PIN false;
   DelayMicroseconds g;
   DigitalWrite GATE_CONTROL_PIN true].

Fixpoint gate_pulses (gs : list Z) : list Event :=
  match gs with
  | [] => []
  | g :: r => (gate_pulse_events g ++ gate_pulses r)%list
  end.

(** The time a train of gate pulses takes: each is open for [g] and then
    closed for 10 microseconds. *)
Fixpoint pulses_time (gs : list Z) : Z :=
  match gs with
  | [] => 0
  | g :: r => g + 10 + pulses_time r
  end.

Definition gate_time_ok (g : Z) : Prop := 10 <= g <= 109.

(** The time the next [n] reads of the motion sensor take. *)
Fixpoint reads_time (n : nat) (us : list N) : Z :=
  match n with
  | O => 0
  | S n' => Z.of_N (hd 0%N us) + reads_time n' (tl us)
  end.

(** The settings and the key buffer as they should be. *)
Definition data_ok (s : State) : Prop :=
  settings_ok s
  /\ length (generatedKey s) = 16%nat
  /\ Forall is_byte (generatedKey s).

(** The text of one report, without its line end. *)
Definition report_line (len level : Z) (key : list Z) : string :=
  "LEN:" ++ print_long len ++ ",COMPLEX:" ++ print_long level
  ++ ",KEY:" ++ hex_string key.

(** What the sub-screens and the menu steps cannot change of the data
    sent in a report, with the serial output so far. *)
Definition payload (s : State) : Z * Z * list Z * string :=
  (passwordLength s, complexityLevel s, generatedKey s, serial (hw s)).

(** A property of the serial output that survives one more report. *)
Definition takes_reports (P : string -> Prop) : Prop :=
  forall out len level key,
    P out ->
    8 <= len <= 64 -> 0 <= level <= 5 ->
    length key = 16%nat -> Forall is_byte key ->
    P (out ++ report_line len level key ++ newline).

(** The data as it should be, with a property of the serial output. *)
Definition kept (P : string -> Prop) (s : State) : Prop :=
  data_ok s /\ P (serial (hw s)).

(** *** Reading a report back, as a host would *)

Definition hex_digit_value (c : ascii) : Z :=
  if code c <=? 57 then code c - 48 else code c - 55.

Fixpoint unhex (s : string) : list Z :=
  match s with
  | String a (String b r) => (16 * hex_digit_value a + hex_digit_value b) :: unhex r
  | _ => []
  end.

Fixpoint strip_prefix (pre s : string) : option string :=
  match pre with
  | "" => Some s
  | String c pre' =>
      match s with
      | String d s' => if Ascii.eqb c d then strip_prefix pre' s' else None
      | "" => None
      end
  end.

Definition no_comma (c : ascii) : bool := negb (Ascii.eqb c ",").

(** The text before the first comma, and the text after it. *)
Fixpoint until_comma (s : string) : string * string :=
  match s with
  | "" => ("", "")
  | String c r =>
      if Ascii.eqb c "," then ("", r)
      else let (a, b) := until_comma r in (String c a, b)
  end.

Definition parse_report (line : string) : option (Z * Z * list Z) :=
  match strip_prefix "LEN:" line with
  | None => None
  | Some r =>
      let (lenText, r) := until_comma r in
      match strip_prefix "COMPLEX:" r with
      | None => None
      | Some r =>
          let (levelText, r) := until_comma r in
          match strip_prefix "KEY:" r with
          | None => None
          | Some keyText =>
              if is_decimal lenText && is_decimal levelText
                 && string_forall is_hex_digit keyText
                 && (String.length keyText =? 32)%nat
              then Some (decimal_value lenText, decimal_value levelText,
                         unhex keyText)
              else None
          end
      end
  end.

End Words.

(* ===================================================================== *)
(** ** Vocabulary of the statements on the demo and aes_crypto *)
(* ===================================================================== *)

Module DemoWords.

Import Print Reference AesCrypto Demo Words.
Local Open Scope string_scope.
Local Open Scope Z_scope.

(** Removing the padding as [setup] does: the last of the [paddedLen]
    bytes tells how many to drop. *)
Definition unpad (l : list Z) (paddedLen : Z) : list Z :=
  firstn (Z.to_nat (paddedLen - nth (Z.to_nat (paddedLen - 1)) l 0)) l.

(** A hex dump: two digits and a blank for each byte. *)
Definition hex_dump (l : list Z) : string :=
  fold_right (fun b s => hex_pair b ++ " " ++ s) "" l.

Definition is_dump_char (c : ascii) : bool :=
  is_hex_digit c || Ascii.eqb c " ".

(** Reading a hex dump back. *)
Fixpoint undump (s : string) : list Z :=
  match s with
  | String a (String b (String _ r)) =>
      (16 * hex_digit_value a + hex_digit_value b) :: undump r
  | _ => []
  end.

(** What [random(charSet_size)] can return. *)
Definition random_ok (r : Z) : Prop := 0 <= r < charSet_size.

Definition is_printable_byte (b : Z) : Prop := 32 <= b <= 126.

End DemoWords.

(* ===================================================================== *)
(** ** The edge counter sketch *)
(* ===================================================================== *)

Module Esp32Counter.

Local Open Scope Z_scope.

(** [counter++] on a [volatile uint8_t]. *)
Definition onRise (counter : Z) : Z := wrap_u8 (counter + 1).

(** The counter after [n] rising edges. *)
Fixpoint edges (n : nat) (counter : Z) : Z :=
  match n with
  | O => counter
  | S n' => edges n' (onRise counter)
  end.

End Esp32Counter.

(* ===================================================================== *)
(** ** Vocabulary of the statements on button sequences *)
(* ===================================================================== *)

Module PressWords.

Import Reference Firmware.
Local Open Scope Z_scope.









End PressWords.

(* ===================================================================== *)
(** ** Vocabulary of the statements on the serial traffic *)
(* ===================================================================== *)

Module CountWords.

Import Print Reference Firmware Words.
Local Open Scope string_scope.
Local Open Scope Z_scope.

(** Serial output made of [n] whole reports and nothing else. *)
Inductive reports_n : nat -> string -> Prop :=
| reports_n_none : reports_n 0 ""
| reports_n_more (n : nat) (out : string) (len level : Z) (key : list Z) :
    reports_n n out ->
    8 <= len <= 64 -> 0 <= level <= 5 ->
    length key = 16%nat -> Forall is_byte key ->
    reports_n (S n) (out ++ report_line len level key ++ newline).

(** The output of [s] is that of [s0] followed by [n] whole reports. *)
Definition sent (n : nat) (s0 s : State) : Prop :=
  exists more, serial (hw s) = serial (hw s0) ++ more /\ reports_n n more.

(** The number of polls in which Select is pressed. *)
Definition selects (polls : list Poll) : nat :=
  length (filter selectPressed polls).

(** A screen returns a tail of the polls it was given. *)
Definition hands_back (r : Res) (polls : list Poll) : Prop :=
  match r with
  | Done _ rest => exists used, polls = (used ++ rest)%list
  | Waiting _ => True
  end.

(** The Select presses among the polls a result leaves unread. *)
Definition selects_left (r : Res) : nat :=
  match r with
  | Done _ rest => selects rest
  | Waiting _ => 0%nat
  end.

End CountWords.

(* ===================================================================== *)
(** * Properties *)
(* ===================================================================== *)

(** Linear arithmetic with divisions and remainders by constants. *)
Ltac dlia := Z.to_euclidean_division_equations; lia.

(** ** Bytes, arrays and strings *)

(** A decidable property of a byte holds everywhere once it has been
    checked on the 256 values. *)
Lemma byte_cases (P : Z -> bool) :
  forallb (fun n => P (Z.of_nat n)) (seq 0 256) = true ->
  forall z, is_byte z -> P z = true.
Proof.
  intros Hall z [Hlo Hhi].
  rewrite forallb_forall in Hall.
  specialize (Hall (Z.to_nat z)).
  rewrite Z2Nat.id in Hall by assumption.
  apply Hall, in_seq. lia.
Qed.

Lemma is_byteb_true z : is_byteb z = true <-> is_byte z.
Proof. unfold is_byteb, is_byte. lia. Qed.

Lemma upd_length {A} (v : A) : forall l i, length (upd i v l) = length l.
Proof.
  induction l as [|x l IH]; intros [|i]; cbn; auto.
Qed.

Lemma upd_app_here {A} (v : A) : forall done x rest,
  upd (length done) v (done ++ x :: rest) = done ++ v :: rest.
Proof.
  induction done as [|d done IH]; intros x rest; cbn; [reflexivity|].
  now rewrite IH.
Qed.

Lemma string_app_assoc (a b c : string) :
  ((a ++ b) ++ c)%string = (a ++ (b ++ c))%string.
Proof. induction a as [|x a IH]; cbn; [reflexivity | now rewrite IH]. Qed.

Lemma string_app_nil_r (a : string) : (a ++ "")%string = a.
Proof. induction a as [|x a IH]; cbn; [reflexivity | now rewrite IH]. Qed.

Lemma string_app_length (a b : string) :
  String.length (a ++ b) = (String.length a + String.length b)%nat.
Proof. induction a as [|x a IH]; cbn; [reflexivity | now rewrite IH]. Qed.

(** ** AES-128 *)

Module AESFacts.

Import AES.

Lemma xor8_cancel x k : xor8 (xor8 x k) k = x.
Proof. destruct x, k; cbn. f_equal; btauto. Qed.

Lemma cxor_cancel x k : cxor (cxor x k) k = x.
Proof. destruct x, k; cbn. now rewrite !xor8_cancel. Qed.

Lemma AddRoundKey_involutive k s : AddRoundKey k (AddRoundKey k s) = s.
Proof. destruct k, s; cbn. now rewrite !cxor_cancel. Qed.

Lemma inv_sbox_sbox x : inv_sbox (sbox x) = x.
Proof. destruct x as [[] [] [] [] [] [] [] []]; vm_compute; reflexivity. Qed.

Lemma InvSubBytes_SubBytes s : InvSubBytes (SubBytes s) = s.
Proof. destruct s as [[] [] [] []]; cbn. now rewrite !inv_sbox_sbox. Qed.

Lemma InvShiftRows_ShiftRows s : InvShiftRows (ShiftRows s) = s.
Proof. destruct s as [[] [] [] []]; reflexivity. Qed.

(** The two matrices of MixColumns are inverse to each other: each bit
    of the product is a linear form in the 32 bits of the column. *)
Lemma inv_mix_col_mix_col c : inv_mix_col (mix_col c) = c.
Proof.
  destruct c as [[] [] [] []].
  cbv [mix_col inv_mix_col xor4 mul2 mul3 mul9 mul11 mul13 mul14 xtime xor8].
  f_equal; f_equal; btauto.
Qed.

Lemma InvMixColumns_MixColumns s : InvMixColumns (MixColumns s) = s.
Proof. destruct s; cbn. now rewrite !inv_mix_col_mix_col. Qed.

Lemma inv_round_round k s : inv_round k (round s k) = s.
Proof.
  unfold inv_round, round.
  now rewrite AddRoundKey_involutive, InvMixColumns_MixColumns,
    InvShiftRows_ShiftRows, InvSubBytes_SubBytes.
Qed.

Lemma inv_final_round_final_round k s : inv_final_round k (final_round s k) = s.
Proof.
  unfold inv_final_round, final_round.
  now rewrite AddRoundKey_involutive, InvShiftRows_ShiftRows, InvSubBytes_SubBytes.
Qed.

Lemma inv_rounds_rounds ks :
  forall s, fold_right inv_round (fold_left round ks s) ks = s.
Proof.
  induction ks as [|k ks IH]; intros s; cbn; [reflexivity|].
  now rewrite IH, inv_round_round.
Qed.

Lemma InvCipher_Cipher w s : InvCipher w (Cipher w s) = s.
Proof.
  unfold InvCipher, Cipher.
  now rewrite inv_final_round_final_round, inv_rounds_rounds,
    AddRoundKey_involutive.
Qed.

Lemma u8_of_Z_of_u8 x : u8_of_Z (Z_of_u8 x) = x.
Proof. destruct x as [[] [] [] [] [] [] [] []]; reflexivity. Qed.

Lemma Z_of_u8_of_Z z : is_byte z -> Z_of_u8 (u8_of_Z z) = z.
Proof.
  intros Hz. apply Z.eqb_eq.
  apply (byte_cases (fun z => Z_of_u8 (u8_of_Z z) =? z)); [|assumption].
  vm_compute. reflexivity.
Qed.

Lemma Z_of_u8_byte x : is_byte (Z_of_u8 x).
Proof. destruct x as [[] [] [] [] [] [] [] []]; vm_compute; intuition congruence. Qed.

Lemma block_of_bytes_of_block s : block_of_bytes (bytes_of_block s) = s.
Proof.
  destruct s as [[] [] [] []]. cbv [bytes_of_block bytes_of_col app].
  unfold block_of_bytes, col_of_bytes, byte_at. cbn [nth Nat.add].
  now rewrite !u8_of_Z_of_u8.
Qed.

Lemma block_of_bytes_app l r :
  length l = 16%nat -> block_of_bytes (l ++ r) = block_of_bytes l.
Proof.
  intros Hl.
  do 16 (destruct l as [|? l]; [discriminate|]).
  destruct l; [|discriminate]. reflexivity.
Qed.

Lemma bytes_of_block_length s : length (bytes_of_block s) = 16%nat.
Proof. destruct s as [[] [] [] []]. reflexivity. Qed.

Lemma bytes_of_block_bytes s : Forall is_byte (bytes_of_block s).
Proof.
  destruct s as [[] [] [] []]. cbv [bytes_of_block bytes_of_col app].
  repeat constructor; apply Z_of_u8_byte.
Qed.

Lemma bytes_of_block_of_bytes l :
  length l = 16%nat -> Forall is_byte l -> bytes_of_block (block_of_bytes l) = l.
Proof.
  intros Hl Hb.
  do 16 (destruct l as [|? l]; [discriminate|]).
  destruct l; [|discriminate].
  repeat match goal with
         | H : Forall _ (_ :: _) |- _ => inversion H; clear H; subst
         end.
  cbv [block_of_bytes col_of_bytes byte_at bytes_of_block bytes_of_col app].
  cbn [nth Nat.add].
  now rewrite !Z_of_u8_of_Z by assumption.
Qed.

(** FIPS-197, appendix B: the example key is the one compiled into the
    firmware. *)
Example fips197_appendix_B :
  aes128_enc_single Firmware.encryptionKey
    [0x32; 0x43; 0xf6; 0xa8; 0x88; 0x5a; 0x30; 0x8d;
     0x31; 0x31; 0x98; 0xa2; 0xe0; 0x37; 0x07; 0x34]
  = [0x39; 0x25; 0x84; 0x1d; 0x02; 0xdc; 0x09; 0xfb;
     0xdc; 0x11; 0x85; 0x97; 0x19; 0x6a; 0x0b; 0x32].
Proof. vm_compute. reflexivity. Qed.

(** FIPS-197, appendix C.1. *)
Example fips197_appendix_C1 :
  aes128_enc_single (map Z.of_nat (seq 0 16))
    (map (fun i => 17 * Z.of_nat i) (seq 0 16))
  = [0x69; 0xc4; 0xe0; 0xd8; 0x6a; 0x7b; 0x04; 0x30;
     0xd8; 0xcd; 0xb7; 0x80; 0x70; 0xb4; 0xc5; 0x5a].
Proof. vm_compute. reflexivity. Qed.

Lemma aes128_enc_single_length key data :
  length (aes128_enc_single key data) = 16%nat.
Proof. apply bytes_of_block_length. Qed.

Lemma aes128_dec_enc key data :
  length data = 16%nat -> Forall is_byte data ->
  aes128_dec_single key (aes128_enc_single key data) = data.
Proof.
  intros Hl Hb. unfold aes128_dec_single, aes128_enc_single.
  rewrite block_of_bytes_of_block, InvCipher_Cipher.
  now apply bytes_of_block_of_bytes.
Qed.

End AESFacts.

(** ** CBC over AES *)

Module CBCFacts.

Import AES AESFacts.

Lemma cbc_decrypt_encrypt w : forall bs iv,
  cbc_decrypt w iv (cbc_encrypt w iv bs) = bs.
Proof.
  induction bs as [|b bs IH]; intros iv; cbn; [reflexivity|].
  now rewrite InvCipher_Cipher, AddRoundKey_involutive, IH.
Qed.

Lemma cbc_encrypt_length w : forall bs iv,
  length (cbc_encrypt w iv bs) = length bs.
Proof. induction bs as [|b bs IH]; intros iv; cbn; auto. Qed.

Lemma to_blocks_length : forall n l, length (to_blocks n l) = n.
Proof. induction n as [|n IH]; intros l; cbn; auto. Qed.

Lemma of_blocks_length bs : length (of_blocks bs) = (16 * length bs)%nat.
Proof.
  induction bs as [|b bs IH]; [reflexivity|].
  cbn [of_blocks flat_map]. rewrite length_app, bytes_of_block_length.
  unfold of_blocks in IH. cbn [length]. lia.
Qed.

Lemma to_blocks_of_blocks : forall bs rest,
  to_blocks (length bs) (of_blocks bs ++ rest) = bs.
Proof.
  induction bs as [|b bs IH]; intros rest; [reflexivity|].
  cbn [length to_blocks of_blocks flat_map].
  rewrite <- app_assoc.
  rewrite firstn_app, bytes_of_block_length, Nat.sub_diag, firstn_O, app_nil_r.
  rewrite firstn_all2 by (rewrite bytes_of_block_length; lia).
  rewrite skipn_app, bytes_of_block_length, Nat.sub_diag, skipn_O.
  rewrite skipn_all2 by (rewrite bytes_of_block_length; lia).
  cbn [app]. rewrite block_of_bytes_of_block.
  f_equal. apply IH.
Qed.

Lemma of_blocks_to_blocks : forall n l,
  (16 * n <= length l)%nat -> Forall is_byte (firstn (16 * n) l) ->
  of_blocks (to_blocks n l) = firstn (16 * n) l.
Proof.
  induction n as [|n IH]; intros l Hlen Hb.
  - now rewrite Nat.mul_0_r, firstn_O.
  - cbn [to_blocks of_blocks flat_map].
    replace (16 * S n)%nat with (16 + 16 * n)%nat in * by lia.
    rewrite <- (firstn_skipn 16 l) in Hb at 1.
    rewrite firstn_app, length_firstn in Hb.
    replace (Nat.min 16 (length l)) with 16%nat in Hb by lia.
    replace (16 + 16 * n - 16)%nat with (16 * n)%nat in Hb by lia.
    rewrite firstn_firstn in Hb.
    replace (Nat.min (16 + 16 * n) 16) with 16%nat in Hb by lia.
    apply Forall_app in Hb as [Hb1 Hb2].
    rewrite bytes_of_block_of_bytes;
      [| rewrite length_firstn; lia | assumption].
    fold (of_blocks (to_blocks n (skipn 16 l))).
    rewrite IH; [| rewrite length_skipn; lia | assumption].
    rewrite <- (firstn_skipn 16 l) at 3.
    rewrite firstn_app, length_firstn.
    replace (Nat.min 16 (length l)) with 16%nat by lia.
    replace (16 + 16 * n - 16)%nat with (16 * n)%nat by lia.
    rewrite firstn_firstn.
    replace (Nat.min (16 + 16 * n) 16) with 16%nat by lia.
    reflexivity.
Qed.

(** The model of mbedtls satisfies the round trip the demo relies on. *)
Lemma mbedtls_decrypt_inverts_encrypt :
  Reference.decrypt_inverts_encrypt mbedtls_aes_crypt_cbc.
Proof.
  intros input key e0 d0 len Hlen Hmod Hfit Hbytes.
  unfold AesCrypto.decrypt, AesCrypto.encrypt, AesCrypto.store_bytes,
    mbedtls_aes_crypt_cbc.
  rewrite Hmod. cbn [Z.eqb].
  set (n := Z.to_nat (len / 16)).
  assert (Hn : Z.to_nat len = (16 * n)%nat).
  { subst n. dlia. }
  set (w := KeyExpansion (block_of_bytes key)).
  set (bs := to_blocks n input).
  set (cs := cbc_encrypt w (block_of_bytes AesCrypto.iv) bs).
  assert (Hcs : length cs = n).
  { subst cs bs. now rewrite cbc_encrypt_length, to_blocks_length. }
  assert (Hback : forall rest, to_blocks n (of_blocks cs ++ rest) = cs).
  { intros rest. rewrite <- Hcs. apply to_blocks_of_blocks. }
  rewrite Hback. subst cs. rewrite cbc_decrypt_encrypt.
  rewrite Hn in *. subst bs.
  rewrite of_blocks_to_blocks by assumption.
  rewrite firstn_app, firstn_firstn, Nat.min_id, length_firstn.
  replace (16 * n - Nat.min (16 * n) (length input))%nat with 0%nat by lia.
  now rewrite firstn_O, app_nil_r.
Qed.

End CBCFacts.

(** ** Padding *)

Module PaddingFacts.

Import AesCrypto.

(** [sizeof(charset) - 1] *)
Example charSet_size_value : charSet_size = 95.
Proof. reflexivity. Qed.

Lemma store_from_spec {A} (v : A) : forall n done mid rest,
  length mid = n ->
  store_from (length done) n v (done ++ mid ++ rest) = done ++ repeat v n ++ rest.
Proof.
  induction n as [|n IH]; intros done mid rest Hmid.
  - destruct mid; [reflexivity | discriminate].
  - destruct mid as [|x mid]; [discriminate|].
    injection Hmid as Hmid.
    cbn [store_from app repeat]. rewrite upd_app_here.
    replace (done ++ v :: mid ++ rest) with ((done ++ [v]) ++ mid ++ rest)
      by now rewrite <- app_assoc.
    replace (S (length done)) with (length (done ++ [v]))
      by (rewrite length_app; cbn; lia).
    rewrite IH by assumption. now rewrite <- app_assoc.
Qed.

(** Without overflow of [size_t], and with room in [output], the buffer
    holds the input, then the pad bytes, then what it held before. *)
Lemma applyPadding_spec (input output : list Z) :
  let inputLen := Z.of_nat (length input) in
  let paddedLen := (inputLen / 16 + 1) * 16 in
  paddedLen < 2 ^ 32 ->
  (Z.to_nat paddedLen <= length output)%nat ->
  applyPadding input inputLen output
  = (input ++ repeat (paddedLen - inputLen) (Z.to_nat (paddedLen - inputLen))
       ++ skipn (Z.to_nat paddedLen) output,
     paddedLen).
Proof.
  intros inputLen paddedLen Hfit Hroom.
  assert (Hpad : 1 <= paddedLen - inputLen <= 16) by (subst paddedLen; dlia).
  assert (Hlen : 0 <= inputLen) by (subst inputLen; lia).
  unfold applyPadding, BLOCK_SIZE, wrap_u32, wrap_u8, memcpy.
  fold paddedLen.
  rewrite (Z.mod_small paddedLen) by lia.
  rewrite (Z.mod_small (paddedLen - inputLen)) by lia.
  f_equal.
  subst inputLen. rewrite Nat2Z.id, firstn_all.
  set (k := Z.to_nat (paddedLen - Z.of_nat (length input))).
  rewrite <- (firstn_skipn k (skipn (length input) output)).
  rewrite store_from_spec.
  - rewrite skipn_skipn. do 3 f_equal. lia.
  - rewrite length_firstn, length_skipn. lia.
Qed.

Lemma nth_repeat_mid {A} (d v : A) (pre post : list A) (n i : nat) :
  (length pre <= i < length pre + n)%nat ->
  nth i (pre ++ repeat v n ++ post) d = v.
Proof.
  intros Hi.
  rewrite app_nth2 by lia. rewrite app_nth1 by (rewrite repeat_length; lia).
  apply nth_repeat_lt. lia.
Qed.

End PaddingFacts.

(** ** Printing numbers *)

Module PrintFacts.

Import Print Reference.
Local Open Scope string_scope.
Local Open Scope Z_scope.

Lemma string_forall_app P (a b : string) :
  string_forall P (a ++ b) = string_forall P a && string_forall P b.
Proof.
  induction a as [|c a IH]; cbn; [reflexivity|].
  now rewrite IH, andb_assoc.
Qed.

Lemma string_forall_impl (P Q : ascii -> bool) (s : string) :
  (forall c, P c = true -> Q c = true) ->
  string_forall P s = true -> string_forall Q s = true.
Proof.
  intros HPQ. induction s as [|c s IH]; cbn; [reflexivity|].
  rewrite !andb_true_iff. intros [Hc Hs]. auto.
Qed.

Lemma is_digit_printable c : is_digit c = true -> is_printable c = true.
Proof. unfold is_digit, is_printable. lia. Qed.

Lemma is_hex_digit_printable c : is_hex_digit c = true -> is_printable c = true.
Proof. unfold is_hex_digit, is_digit, is_printable. lia. Qed.

(** *** Hexadecimal bytes *)

Lemma hex_byte b :
  is_byte b ->
  (if b <? 16 then "0" else "") ++ print_byte b HEX = hex_pair b.
Proof.
  intros Hb. apply String.eqb_eq.
  apply (byte_cases (fun b =>
    String.eqb ((if b <? 16 then "0" else "") ++ print_byte b HEX) (hex_pair b)));
    [|assumption].
  vm_compute. reflexivity.
Qed.

Lemma hex_pair_digits b :
  is_byte b -> string_forall is_hex_digit (hex_pair b) = true.
Proof.
  apply (byte_cases (fun b => string_forall is_hex_digit (hex_pair b))).
  vm_compute. reflexivity.
Qed.

Lemma hex_string_length l : String.length (hex_string l) = (2 * length l)%nat.
Proof.
  induction l as [|b l IH]; [reflexivity|].
  cbn [hex_string fold_right length]. fold (hex_string l).
  rewrite string_app_length, IH. cbn. lia.
Qed.

Lemma hex_string_digits l :
  Forall is_byte l -> string_forall is_hex_digit (hex_string l) = true.
Proof.
  induction 1 as [|b l Hb Hl IH]; [reflexivity|].
  cbn [hex_string fold_right]. fold (hex_string l).
  now rewrite string_forall_app, hex_pair_digits, IH.
Qed.

(** *** Decimal numbers *)

Lemma digit_char_decimal c :
  0 <= c < 10 -> code (digit_char c) - 48 = c /\ is_digit (digit_char c) = true.
Proof.
  intros Hc.
  assert (H : (code (digit_char c) - 48 =? c) && is_digit (digit_char c) = true).
  { assert (Hcases : c = 0 \/ c = 1 \/ c = 2 \/ c = 3 \/ c = 4 \/ c = 5
                     \/ c = 6 \/ c = 7 \/ c = 8 \/ c = 9) by lia.
    repeat (destruct Hcases as [-> | Hcases]; [reflexivity|]).
    subst c. reflexivity. }
  apply andb_true_iff in H as [H1 H2]. split; [lia | assumption].
Qed.

Lemma printNumber_loop_value : forall fuel n str,
  0 <= n < 10 ^ Z.of_nat fuel ->
  digits_value (printNumber_loop fuel n 10 str)
  = n * 10 ^ Z.of_nat (String.length str) + digits_value str.
Proof.
  induction fuel as [|fuel IH]; intros n str Hn.
  - cbn in *. assert (n = 0) by lia. subst n. reflexivity.
  - rewrite Nat2Z.inj_succ, Z.pow_succ_r in Hn by lia.
    cbn [printNumber_loop].
    assert (Hc : 0 <= n mod 10 < 10) by dlia.
    destruct (digit_char_decimal _ Hc) as [Hval _].
    assert (Hstep : digits_value (String (digit_char (n mod 10)) str)
                    = n mod 10 * 10 ^ Z.of_nat (String.length str) + digits_value str).
    { cbn [digits_value]. now rewrite Hval. }
    destruct (n / 10 =? 0) eqn:Hq.
    + rewrite Hstep. apply Z.eqb_eq in Hq. f_equal. f_equal. dlia.
    + rewrite IH by dlia. rewrite Hstep.
      cbn [String.length]. rewrite Nat2Z.inj_succ, Z.pow_succ_r by lia.
      assert (Hdm : n = 10 * (n / 10) + n mod 10) by dlia.
      rewrite Hdm at 3. ring.
Qed.

Lemma printNumber_loop_digits : forall fuel n str,
  0 <= n -> string_forall is_digit str = true ->
  string_forall is_digit (printNumber_loop fuel n 10 str) = true.
Proof.
  induction fuel as [|fuel IH]; intros n str Hn Hstr; [assumption|].
  cbn [printNumber_loop].
  assert (Hc : 0 <= n mod 10 < 10) by dlia.
  destruct (digit_char_decimal _ Hc) as [_ Hdig].
  assert (Hstep : string_forall is_digit (String (digit_char (n mod 10)) str) = true).
  { cbn [string_forall]. now rewrite Hdig, Hstr. }
  destruct (n / 10 =? 0); [assumption|].
  apply IH; [dlia | assumption].
Qed.

Lemma printNumber_loop_cons : forall fuel n base c str,
  exists c' r, printNumber_loop fuel n base (String c str) = String c' r.
Proof.
  induction fuel as [|fuel IH]; intros n base c str; cbn [printNumber_loop]; eauto.
  destruct (n / base =? 0); eauto.
Qed.

Lemma printNumber_loop_nonempty : forall fuel n base str,
  exists c r, printNumber_loop (S fuel) n base str = String c r.
Proof.
  intros fuel n base str. cbn [printNumber_loop].
  destruct (n / base =? 0); eauto using printNumber_loop_cons.
Qed.

Lemma printNumber_decimal n :
  0 <= n < 2 ^ 32 ->
  exists c r, printNumber n DEC = String c r
              /\ is_digit c = true
              /\ string_forall is_digit r = true
              /\ digits_value (String c r) = n.
Proof.
  intros Hn.
  assert (Hval : digits_value (printNumber n DEC) = n).
  { unfold printNumber, DEC. cbn [Z.ltb Z.compare Pos.compare Pos.compare_cont].
    rewrite printNumber_loop_value; [cbn; lia|].
    change (10 ^ Z.of_nat 32) with 100000000000000000000000000000000. lia. }
  assert (Hdig : string_forall is_digit (printNumber n DEC) = true).
  { apply printNumber_loop_digits; [lia | reflexivity]. }
  assert (Hcons : exists c r, printNumber n DEC = String c r).
  { unfold printNumber. apply (printNumber_loop_nonempty 31). }
  destruct Hcons as (c & r & Heq). exists c, r.
  rewrite Heq in *. cbn [string_forall] in Hdig.
  apply andb_true_iff in Hdig as [Hc Hr]. auto.
Qed.

Lemma not_minus_of_digit c : is_digit c = true -> Ascii.eqb c "-" = false.
Proof.
  intros Hd. destruct (Ascii.eqb c "-") eqn:He; [|reflexivity].
  apply Ascii.eqb_eq in He. subst c. discriminate.
Qed.

(** [print(long)] writes the decimal numeral of its argument. *)
Lemma print_long_decimal n :
  - 2 ^ 31 <= n < 2 ^ 31 ->
  is_decimal (print_long n) = true /\ decimal_value (print_long n) = n.
Proof.
  intros Hn. unfold print_long.
  destruct (n <? 0) eqn:Hneg.
  - apply Z.ltb_lt in Hneg.
    unfold wrap_u32. rewrite Z.mod_small by lia.
    destruct (printNumber_decimal (- n)) as (c & r & Heq & Hc & Hr & Hval); [lia|].
    rewrite Heq. cbn [is_decimal decimal_value Ascii.eqb Bool.eqb].
    split; [cbn [string_forall]; now rewrite Hc, Hr | lia].
  - apply Z.ltb_ge in Hneg.
    destruct (printNumber_decimal n) as (c & r & Heq & Hc & Hr & Hval); [lia|].
    rewrite Heq. unfold is_decimal, decimal_value.
    rewrite (not_minus_of_digit c Hc).
    split; [cbn [string_forall]; now rewrite Hc, Hr | assumption].
Qed.

Lemma print_long_printable n :
  - 2 ^ 31 <= n < 2 ^ 31 -> string_forall is_printable (print_long n) = true.
Proof.
  intros Hn. destruct (print_long_decimal n Hn) as [Hdec _].
  unfold is_decimal in Hdec.
  destruct (print_long n) as [|c r]; [discriminate|].
  destruct (Ascii.eqb c "-") eqn:He.
  - apply Ascii.eqb_eq in He. subst c. cbn [string_forall].
    rewrite (string_forall_impl _ _ _ is_digit_printable Hdec). reflexivity.
  - apply (string_forall_impl _ _ _ is_digit_printable Hdec).
Qed.

End PrintFacts.

(** ** The serial report *)

Module ReportFacts.

Import Print Reference Firmware PrintFacts.
Local Open Scope string_scope.
Local Open Scope Z_scope.

Lemma Serial_print_fuse a b h :
  Serial_print b (Serial_print a h) = Serial_print (a ++ b) h.
Proof.
  unfold Serial_print, with_serial. cbn. now rewrite string_app_assoc.
Qed.

(** One turn of the loop of [sendToPC] writes two hexadecimal digits. *)
Lemma Serial_print_hex b h :
  is_byte b ->
  Serial_print (print_byte b HEX) (if b <? 16 then Serial_print "0" h else h)
  = Serial_print (hex_pair b) h.
Proof.
  intros Hb. rewrite <- (hex_byte b Hb).
  destruct (b <? 16); [apply Serial_print_fuse | reflexivity].
Qed.

Lemma Serial_print_empty h : Serial_print "" h = h.
Proof.
  destruct h. unfold Serial_print, with_serial. cbn.
  now rewrite string_app_nil_r.
Qed.

(** A loop that only prints, prints the texts of its turns in order. *)
Lemma for_range_print (f : nat -> string) (body : nat -> Hw -> Hw) :
  (forall i h, body i h = Serial_print (f i) h) ->
  forall n from h,
    for_range from n body h = Serial_print (text_range from n f) h.
Proof.
  intros Hbody. induction n as [|n IH]; intros from h; cbn [for_range text_range].
  - now rewrite Serial_print_empty.
  - now rewrite IH, Hbody, Serial_print_fuse.
Qed.

Lemma text_range_nth (g : Z -> string) : forall l pre,
  text_range (length pre) (length l) (fun i => g (nth i (pre ++ l) 0))
  = fold_right (fun b s => g b ++ s) "" l.
Proof.
  induction l as [|b l IH]; intros pre; [reflexivity|].
  cbn [length text_range fold_right].
  rewrite app_nth2, Nat.sub_diag by lia. cbn [nth].
  f_equal.
  specialize (IH (pre ++ [b])%list).
  rewrite length_app, <- app_assoc in IH. cbn [length app] in IH.
  rewrite Nat.add_1_r in IH. exact IH.
Qed.

Lemma nth_is_byte (l : list Z) i : Forall is_byte l -> is_byte (nth i l 0).
Proof.
  intros Hl. revert i. induction Hl as [|b l Hb Hl IH]; intros [|i]; cbn;
    try (unfold is_byte; lia); auto.
Qed.

Lemma sendToPC_spec s key :
  length key = 16%nat -> Forall is_byte key ->
  sendToPC key s
  = with_hw
      (Serial_print
         (("LEN:" ++ print_long (passwordLength s) ++ ",COMPLEX:"
           ++ print_long (complexityLevel s) ++ ",KEY:" ++ hex_string key)
          ++ newline)
         (hw s)) s.
Proof.
  intros Hlen Hbytes.
  unfold sendToPC.
  rewrite (for_range_print (fun i => hex_pair (nth i key 0)))
    by (intros i h; apply Serial_print_hex, nth_is_byte, Hbytes).
  pose proof (text_range_nth hex_pair key []) as Htext.
  cbn [length app] in Htext. rewrite Hlen in Htext. rewrite Htext.
  fold (hex_string key).
  generalize (hex_string key), (print_long (passwordLength s)),
    (print_long (complexityLevel s)), (hw s).
  intros keyText lenText levelText h.
  rewrite !Serial_print_fuse.
  now rewrite !string_app_assoc.
Qed.

End ReportFacts.

(** ** Entropy sampling and key assembly *)

Module SamplerFacts.

Import Reference Firmware.
Local Open Scope Z_scope.

Lemma gateTime_formula m :
  motion_int16 m ->
  gateTime m
  = (Z.abs (ax m) + Z.abs (ay m) + Z.abs (az m)
     + Z.abs (gx m) + Z.abs (gy m) + Z.abs (gz m)) mod 100 + 10.
Proof.
  unfold motion_int16, is_int16. intros Hm.
  unfold gateTime, motionEnergy, wrap_s32, wrap_u32.
  set (e := Z.abs (ax m) + Z.abs (ay m) + Z.abs (az m)
            + Z.abs (gx m) + Z.abs (gy m) + Z.abs (gz m)).
  assert (He : 0 <= e <= 6 * 32768) by (subst e; lia).
  replace ((e + 2 ^ 31) mod 2 ^ 32 - 2 ^ 31) with e by dlia.
  rewrite Z.rem_mod_nonneg by lia.
  apply Z.mod_small. dlia.
Qed.

Lemma gateTime_bounds m : motion_int16 m -> 10 <= gateTime m <= 109.
Proof. intros Hm. rewrite gateTime_formula by assumption. dlia. Qed.

Lemma still_int16 : motion_int16 still.
Proof. unfold motion_int16, is_int16. cbn. lia. Qed.

Lemma getMotion6_fst h : fst (getMotion6 h) = hd still (motion h).
Proof. unfold getMotion6. cbn. destruct (motion h); reflexivity. Qed.

(** The reading is the next of the recorded ones, and the call has taken
    the next of the recorded times. *)
Lemma getMotion6_snd h :
  micros (snd (getMotion6 h)) = micros h + Z.of_N (hd 0%N (sensor_us h))
  /\ motion (snd (getMotion6 h)) = tl (motion h)
  /\ sensor_us (snd (getMotion6 h)) = tl (sensor_us h)
  /\ trace (snd (getMotion6 h)) = trace h
  /\ serial (snd (getMotion6 h)) = serial h
  /\ counter (snd (getMotion6 h)) = counter h.
Proof.
  unfold getMotion6. cbn.
  destruct (motion h) as [|m r] eqn:Hm; cbn; rewrite ?Hm;
    repeat split; reflexivity.
Qed.

Lemma getMotion6_int16 h :
  Forall motion_int16 (motion h) ->
  motion_int16 (fst (getMotion6 h))
  /\ Forall motion_int16 (motion (snd (getMotion6 h))).
Proof.
  intros Hall. rewrite getMotion6_fst.
  destruct (getMotion6_snd h) as (_ & -> & _).
  destruct Hall; cbn; auto using still_int16.
Qed.

Lemma sensor_prompt_tl h h' :
  sensor_us h' = tl (sensor_us h) -> sensor_prompt h -> sensor_prompt h'.
Proof.
  unfold sensor_prompt. intros ->. destruct 1; cbn; auto.
Qed.

Lemma sensor_prompt_hd h :
  sensor_prompt h -> 0 <= Z.of_N (hd 0%N (sensor_us h)) < 2 ^ 32.
Proof.
  unfold sensor_prompt. destruct 1 as [|us r Hus _]; cbn; lia.
Qed.

(** One turn of the acquisition loop, part by part. *)
Lemma gate_pulse_spec h :
  gate_pulse h
  = delayMicroseconds 10
      (digitalWrite GATE_CONTROL_PIN false
         (delayMicroseconds (gateTime (fst (getMotion6 h)))
            (digitalWrite GATE_CONTROL_PIN true (snd (getMotion6 h))))).
Proof. unfold gate_pulse. destruct (getMotion6 h). reflexivity. Qed.

(** What one turn of the acquisition loop does to the pins. *)
Lemma gate_pulse_trace h :
  trace (gate_pulse h)
  = DelayMicroseconds 10
    :: DigitalWrite GATE_CONTROL_PIN false
    :: DelayMicroseconds (gateTime (fst (getMotion6 h)))
    :: DigitalWrite GATE_CONTROL_PIN true
    :: trace h.
Proof.
  rewrite gate_pulse_spec. destruct (getMotion6_snd h) as (_ & _ & _ & Ht & _).
  cbn. now rewrite Ht.
Qed.

(** A turn lasts as long as the sensor read, the gate time and the
    closing wait together. *)
Lemma gate_pulse_micros h :
  micros (gate_pulse h)
  = micros h + Z.of_N (hd 0%N (sensor_us h)) + gateTime (fst (getMotion6 h)) + 10.
Proof.
  rewrite gate_pulse_spec. destruct (getMotion6_snd h) as (Hm & _).
  cbn. now rewrite Hm.
Qed.

Lemma gate_pulse_motion h : motion (gate_pulse h) = motion (snd (getMotion6 h)).
Proof. rewrite gate_pulse_spec. reflexivity. Qed.

Lemma gate_pulse_sensor h : sensor_us (gate_pulse h) = tl (sensor_us h).
Proof.
  rewrite gate_pulse_spec. destruct (getMotion6_snd h) as (_ & _ & Hs & _).
  cbn. exact Hs.
Qed.

(** The acquisition loop is left because its 200 ms have gone by, not
    because the model ran out of turns. *)
Lemma gate_loop_closes t0 : forall fuel h,
  Forall motion_int16 (motion h) ->
  sensor_prompt h ->
  0 <= micros h - t0 <= 201118 + 2 ^ 32 ->
  201000 <= micros h - t0 + 20 * Z.of_nat fuel ->
  let h' := gate_loop fuel (wrap_u32 (t0 / 1000)) h in
  (wrap_u32 (hw_millis h' - wrap_u32 (t0 / 1000)) <? 200) = false
  /\ 0 <= micros h' - t0 <= 201118 + 2 ^ 32.
Proof.
  assert (Hdiff : forall t, 0 <= t - t0 <= 201118 + 2 ^ 32 ->
            wrap_u32 (wrap_u32 (t / 1000) - wrap_u32 (t0 / 1000))
            = t / 1000 - t0 / 1000).
  { intros t Ht. unfold wrap_u32.
    rewrite <- Zminus_mod. apply Z.mod_small. dlia. }
  induction fuel as [|fuel IH]; intros h Hmotion Hprompt Hrange Hfuel;
    cbv zeta in *.
  - cbn [gate_loop]. split; [|assumption].
    unfold hw_millis. rewrite Hdiff by assumption.
    apply Z.ltb_ge. dlia.
  - cbn [gate_loop].
    assert (Hnow : wrap_u32 (hw_millis h - wrap_u32 (t0 / 1000))
                   = micros h / 1000 - t0 / 1000)
      by (unfold hw_millis; now apply Hdiff).
    rewrite Hnow.
    destruct (micros h / 1000 - t0 / 1000 <? 200) eqn:Hcond.
    + apply Z.ltb_lt in Hcond.
      destruct (getMotion6_int16 h Hmotion) as (Hm & Hrest).
      pose proof (gateTime_bounds _ Hm) as Hgate.
      pose proof (sensor_prompt_hd h Hprompt) as Htook.
      apply IH.
      * now rewrite gate_pulse_motion.
      * apply (sensor_prompt_tl h); [apply gate_pulse_sensor | assumption].
      * rewrite gate_pulse_micros. dlia.
      * rewrite gate_pulse_micros. lia.
    + split; [|assumption]. now rewrite Hnow.
Qed.

(** In [generateRandomByte] the loop starts 10 microseconds after the
    reset pulse and [acquisition_turns] turns are enough for it. *)
Lemma acquisition_window_closes h :
  Forall motion_int16 (motion h) ->
  sensor_prompt h ->
  let h0 :=
    digitalWrite COUNTER_RESET_PIN false
      (delayMicroseconds 10 (digitalWrite COUNTER_RESET_PIN true h)) in
  let startTime := hw_millis h0 in
  (wrap_u32 (hw_millis (gate_loop acquisition_turns startTime h0) - startTime)
   <? 200) = false.
Proof.
  intros Hmotion Hprompt h0 startTime.
  apply (gate_loop_closes (micros h0) acquisition_turns h0).
  - exact Hmotion.
  - exact Hprompt.
  - lia.
  - unfold acquisition_turns. lia.
Qed.

Lemma sample_n_length {W} (sampler : W -> Z * W) : forall n w,
  length (fst (sample_n n sampler w)) = n.
Proof.
  induction n as [|n IH]; intros w; cbn [sample_n]; [reflexivity|].
  destruct (sampler w) as [b w1]. specialize (IH w1).
  destruct (sample_n n sampler w1). cbn in *. now rewrite IH.
Qed.

(** The value at offset [i] is what the sampler returned on its call
    number [i], made in the state left by the [i] calls before. *)
Lemma sample_n_nth {W} (sampler : W -> Z * W) : forall n i w,
  (i < n)%nat ->
  nth i (fst (sample_n n sampler w)) 0
  = fst (sampler (snd (sample_n i sampler w))).
Proof.
  induction n as [|n IH]; intros i w Hi; [lia|].
  destruct i as [|i]; cbn [sample_n fst snd].
  - destruct (sampler w) as [b w1]. destruct (sample_n n sampler w1). reflexivity.
  - destruct (sampler w) as [b w1].
    specialize (IH i w1 ltac:(lia)).
    destruct (sample_n n sampler w1), (sample_n i sampler w1). exact IH.
Qed.

Lemma sample_n_counting {W} (sampler : W -> Z * W) : forall n w c,
  sample_n n (counting sampler) (w, c)
  = (fst (sample_n n sampler w), (snd (sample_n n sampler w), (c + n)%nat)).
Proof.
  induction n as [|n IH]; intros w c; cbn [sample_n].
  - now rewrite Nat.add_0_r.
  - unfold counting at 1. cbn [fst snd].
    destruct (sampler w) as [b w1]. rewrite IH.
    destruct (sample_n n sampler w1). cbn [fst snd].
    now rewrite Nat.add_succ_r.
Qed.

(** The loop of the key assembly, started at any offset. *)
Lemma fill_loop_spec {W} (sampler : W -> Z * W) : forall n done mid rest w,
  length mid = n ->
  for_range (length done) n
    (fun i '(key, w) => let (b, w) := sampler w in (upd i b key, w))
    (done ++ mid ++ rest, w)
  = (done ++ fst (sample_n n sampler w) ++ rest, snd (sample_n n sampler w)).
Proof.
  induction n as [|n IH]; intros done mid rest w Hmid.
  - destruct mid; [reflexivity | discriminate].
  - destruct mid as [|x mid]; [discriminate|]. injection Hmid as Hmid.
    cbn [for_range sample_n app].
    destruct (sampler w) as [b w1]. rewrite upd_app_here.
    replace (done ++ b :: mid ++ rest) with ((done ++ [b]) ++ mid ++ rest)
      by now rewrite <- app_assoc.
    replace (S (length done)) with (length (done ++ [b]))
      by (rewrite length_app; cbn; lia).
    rewrite IH by assumption.
    destruct (sample_n n sampler w1). cbn [fst snd].
    now rewrite <- app_assoc.
Qed.

Lemma fillGeneratedKey_spec {W} (sampler : W -> Z * W) key w :
  length key = 16%nat ->
  fillGeneratedKey sampler key w = sample_n 16 sampler w.
Proof.
  intros Hkey. unfold fillGeneratedKey.
  pose proof (fill_loop_spec sampler 16 [] key [] w Hkey) as H.
  cbn [length app] in H. rewrite !app_nil_r in H. rewrite H.
  now destruct (sample_n 16 sampler w).
Qed.

Lemma readCounter_byte h : is_byte (fst (readCounter h)).
Proof.
  unfold readCounter. cbn [fst for_range nth counterPins].
  generalize (hd (fun _ : Z => false) (counter h)). intros pins.
  destruct (pins 4), (pins 5), (pins 15), (pins 16),
    (pins 17), (pins 18), (pins 19), (pins 23);
    vm_compute; intuition congruence.
Qed.

Lemma generateRandomByte_byte h : is_byte (fst (generateRandomByte h)).
Proof. unfold generateRandomByte. apply readCounter_byte. Qed.

Lemma sample_n_bytes {W} (sampler : W -> Z * W) :
  (forall w, is_byte (fst (sampler w))) ->
  forall n w, Forall is_byte (fst (sample_n n sampler w)).
Proof.
  intros Hb. induction n as [|n IH]; intros w; cbn [sample_n].
  - constructor.
  - pose proof (Hb w) as Hw. destruct (sampler w) as [b w1].
    specialize (IH w1). destruct (sample_n n sampler w1).
    constructor; assumption.
Qed.

End SamplerFacts.

(** ** Menu and editors *)

Module MenuFacts.

Import Reference Firmware.
Local Open Scope Z_scope.

Lemma wrap_s32_small z : - 2 ^ 31 <= z < 2 ^ 31 -> wrap_s32 z = z.
Proof. unfold wrap_s32. intros Hz. dlia. Qed.

Lemma globals_tick p s : globals (tick p s) = globals s.
Proof. reflexivity. Qed.

Lemma globals_delay ms s : globals (delay ms s) = globals s.
Proof. reflexivity. Qed.

(** *** Debounce: a poll that comes too early changes nothing *)

Lemma handleInput_debounced p polls s :
  sinceLastDebounce (tick p s) < debounceDelay ->
  handleInput p polls s = Done (tick p s) polls.
Proof.
  intros Hearly. unfold handleInput.
  apply Z.ltb_lt in Hearly. now rewrite Hearly.
Qed.

Lemma chooseLength_turn_debounced p s :
  sinceLastDebounce (tick p s) <= debounceDelay ->
  chooseLength_turn p s = (tick p s, true).
Proof.
  intros Hearly. unfold chooseLength_turn.
  apply Z.ltb_ge in Hearly. now rewrite Hearly.
Qed.

Lemma chooseComplexity_turn_debounced p t s :
  sinceLastDebounce (tick p s) <= debounceDelay ->
  chooseComplexity_turn p t s = (t, tick p s, true).
Proof.
  intros Hearly. unfold chooseComplexity_turn.
  apply Z.ltb_ge in Hearly. now rewrite Hearly.
Qed.

(** *** The length editor *)

Ltac split_ifs :=
  repeat match goal with
         | |- context [if ?b then _ else _] => destruct b eqn:?
         end.

Ltac to_prop :=
  repeat match goal with
         | H : (_ <? _) = true |- _ => apply Z.ltb_lt in H
         | H : (_ <? _) = false |- _ => apply Z.ltb_ge in H
         | H : (_ <=? _) = true |- _ => apply Z.leb_le in H
         | H : (_ <=? _) = false |- _ => apply Z.leb_gt in H
         end.

Lemma chooseLength_turn_length p s :
  length_ok s -> length_ok (fst (chooseLength_turn p s)).
Proof.
  unfold length_ok, chooseLength_turn. intros Hs.
  destruct (debounceDelay <? sinceLastDebounce (tick p s)); [|assumption].
  destruct (upPressed p), (downPressed p), (selectPressed p);
    cbn -[wrap_s32 Z.ltb]; split_ifs; cbn -[wrap_s32 Z.ltb] in *; to_prop;
    unfold wrap_s32 in *; dlia.
Qed.

Lemma chooseLength_turn_up p s :
  length_ok s -> editor_accepts p s ->
  upPressed p = true -> downPressed p = false ->
  passwordLength (fst (chooseLength_turn p s)) = Z.min 64 (passwordLength s + 1).
Proof.
  unfold length_ok, editor_accepts, chooseLength_turn. intros Hs Hopen Hup Hdown.
  apply Z.ltb_lt in Hopen. rewrite Hopen, Hup, Hdown.
  destruct (selectPressed p);
    cbn -[wrap_s32 Z.ltb]; rewrite wrap_s32_small by lia;
    split_ifs; cbn -[wrap_s32 Z.ltb] in *; to_prop; lia.
Qed.

Lemma chooseLength_turn_down p s :
  length_ok s -> editor_accepts p s ->
  upPressed p = false -> downPressed p = true ->
  passwordLength (fst (chooseLength_turn p s)) = Z.max 8 (passwordLength s - 1).
Proof.
  unfold length_ok, editor_accepts, chooseLength_turn. intros Hs Hopen Hup Hdown.
  apply Z.ltb_lt in Hopen. rewrite Hopen, Hup, Hdown.
  destruct (selectPressed p);
    cbn -[wrap_s32 Z.ltb]; rewrite wrap_s32_small by lia;
    split_ifs; cbn -[wrap_s32 Z.ltb] in *; to_prop; lia.
Qed.

Lemma chooseLength_loop_length : forall polls s,
  length_ok s -> length_ok (state_of (chooseLength_loop polls s)).
Proof.
  induction polls as [|p polls IH]; intros s Hs; cbn [chooseLength_loop state_of].
  - assumption.
  - pose proof (chooseLength_turn_length p s Hs) as Hturn.
    destruct (chooseLength_turn p s) as [s' setting]. cbn [fst] in Hturn.
    destruct setting; [now apply IH | assumption].
Qed.

Lemma chooseLength_length polls s :
  length_ok s -> length_ok (state_of (chooseLength polls s)).
Proof.
  intros Hs. unfold chooseLength.
  pose proof (chooseLength_loop_length polls s Hs) as Hloop.
  destruct (chooseLength_loop polls s); assumption.
Qed.

(** *** The complexity editor *)

Lemma level_ok_enum v :
  level_ok v <-> exists c : Complexity, v = Complexity_value c.
Proof.
  unfold level_ok. split.
  - intros Hv.
    assert (Hcases : v = 0 \/ v = 1 \/ v = 2 \/ v = 3 \/ v = 4 \/ v = 5) by lia.
    destruct Hcases as [-> | [-> | [-> | [-> | [-> | ->]]]]];
      [exists NUMBERS_ONLY | exists LOWERCASE_ONLY | exists UPPERCASE_ONLY
      | exists LOWER_UPPER | exists LOWER_UPPER_NUM | exists ALL_CHARS];
      reflexivity.
  - intros [c ->]. destruct c; cbn; lia.
Qed.

Lemma chooseComplexity_turn_level p t s :
  level_ok t -> level_ok (complexityLevel s) ->
  let '(t', s', _) := chooseComplexity_turn p t s in
  level_ok t' /\ level_ok (complexityLevel s').
Proof.
  unfold level_ok, chooseComplexity_turn. intros Ht Hs.
  destruct (debounceDelay <? sinceLastDebounce (tick p s)); [|now split].
  change numComplexityLevels with 6.
  destruct (upPressed p), (downPressed p), (selectPressed p);
    cbn -[wrap_s32 Z.ltb Z.leb]; split_ifs; cbn -[wrap_s32 Z.ltb Z.leb] in *;
    to_prop; unfold wrap_s32 in *; dlia.
Qed.

Lemma chooseComplexity_turn_down p t s :
  level_ok t -> editor_accepts p s ->
  upPressed p = false -> downPressed p = true ->
  fst (fst (chooseComplexity_turn p t s)) = (t + 1) mod 6.
Proof.
  unfold level_ok, editor_accepts, chooseComplexity_turn. intros Ht Hopen Hup Hdown.
  apply Z.ltb_lt in Hopen. rewrite Hopen, Hup, Hdown.
  change numComplexityLevels with 6.
  rewrite wrap_s32_small by lia.
  destruct (selectPressed p); cbn -[Z.leb Z.modulo];
    split_ifs; to_prop; dlia.
Qed.

Lemma chooseComplexity_turn_up p t s :
  level_ok t -> editor_accepts p s ->
  upPressed p = true -> downPressed p = false ->
  fst (fst (chooseComplexity_turn p t s)) = (t - 1) mod 6.
Proof.
  unfold level_ok, editor_accepts, chooseComplexity_turn. intros Ht Hopen Hup Hdown.
  apply Z.ltb_lt in Hopen. rewrite Hopen, Hup, Hdown.
  change numComplexityLevels with 6.
  rewrite wrap_s32_small by lia.
  destruct (selectPressed p); cbn -[Z.ltb Z.modulo];
    split_ifs; to_prop; dlia.
Qed.

(** Select stores the index shown, and leaves the editor. *)
Lemma chooseComplexity_turn_select p t s :
  editor_accepts p s ->
  upPressed p = false -> downPressed p = false -> selectPressed p = true ->
  let '(_, s', setting) := chooseComplexity_turn p t s in
  complexityLevel s' = t /\ setting = false.
Proof.
  unfold editor_accepts, chooseComplexity_turn. intros Hopen Hup Hdown Hsel.
  apply Z.ltb_lt in Hopen. rewrite Hopen, Hup, Hdown, Hsel. now split.
Qed.

Lemma chooseComplexity_loop_level : forall polls t s,
  level_ok t -> level_ok (complexityLevel s) ->
  level_ok (complexityLevel (state_of (chooseComplexity_loop polls t s))).
Proof.
  induction polls as [|p polls IH]; intros t s Ht Hs;
    cbn [chooseComplexity_loop state_of].
  - assumption.
  - pose proof (chooseComplexity_turn_level p t s Ht Hs) as Hturn.
    destruct (chooseComplexity_turn p t s) as [[t' s'] setting].
    destruct Hturn as [Ht' Hs'].
    destruct setting; [now apply IH | assumption].
Qed.

Lemma chooseComplexity_level polls s :
  level_ok (complexityLevel s) ->
  level_ok (complexityLevel (state_of (chooseComplexity polls s))).
Proof.
  intros Hs. unfold chooseComplexity.
  pose proof (chooseComplexity_loop_level polls _ s Hs Hs) as Hloop.
  destruct (chooseComplexity_loop polls (complexityLevel s) s); assumption.
Qed.

End MenuFacts.

(** ** The settings over a whole run *)

Module RunFacts.

Import Reference Firmware MenuFacts.
Local Open Scope Z_scope.

Lemma bind_preserves (P : State -> Prop) r k :
  P (state_of r) ->
  (forall s rest, P s -> P (state_of (k s rest))) ->
  P (state_of (bind r k)).
Proof. destruct r; cbn; auto. Qed.

Lemma settings_ok_ext s s' :
  passwordLength s' = passwordLength s ->
  complexityLevel s' = complexityLevel s ->
  settings_ok s -> settings_ok s'.
Proof. unfold settings_ok, length_ok. now intros -> ->. Qed.

Lemma runPasswordGeneration_settings s :
  passwordLength (runPasswordGeneration s) = passwordLength s
  /\ complexityLevel (runPasswordGeneration s) = complexityLevel s.
Proof.
  unfold runPasswordGeneration.
  destruct (fillGeneratedKey generateRandomByte (generatedKey s) (hw s)).
  split; reflexivity.
Qed.

Lemma chooseLength_turn_level p s :
  complexityLevel (fst (chooseLength_turn p s)) = complexityLevel s.
Proof.
  unfold chooseLength_turn.
  destruct (debounceDelay <? sinceLastDebounce (tick p s)); [|reflexivity].
  destruct (upPressed p), (downPressed p), (selectPressed p);
    cbn -[wrap_s32 Z.ltb]; split_ifs; reflexivity.
Qed.

Lemma chooseLength_settings polls s :
  settings_ok s -> settings_ok (state_of (chooseLength polls s)).
Proof.
  intros Hs. unfold chooseLength. apply bind_preserves; [|auto].
  revert s Hs. induction polls as [|p polls IH]; intros s Hs;
    cbn [chooseLength_loop state_of]; [assumption|].
  assert (Hturn : settings_ok (fst (chooseLength_turn p s))).
  { destruct Hs as [Hlen Hlevel]. split.
    - now apply chooseLength_turn_length.
    - now rewrite chooseLength_turn_level. }
  destruct (chooseLength_turn p s) as [s' setting].
  destruct setting; [now apply IH | assumption].
Qed.

Lemma chooseComplexity_turn_length p t s :
  passwordLength (snd (fst (chooseComplexity_turn p t s))) = passwordLength s.
Proof.
  unfold chooseComplexity_turn.
  destruct (debounceDelay <? sinceLastDebounce (tick p s)); [|reflexivity].
  destruct (upPressed p), (downPressed p), (selectPressed p); reflexivity.
Qed.

Lemma chooseComplexity_loop_settings : forall polls t s,
  level_ok t -> settings_ok s ->
  settings_ok (state_of (chooseComplexity_loop polls t s)).
Proof.
  induction polls as [|p polls IH]; intros t s Ht Hs;
    cbn [chooseComplexity_loop state_of]; [assumption|].
  destruct Hs as [Hlen Hlevel].
  pose proof (chooseComplexity_turn_level p t s Ht Hlevel) as Hturn.
  pose proof (chooseComplexity_turn_length p t s) as Hkeep.
  destruct (chooseComplexity_turn p t s) as [[t' s'] setting].
  cbn [fst snd] in Hkeep. destruct Hturn as [Ht' Hs'].
  assert (Hok : settings_ok s').
  { split; [|assumption]. unfold length_ok. now rewrite Hkeep. }
  destruct setting; [now apply IH | assumption].
Qed.

Lemma chooseComplexity_settings polls s :
  settings_ok s -> settings_ok (state_of (chooseComplexity polls s)).
Proof.
  intros Hs. unfold chooseComplexity. apply bind_preserves; [|auto].
  apply chooseComplexity_loop_settings; [apply Hs | assumption].
Qed.

Lemma displayAbout_settings polls s :
  settings_ok s -> settings_ok (state_of (displayAbout polls s)).
Proof.
  intros Hs. unfold displayAbout. apply bind_preserves; [|auto].
  generalize 1, false. intros a shown.
  revert a shown s Hs.
  induction polls as [|p polls IH]; intros a shown s Hs;
    cbn [displayAbout_loop state_of]; [assumption|].
  destruct shown.
  - destruct (selectPressed p); apply IH; assumption.
  - destruct (debounceDelay <? sinceLastDebounce (tick p s)); [|now apply IH].
    destruct (upPressed p), (downPressed p), (selectPressed p);
      cbn -[wrap_s32 Z.ltb Z.leb Z.eqb]; split_ifs;
      cbn [state_of]; try apply IH; assumption.
Qed.

Lemma performAction_settings polls s :
  settings_ok s -> settings_ok (state_of (performAction polls s)).
Proof.
  intros Hs. unfold performAction.
  destruct (selector s =? 0).
  { cbn [state_of]. destruct (runPasswordGeneration_settings s) as [Hl Hc].
    now apply (settings_ok_ext s). }
  destruct (selector s =? 1); [now apply chooseLength_settings|].
  destruct (selector s =? 2); [now apply chooseComplexity_settings|].
  destruct (selector s =? 3); [now apply displayAbout_settings|].
  assumption.
Qed.

Lemma handleInput_settings p polls s :
  settings_ok s -> settings_ok (state_of (handleInput p polls s)).
Proof.
  intros Hs. unfold handleInput.
  destruct (sinceLastDebounce (tick p s) <? debounceDelay); [assumption|].
  set (s1 := if upPressed p then _ else tick p s).
  set (s2 := if downPressed p then _ else s1).
  set (s3 := if selector s2 <? top_line_index s2 then _ else s2).
  set (s4 := if top_line_index s3 + 3 <=? selector s3 then _ else s3).
  assert (H4 : settings_ok s4).
  { apply (settings_ok_ext s); [| |assumption];
      subst s4 s3 s2 s1; split_ifs; reflexivity. }
  clearbody s4. apply bind_preserves.
  - destruct (selectPressed p); [now apply performAction_settings | assumption].
  - intros s' rest Hs'. destruct (_ || _); assumption.
Qed.

(** Whatever the buttons do, the stored length stays within 8..64 and
    the stored complexity within the six levels. *)
Lemma run_settings : forall n polls s,
  settings_ok s -> settings_ok (state_of (loop_n n polls s)).
Proof.
  induction n as [|n IH]; intros polls s Hs; cbn [loop_n state_of];
    [destruct polls; assumption|].
  destruct polls as [|p rest]; [assumption|].
  apply bind_preserves; [now apply handleInput_settings|].
  intros s' rest' Hs'. now apply IH.
Qed.

Lemma boot_settings h : settings_ok (boot h).
Proof. unfold settings_ok, length_ok, level_ok. cbn. lia. Qed.

(** *** The recorded polls are used up *)

Lemma bind_leaves r k polls :
  leaves_no_more r polls ->
  (forall s rest, (length rest <= length polls)%nat ->
                  leaves_no_more (k s rest) polls) ->
  leaves_no_more (bind r k) polls.
Proof. destruct r; cbn; auto. Qed.

Lemma leaves_no_more_weaken r polls polls' :
  (length polls <= length polls')%nat ->
  leaves_no_more r polls -> leaves_no_more r polls'.
Proof. destruct r; cbn; [lia | auto]. Qed.

Lemma chooseLength_leaves : forall polls s,
  leaves_no_more (chooseLength polls s) polls.
Proof.
  intros polls s. unfold chooseLength. apply bind_leaves; [|now cbn].
  revert s. induction polls as [|p polls IH]; intros s;
    cbn [chooseLength_loop leaves_no_more]; [exact I|].
  destruct (chooseLength_turn p s) as [s' setting].
  destruct setting.
  - apply (leaves_no_more_weaken _ polls); [cbn; lia | apply IH].
  - cbn. lia.
Qed.

Lemma chooseComplexity_leaves : forall polls s,
  leaves_no_more (chooseComplexity polls s) polls.
Proof.
  intros polls s. unfold chooseComplexity. apply bind_leaves; [|now cbn].
  generalize (complexityLevel s). intros t.
  revert t s. induction polls as [|p polls IH]; intros t s;
    cbn [chooseComplexity_loop leaves_no_more]; [exact I|].
  destruct (chooseComplexity_turn p t s) as [[t' s'] setting].
  destruct setting.
  - apply (leaves_no_more_weaken _ polls); [cbn; lia | apply IH].
  - cbn. lia.
Qed.

Lemma displayAbout_leaves : forall polls s,
  leaves_no_more (displayAbout polls s) polls.
Proof.
  intros polls s. unfold displayAbout. apply bind_leaves; [|now cbn].
  generalize 1, false. intros a shown.
  revert a shown s. induction polls as [|p polls IH]; intros a shown s;
    cbn [displayAbout_loop leaves_no_more]; [exact I|].
  assert (Hnext : forall a shown s,
            leaves_no_more (displayAbout_loop polls shown a s) (p :: polls)).
  { intros a' shown' s'.
    apply (leaves_no_more_weaken _ polls); [cbn; lia | apply IH]. }
  destruct shown.
  - destruct (selectPressed p); apply Hnext.
  - destruct (debounceDelay <? sinceLastDebounce (tick p s)); [|apply Hnext].
    destruct (upPressed p), (downPressed p), (selectPressed p);
      cbn -[wrap_s32 Z.ltb Z.leb Z.eqb]; split_ifs;
      try apply Hnext; cbn; lia.
Qed.

Lemma performAction_leaves polls s : leaves_no_more (performAction polls s) polls.
Proof.
  unfold performAction.
  destruct (selector s =? 0); [cbn; lia|].
  destruct (selector s =? 1); [apply chooseLength_leaves|].
  destruct (selector s =? 2); [apply chooseComplexity_leaves|].
  destruct (selector s =? 3); [apply displayAbout_leaves|].
  cbn. lia.
Qed.

Lemma handleInput_leaves p polls s : leaves_no_more (handleInput p polls s) polls.
Proof.
  unfold handleInput.
  destruct (sinceLastDebounce (tick p s) <? debounceDelay); [cbn; lia|].
  apply bind_leaves.
  - destruct (selectPressed p); [apply performAction_leaves | cbn; lia].
  - intros s' rest Hrest. destruct (_ || _); exact Hrest.
Qed.

(** [length polls] calls of [handleInput] are enough: when [run] returns
    it has gone through all the recorded polls. *)
Lemma loop_n_uses_all : forall n polls s s' rest,
  (length polls <= n)%nat ->
  loop_n n polls s = Done s' rest -> rest = [].
Proof.
  induction n as [|n IH]; intros polls s s' rest Hn Hrun.
  - destruct polls; [|cbn in Hn; lia]. cbn in Hrun. now injection Hrun as _ <-.
  - destruct polls as [|p polls]; [cbn in Hrun; now injection Hrun as _ <-|].
    cbn [loop_n] in Hrun. cbn [length] in Hn.
    pose proof (handleInput_leaves p polls s) as Hleft.
    destruct (handleInput p polls s) as [s1 rest1|s1]; [|discriminate].
    cbn [bind] in Hrun. cbn [leaves_no_more] in Hleft.
    apply (IH rest1 s1 s' rest); [lia | exact Hrun].
Qed.

Lemma run_uses_all polls s s' rest :
  run polls s = Done s' rest -> rest = [].
Proof. apply loop_n_uses_all. lia. Qed.

End RunFacts.

(** ** The demo sketch *)

Module DemoFacts.

Import Print Reference AesCrypto Demo PaddingFacts.
Local Open Scope string_scope.
Local Open Scope Z_scope.

Lemma string_of_bytes_app (a b : list Z) :
  string_of_bytes (a ++ b)%list = string_of_bytes a ++ string_of_bytes b.
Proof.
  unfold string_of_bytes.
  induction a as [|x a IH]; cbn; [reflexivity | now rewrite IH].
Qed.

Lemma print_for_chars (g : nat -> Z) : forall n,
  print_for n (fun i => print_char (g i)) = string_of_bytes (map g (seq 0 n)).
Proof.
  induction n as [|n IH]; [reflexivity|].
  cbn [print_for]. rewrite IH, seq_S, map_app, string_of_bytes_app.
  reflexivity.
Qed.

Lemma map_nth_seq (d : Z) : forall l pre,
  map (fun i => nth i (pre ++ l)%list d) (seq (length pre) (length l)) = l.
Proof.
  induction l as [|x l IH]; intros pre; [reflexivity|].
  cbn [length seq map].
  rewrite app_nth2, Nat.sub_diag by lia. cbn [nth]. f_equal.
  specialize (IH (pre ++ [x])%list).
  rewrite length_app, <- app_assoc in IH. cbn [length app] in IH.
  rewrite Nat.add_1_r in IH. exact IH.
Qed.

Lemma map_nth_prefix (d : Z) (l rest : list Z) :
  map (fun i => nth i (l ++ rest)%list d) (seq 0 (length l)) = l.
Proof.
  transitivity (map (fun i => nth i l d) (seq 0 (length l)));
    [|apply (map_nth_seq d l [])].
  apply map_ext_in. intros i Hi. apply in_seq in Hi.
  now rewrite app_nth1 by lia.
Qed.

(** The padded length, whatever the buffers hold. *)
Lemma setup_decrypt_paddedLen cbc inputString rnd f :
  snd (fst (setup_decrypt cbc inputString rnd f))
  = wrap_u32 ((Z.of_nat (length inputString) / 16 + 1) * 16).
Proof. reflexivity. Qed.

(** What is printed before the padding check does not depend on what
    decryption returns. *)
Lemma setup_decrypt_out_ext cbc cbc' inputString rnd f :
  (forall key len iv input,
     cbc' AES.MBEDTLS_AES_ENCRYPT key len iv input
     = cbc AES.MBEDTLS_AES_ENCRYPT key len iv input) ->
  fst (fst (setup_decrypt cbc' inputString rnd f))
  = fst (fst (setup_decrypt cbc inputString rnd f)).
Proof.
  intros Hsame. unfold setup_decrypt.
  destruct (applyPadding inputString (Z.of_nat (length inputString)) (paddedInput f))
    as [padded paddedLen].
  cbn [fst]. unfold encrypt. now rewrite Hsame.
Qed.

(** The two ways [setup] can end. *)
Lemma setup_cases cbc inputString rnd f :
  (length inputString <= 48)%nat ->
  let '(out, paddedLen, decrypted) := setup_decrypt cbc inputString rnd f in
  let padLen := nth (Z.to_nat (paddedLen - 1)) decrypted 0 in
  (padLen < 1 \/ 16 < padLen ->
   setup cbc inputString rnd f = out ++ msg_padding_error ++ newline)
  /\ (1 <= padLen <= 16 ->
      setup cbc inputString rnd f
      = out ++ msg_decrypted ++ newline
        ++ string_of_bytes
             (map (fun i => nth i decrypted 0)
                  (seq 0 (Z.to_nat (paddedLen - padLen))))
        ++ newline).
Proof.
  intros Hlen.
  pose proof (setup_decrypt_paddedLen cbc inputString rnd f) as Hpl.
  unfold setup.
  destruct (setup_decrypt cbc inputString rnd f) as [[out paddedLen] decrypted].
  cbn [fst snd] in Hpl. cbv zeta.
  set (padLen := nth (Z.to_nat (paddedLen - 1)) decrypted 0).
  assert (Hpadded : 16 <= paddedLen <= 64).
  { subst paddedLen. unfold wrap_u32. dlia. }
  unfold BLOCK_SIZE. split.
  - intros Hbad.
    replace ((0 <? padLen) && (padLen <=? 16)) with false by lia.
    reflexivity.
  - intros Hgood.
    replace ((0 <? padLen) && (padLen <=? 16)) with true by lia.
    unfold wrap_u32. rewrite (Z.mod_small (paddedLen - padLen)) by lia.
    rewrite print_for_chars.
    now rewrite !string_app_assoc.
Qed.

(** The same for every input that fits the arrays of [setup]: the
    padded length is at most 64 up to 63 bytes of input. *)
Lemma setup_cases_fit cbc inputString rnd f :
  (length inputString <= 63)%nat ->
  let '(out, paddedLen, decrypted) := setup_decrypt cbc inputString rnd f in
  let padLen := nth (Z.to_nat (paddedLen - 1)) decrypted 0 in
  (padLen < 1 \/ 16 < padLen ->
   setup cbc inputString rnd f = out ++ msg_padding_error ++ newline)
  /\ (1 <= padLen <= 16 ->
      setup cbc inputString rnd f
      = out ++ msg_decrypted ++ newline
        ++ string_of_bytes
             (map (fun i => nth i decrypted 0)
                  (seq 0 (Z.to_nat (paddedLen - padLen))))
        ++ newline).
Proof.
  intros Hlen.
  pose proof (setup_decrypt_paddedLen cbc inputString rnd f) as Hpl.
  unfold setup.
  destruct (setup_decrypt cbc inputString rnd f) as [[out paddedLen] decrypted].
  cbn [fst snd] in Hpl. cbv zeta.
  set (padLen := nth (Z.to_nat (paddedLen - 1)) decrypted 0).
  assert (Hpadded : 16 <= paddedLen <= 64).
  { subst paddedLen. unfold wrap_u32. dlia. }
  unfold BLOCK_SIZE. split.
  - intros Hbad.
    replace ((0 <? padLen) && (padLen <=? 16)) with false by lia.
    reflexivity.
  - intros Hgood.
    replace ((0 <? padLen) && (padLen <=? 16)) with true by lia.
    unfold wrap_u32. rewrite (Z.mod_small (paddedLen - padLen)) by lia.
    rewrite print_for_chars.
    now rewrite !string_app_assoc.
Qed.

(** With a cipher whose decryption undoes its encryption, the decrypted
    buffer starts with the padded input. *)
Lemma setup_decrypt_recovers cbc inputString rnd f :
  decrypt_inverts_encrypt cbc ->
  Forall is_byte inputString ->
  (length inputString <= 48)%nat ->
  length (paddedInput f) = 64%nat ->
  let inputLen := Z.of_nat (length inputString) in
  let paddedLen := (inputLen / 16 + 1) * 16 in
  let '(_, paddedLen', decrypted) := setup_decrypt cbc inputString rnd f in
  paddedLen' = paddedLen
  /\ firstn (Z.to_nat paddedLen) decrypted
     = (inputString
        ++ repeat (paddedLen - inputLen) (Z.to_nat (paddedLen - inputLen)))%list.
Proof.
  intros Hinv Hbytes Hlen Hframe inputLen paddedLen.
  assert (Hpad : 1 <= paddedLen - inputLen <= 16) by (subst paddedLen; dlia).
  assert (Hpl : 16 <= paddedLen <= 64) by (subst paddedLen inputLen; dlia).
  unfold setup_decrypt. fold inputLen.
  rewrite applyPadding_spec by (fold inputLen paddedLen; lia).
  fold inputLen paddedLen. split; [reflexivity|].
  set (body := (inputString
                ++ repeat (paddedLen - inputLen) (Z.to_nat (paddedLen - inputLen)))%list).
  assert (Hbody : length body = Z.to_nat paddedLen).
  { subst body. rewrite length_app, repeat_length. lia. }
  assert (Hfirst : forall rest, firstn (Z.to_nat paddedLen) (body ++ rest)%list = body).
  { intros rest. rewrite <- Hbody, firstn_app, Nat.sub_diag, firstn_O, app_nil_r.
    apply firstn_all. }
  replace (inputString
           ++ repeat (paddedLen - inputLen) (Z.to_nat (paddedLen - inputLen))
           ++ skipn (Z.to_nat paddedLen) (paddedInput f))%list
    with (body ++ skipn (Z.to_nat paddedLen) (paddedInput f))%list
    by (subst body; now rewrite <- app_assoc).
  rewrite Hinv.
  - apply Hfirst.
  - lia.
  - subst paddedLen. dlia.
  - rewrite length_app. lia.
  - rewrite Hfirst. subst body. apply Forall_app. split; [assumption|].
    apply Forall_forall. intros x Hx. apply repeat_spec in Hx. subst x.
    unfold is_byte. lia.
Qed.

End DemoFacts.

(* ===================================================================== *)
(** * The claims *)
(* ===================================================================== *)

Import Print Reference Firmware.
Local Open Scope string_scope.
Local Open Scope Z_scope.

(** Split a conjunction into its parts, and nothing else. *)
Ltac conjs := repeat match goal with |- _ /\ _ => split end.

(** C1.  For every setting of [passwordLength] and [complexityLevel] (any
    [int]) and every 16-byte key, [sendToPC] appends to the serial output
    exactly one line: the text [LEN:], the decimal numeral of the length,
    [,COMPLEX:], the decimal numeral of the level, [,KEY:] and 32
    hexadecimal digits, two per byte in order and without separators,
    and then the two characters that [Serial.println()] writes, a
    carriage return (13) and a line feed (10); nothing else in the state
    changes.  The output so ends with the newline character, which is
    preceded by the carriage return and not by the last key digit.  The
    line is printable ASCII, so it holds no line break of its own.  For
    length 16, level 5 and the bytes 0x00..0x0F it reads
    [LEN:16,COMPLEX:5,KEY:000102030405060708090A0B0C0D0E0F]. *)
Theorem sendToPC_report_line (s : State) (key : list Z) :
  length key = 16%nat -> Forall is_byte key ->
  - 2 ^ 31 <= passwordLength s < 2 ^ 31 ->
  - 2 ^ 31 <= complexityLevel s < 2 ^ 31 ->
  let lenText := print_long (passwordLength s) in
  let levelText := print_long (complexityLevel s) in
  let line :=
    "LEN:" ++ lenText ++ ",COMPLEX:" ++ levelText ++ ",KEY:" ++ hex_string key in
  let cr := ascii_of_nat 13 in
  let lf := ascii_of_nat 10 in
  sendToPC key s
  = with_hw (Serial_print (line ++ String cr (String lf "")) (hw s)) s
  /\ serial (hw (sendToPC key s))
     = (serial (hw s) ++ line ++ String cr "") ++ String lf ""
  /\ is_decimal lenText = true /\ decimal_value lenText = passwordLength s
  /\ is_decimal levelText = true /\ decimal_value levelText = complexityLevel s
  /\ String.length (hex_string key) = 32%nat
  /\ string_forall is_hex_digit (hex_string key) = true
  /\ string_forall is_printable line = true
  /\ (passwordLength s = 16 -> complexityLevel s = 5 ->
      key = map Z.of_nat (seq 0 16) ->
      line = "LEN:16,COMPLEX:5,KEY:000102030405060708090A0B0C0D0E0F").
Proof.
  intros Hlen Hbytes Hpl Hcl lenText levelText line cr lf.
  destruct (PrintFacts.print_long_decimal _ Hpl) as [Hd1 Hv1].
  destruct (PrintFacts.print_long_decimal _ Hcl) as [Hd2 Hv2].
  pose proof (PrintFacts.hex_string_digits key Hbytes) as Hhex.
  assert (Hsent : sendToPC key s
                  = with_hw (Serial_print (line ++ String cr (String lf ""))
                               (hw s)) s)
    by (apply ReportFacts.sendToPC_spec; assumption).
  split; [exact Hsent|].
  split.
  { rewrite Hsent. generalize line. intros text.
    cbn [hw with_hw Serial_print serial with_serial].
    now rewrite !string_app_assoc. }
  split; [exact Hd1|]. split; [exact Hv1|].
  split; [exact Hd2|]. split; [exact Hv2|].
  split; [rewrite PrintFacts.hex_string_length, Hlen; reflexivity|].
  split; [exact Hhex|].
  split.
  - pose proof (PrintFacts.print_long_printable _ Hpl) as Hp1.
    pose proof (PrintFacts.print_long_printable _ Hcl) as Hp2.
    pose proof (PrintFacts.string_forall_impl _ _ _
                  PrintFacts.is_hex_digit_printable Hhex) as Hp3.
    subst line. fold lenText in Hp1. fold levelText in Hp2.
    clearbody lenText levelText.
    rewrite !PrintFacts.string_forall_app, Hp1, Hp2, Hp3.
    reflexivity.
  - intros H16 H5 Hkey. subst line lenText levelText.
    rewrite H16, H5, Hkey. vm_compute. reflexivity.
Qed.

Lemma sendToPC_report_line_witness :
  serial (hw (sendToPC (map Z.of_nat (seq 0 16)) (boot idle_board)))
  = "LEN:16,COMPLEX:5,KEY:000102030405060708090A0B0C0D0E0F"
    ++ String (ascii_of_nat 13) (String (ascii_of_nat 10) "").
Proof.
  assert (Hbytes : Forall is_byte (map Z.of_nat (seq 0 16))).
  { apply Forall_forall. intros x Hx. apply in_map_iff in Hx as (n & <- & Hn).
    apply in_seq in Hn. unfold is_byte. lia. }
  destruct (sendToPC_report_line (boot idle_board) (map Z.of_nat (seq 0 16))
              eq_refl Hbytes ltac:(cbn; lia) ltac:(cbn; lia)) as [Hsent _].
  rewrite Hsent. vm_compute. reflexivity.
Defined.

(** C1, as the specification words it: the line is not the 32 key
    digits followed at once by the newline character.  For length 16,
    level 5 and the bytes 0x00..0x0F the output differs from
    [LEN:16,COMPLEX:5,KEY:000102030405060708090A0B0C0D0E0F] followed by a
    line feed alone. *)
Lemma sendToPC_line_end_is_not_bare_LF :
  String.eqb
    (serial (hw (sendToPC (map Z.of_nat (seq 0 16)) (boot idle_board))))
    ("LEN:16,COMPLEX:5,KEY:000102030405060708090A0B0C0D0E0F"
     ++ String (ascii_of_nat 10) "")
  = false.
Proof. vm_compute. reflexivity. Qed.

(** C2.  Key assembly calls the sampler exactly 16 times: the buffer it
    leaves is the list of the 16 values returned, the value of call
    number [i] at offset [i], and the sampler is left in the state that
    16 calls leave it in; a sampler that counts its calls counts 16.  This
    holds for any sampler, whatever it returns, so the key always has
    16 bytes. *)
Theorem fillGeneratedKey_sixteen_samples {W : Type}
    (sampler : W -> Z * W) (key : list Z) (w : W) :
  length key = 16%nat ->
  fillGeneratedKey sampler key w = sample_n 16 sampler w
  /\ length (fst (fillGeneratedKey sampler key w)) = 16%nat
  /\ (forall i, (i < 16)%nat ->
        nth i (fst (fillGeneratedKey sampler key w)) 0
        = fst (sampler (snd (sample_n i sampler w))))
  /\ snd (snd (fillGeneratedKey (counting sampler) key (w, 0%nat))) = 16%nat.
Proof.
  intros Hkey.
  rewrite !SamplerFacts.fillGeneratedKey_spec by assumption.
  conjs.
  - reflexivity.
  - apply SamplerFacts.sample_n_length.
  - intros i Hi. now apply SamplerFacts.sample_n_nth.
  - now rewrite SamplerFacts.sample_n_counting.
Qed.

Lemma fillGeneratedKey_sixteen_samples_witness :
  fst (fillGeneratedKey replay (repeat 7 16) (repeat 0 40)) = repeat 0 16
  /\ fst (fillGeneratedKey replay (repeat 7 16) (repeat 255 40)) = repeat 255 16
  /\ fst (fillGeneratedKey replay (repeat 7 16) (map Z.of_nat (seq 100 40)))
     = map Z.of_nat (seq 100 16).
Proof.
  conjs.
  - destruct (fillGeneratedKey_sixteen_samples replay (repeat 7 16) (repeat 0 40)
                eq_refl) as [H _].
    rewrite H. reflexivity.
  - destruct (fillGeneratedKey_sixteen_samples replay (repeat 7 16) (repeat 255 40)
                eq_refl) as [H _].
    rewrite H. reflexivity.
  - destruct (fillGeneratedKey_sixteen_samples replay (repeat 7 16)
                (map Z.of_nat (seq 100 40)) eq_refl) as [H _].
    rewrite H. reflexivity.
Defined.

(** C3.  For a motion reading of six signed 16-bit values the gate is
    held open for ((|ax|+|ay|+|az|+|gx|+|gy|+|gz|) mod 100) + 10
    microseconds, which lies between 10 and 109 however large the
    motion; this is the wait between raising and lowering the gate pin
    in the turn of the acquisition loop that takes the reading. *)
Theorem gateTime_bounded (m : Motion) :
  motion_int16 m ->
  gateTime m
  = (Z.abs (ax m) + Z.abs (ay m) + Z.abs (az m)
     + Z.abs (gx m) + Z.abs (gy m) + Z.abs (gz m)) mod 100 + 10
  /\ 10 <= gateTime m <= 109
  /\ (forall (h : Hw) (later : list Motion),
        motion h = m :: later ->
        trace (gate_pulse h)
        = DelayMicroseconds 10
          :: DigitalWrite GATE_CONTROL_PIN false
          :: DelayMicroseconds (gateTime m)
          :: DigitalWrite GATE_CONTROL_PIN true
          :: trace h).
Proof.
  intros Hm.
  split; [now apply SamplerFacts.gateTime_formula|].
  split; [now apply SamplerFacts.gateTime_bounds|].
  intros h later Hnext.
  rewrite SamplerFacts.gate_pulse_trace, SamplerFacts.getMotion6_fst.
  now rewrite Hnext.
Qed.

Lemma gateTime_bounded_witness :
  gateTime {| ax := -32768; ay := 32767; az := -1; gx := 255; gy := 0; gz := -12345 |}
  = 46.
Proof.
  set (m := {| ax := -32768; ay := 32767; az := -1; gx := 255; gy := 0; gz := -12345 |}).
  assert (Hm : motion_int16 m)
    by (unfold motion_int16, is_int16; cbn; lia).
  destruct (gateTime_bounded m Hm) as [H _].
  rewrite H. reflexivity.
Defined.

(** C4.  For every 16-byte raw key, encrypting it as one block with the
    device key and then applying the inverse single-block transform with
    the same key gives the raw key back; the protected key has 16 bytes
    too.  In particular the key that [runPasswordGeneration] leaves in
    [generatedKey], and sends, decrypts to the 16 sampled bytes. *)
Theorem protect_round_trip (rawKey : list Z) :
  length rawKey = 16%nat -> Forall is_byte rawKey ->
  AES.aes128_dec_single encryptionKey (AES.aes128_enc_single encryptionKey rawKey)
  = rawKey
  /\ length (AES.aes128_enc_single encryptionKey rawKey) = 16%nat
  /\ (forall s : State,
        length (generatedKey s) = 16%nat ->
        fst (sample_n 16 generateRandomByte (hw s)) = rawKey ->
        generatedKey (runPasswordGeneration s)
        = AES.aes128_enc_single encryptionKey rawKey
        /\ AES.aes128_dec_single encryptionKey (generatedKey (runPasswordGeneration s))
           = rawKey).
Proof.
  intros Hlen Hbytes.
  pose proof (AESFacts.aes128_dec_enc encryptionKey rawKey Hlen Hbytes) as Hback.
  split; [exact Hback|].
  split; [apply AESFacts.aes128_enc_single_length|].
  intros s Hkey Hraw.
  assert (Hgen : generatedKey (runPasswordGeneration s)
                 = AES.aes128_enc_single encryptionKey rawKey).
  { unfold runPasswordGeneration.
    rewrite SamplerFacts.fillGeneratedKey_spec by assumption.
    destruct (sample_n 16 generateRandomByte (hw s)) as [raw h'].
    cbn [fst] in Hraw. subst raw. reflexivity. }
  split; [exact Hgen|]. rewrite Hgen. exact Hback.
Qed.

Lemma protect_round_trip_witness :
  let rawKey := [0x32; 0x43; 0xf6; 0xa8; 0x88; 0x5a; 0x30; 0x8d;
                 0x31; 0x31; 0x98; 0xa2; 0xe0; 0x37; 0x07; 0x34] in
  AES.aes128_dec_single encryptionKey (AES.aes128_enc_single encryptionKey rawKey)
  = rawKey.
Proof.
  intros rawKey.
  assert (Hbytes : Forall is_byte rawKey).
  { apply Forall_forall. intros x Hx. apply is_byteb_true.
    revert x Hx. apply Forall_forall. subst rawKey.
    repeat constructor. }
  exact (proj1 (protect_round_trip rawKey eq_refl Hbytes)).
Defined.

(** C5.  With a block size of 16, [applyPadding] turns an input of
    length 2 into 16 bytes whose last 14 are all equal to 14, and an
    input of length exactly 16 into 32 bytes whose last 16 are all
    equal to 16: a whole block of padding is added to an input that
    already fills its blocks.  The input bytes come first in both
    cases. *)
Theorem applyPadding_examples (input output : list Z) :
  (64 <= length output)%nat ->
  (length input = 2%nat ->
   let '(padded, paddedLen) := AesCrypto.applyPadding input 2 output in
   paddedLen = 16
   /\ firstn 2 padded = input
   /\ forall i, (2 <= i < 16)%nat -> nth i padded 0 = 14)
  /\ (length input = 16%nat ->
      let '(padded, paddedLen) := AesCrypto.applyPadding input 16 output in
      paddedLen = 32
      /\ firstn 16 padded = input
      /\ forall i, (16 <= i < 32)%nat -> nth i padded 0 = 16).
Proof.
  intros Hroom. split; intros Hlen.
  - pose proof (PaddingFacts.applyPadding_spec input output) as Hspec.
    rewrite Hlen in Hspec. cbv zeta in Hspec.
    change (Z.of_nat 2) with 2 in Hspec.
    rewrite Hspec by (cbn; lia).
    change ((2 / 16 + 1) * 16) with 16.
    split; [reflexivity|]. split.
    + rewrite firstn_app, Hlen, Nat.sub_diag, firstn_O, app_nil_r.
      apply firstn_all2. lia.
    + intros i Hi. apply PaddingFacts.nth_repeat_mid.
      rewrite Hlen. change (Z.to_nat (16 - 2)) with 14%nat. lia.
  - pose proof (PaddingFacts.applyPadding_spec input output) as Hspec.
    rewrite Hlen in Hspec. cbv zeta in Hspec.
    change (Z.of_nat 16) with 16 in Hspec.
    rewrite Hspec by (cbn; lia).
    change ((16 / 16 + 1) * 16) with 32.
    split; [reflexivity|]. split.
    + rewrite firstn_app, Hlen, Nat.sub_diag, firstn_O, app_nil_r.
      apply firstn_all2. lia.
    + intros i Hi. apply PaddingFacts.nth_repeat_mid.
      rewrite Hlen. change (Z.to_nat (32 - 16)) with 16%nat. lia.
Qed.

Lemma applyPadding_examples_witness :
  AesCrypto.applyPadding [104; 105] 2 (repeat 0 64)
  = (([104; 105] ++ repeat 14 14 ++ repeat 0 48)%list, 16)
  /\ snd (AesCrypto.applyPadding (repeat 97 16) 16 (repeat 0 64)) = 32
  /\ nth 31 (fst (AesCrypto.applyPadding (repeat 97 16) 16 (repeat 0 64))) 0 = 16.
Proof.
  assert (Hroom : (64 <= length (repeat 0 64))%nat) by (cbn; lia).
  destruct (applyPadding_examples [104; 105] (repeat 0 64) Hroom) as [H2 _].
  destruct (applyPadding_examples (repeat 97 16) (repeat 0 64) Hroom) as [_ H16].
  specialize (H2 eq_refl). specialize (H16 eq_refl).
  destruct (AesCrypto.applyPadding (repeat 97 16) 16 (repeat 0 64))
    as [padded paddedLen].
  destruct H16 as (Hlen & _ & Hpad).
  split; [reflexivity|]. split; [exact Hlen|].
  apply Hpad. lia.
Defined.

(** C6.  In the length editor, starting from a stored length within
    8..64, whatever the sequence of button polls, the stored length is
    still within 8..64 (when the editor returns, and at any point where
    it is still waiting).  An accepted Up adds one and stops at 64, an
    accepted Down takes one off and stops at 8: at the bounds the value
    stays where it is and does not wrap. *)
Theorem chooseLength_saturates (polls : list Poll) (s : State) :
  8 <= passwordLength s <= 64 ->
  8 <= passwordLength (state_of (chooseLength polls s)) <= 64
  /\ (forall p, editor_accepts p s ->
        upPressed p = true -> downPressed p = false ->
        passwordLength (fst (chooseLength_turn p s))
        = Z.min 64 (passwordLength s + 1))
  /\ (forall p, editor_accepts p s ->
        upPressed p = false -> downPressed p = true ->
        passwordLength (fst (chooseLength_turn p s))
        = Z.max 8 (passwordLength s - 1))
  /\ (forall p, editor_accepts p s ->
        upPressed p = true -> downPressed p = false ->
        passwordLength s = 64 ->
        passwordLength (fst (chooseLength_turn p s)) = 64)
  /\ (forall p, editor_accepts p s ->
        upPressed p = false -> downPressed p = true ->
        passwordLength s = 8 ->
        passwordLength (fst (chooseLength_turn p s)) = 8).
Proof.
  intros Hs.
  split; [exact (MenuFacts.chooseLength_length polls s Hs)|].
  split; [intros p; now apply MenuFacts.chooseLength_turn_up|].
  split; [intros p; now apply MenuFacts.chooseLength_turn_down|].
  split.
  - intros p Hp Hup Hdown H64.
    rewrite (MenuFacts.chooseLength_turn_up p s Hs Hp Hup Hdown). lia.
  - intros p Hp Hup Hdown H8.
    rewrite (MenuFacts.chooseLength_turn_down p s Hs Hp Hup Hdown). lia.
Qed.

Lemma chooseLength_saturates_witness :
  let up := mkPoll 300000 true false false in
  let s63 := with_passwordLength 63 (boot idle_board) in
  passwordLength (state_of (chooseLength [up; up; up] s63)) = 64
  /\ passwordLength (fst (chooseLength_turn up s63)) = 64.
Proof.
  intros up s63.
  assert (Hs : 8 <= passwordLength s63 <= 64) by (cbn; lia).
  destruct (chooseLength_saturates [up; up; up] s63 Hs) as (_ & Hup & _).
  split; [vm_compute; reflexivity|].
  rewrite (Hup up); [reflexivity | vm_compute; reflexivity | reflexivity | reflexivity].
Defined.

(** C7.  In the complexity editor, starting from a stored level among
    the six of the enumeration (0..5), whatever the sequence of button
    polls, the stored level is still one of the six.  The index shown
    moves in a circle: an accepted Down goes from the last level to the
    first, an accepted Up from the first to the last; Select stores the
    index shown. *)
Theorem chooseComplexity_wraps (polls : list Poll) (s : State) :
  0 <= complexityLevel s <= 5 ->
  (exists c : Complexity,
     complexityLevel (state_of (chooseComplexity polls s)) = Complexity_value c)
  /\ (forall p t s', 0 <= t <= 5 -> editor_accepts p s' ->
        upPressed p = false -> downPressed p = true ->
        fst (fst (chooseComplexity_turn p t s')) = (t + 1) mod 6)
  /\ (forall p t s', 0 <= t <= 5 -> editor_accepts p s' ->
        upPressed p = true -> downPressed p = false ->
        fst (fst (chooseComplexity_turn p t s')) = (t - 1) mod 6)
  /\ (forall p s', editor_accepts p s' ->
        upPressed p = false -> downPressed p = true ->
        fst (fst (chooseComplexity_turn p 5 s')) = 0)
  /\ (forall p s', editor_accepts p s' ->
        upPressed p = true -> downPressed p = false ->
        fst (fst (chooseComplexity_turn p 0 s')) = 5)
  /\ (forall p t s', editor_accepts p s' ->
        upPressed p = false -> downPressed p = false -> selectPressed p = true ->
        complexityLevel (snd (fst (chooseComplexity_turn p t s'))) = t).
Proof.
  intros Hs.
  split; [apply MenuFacts.level_ok_enum; now apply MenuFacts.chooseComplexity_level|].
  split; [intros p t s'; apply MenuFacts.chooseComplexity_turn_down|].
  split; [intros p t s'; apply MenuFacts.chooseComplexity_turn_up|].
  split.
  - intros p s' Hp Hup Hdown.
    rewrite MenuFacts.chooseComplexity_turn_down;
      [reflexivity | unfold level_ok; lia | assumption..].
  - split.
    + intros p s' Hp Hup Hdown.
      rewrite MenuFacts.chooseComplexity_turn_up;
        [reflexivity | unfold level_ok; lia | assumption..].
    + intros p t s' Hp Hup Hdown Hsel.
      pose proof (MenuFacts.chooseComplexity_turn_select p t s' Hp Hup Hdown Hsel) as H.
      destruct (chooseComplexity_turn p t s') as [[t' s''] setting].
      apply H.
Qed.

Lemma chooseComplexity_wraps_witness :
  let down := mkPoll 300000 false true false in
  let select := mkPoll 300000 false false true in
  complexityLevel (state_of (chooseComplexity [down; select] (boot idle_board))) = 0
  /\ exists c : Complexity,
       complexityLevel (state_of (chooseComplexity [down; select] (boot idle_board)))
       = Complexity_value c.
Proof.
  intros down select.
  assert (Hs : 0 <= complexityLevel (boot idle_board) <= 5) by (cbn; lia).
  destruct (chooseComplexity_wraps [down; select] (boot idle_board) Hs) as [Hin _].
  split; [vm_compute; reflexivity | exact Hin].
Defined.

(** C8, as the code has it.  The debounce time stamp is written by
    [handleInput] only after the screen it opens has returned, so that
    screen starts with the stamp of the acceptance before.  After Down
    at 1000 ms, the main menu accepts Select at 2000 ms and opens the
    length editor, which still sees the stamp 1000.  One millisecond
    later, with Select still held, the editor accepts the button again
    and returns, and the stamp has changed; with Up held as well the
    stored length has gone from 16 to 17.  The two acceptances lie 1 ms
    apart, well under the 200 ms of [debounceDelay], and the second one
    changes the program state. *)
Theorem stale_debounce_on_entry :
  let down := mkPoll 1000000 false true false in
  let select := mkPoll 1000000 false false true in
  let held := mkPoll 1000 false false true in
  let held_up := mkPoll 1000 true false true in
  exists s0 s1 s2 s3 : State,
    run [down] (boot idle_board) = Done s0 []
    /\ millis s0 = 1000 /\ lastDebounceTime s0 = 1000
    /\ menu_accepts select s0
    /\ handleInput select [] s0 = Waiting s1
    /\ millis s1 = 2000 /\ lastDebounceTime s1 = 1000
    /\ selector s1 = 1 /\ passwordLength s1 = 16
    /\ editor_accepts held s1
    /\ chooseLength_turn held s1 = (s2, false)
    /\ millis s2 = 2001 /\ lastDebounceTime s2 = 2001
    /\ globals s2 <> globals s1
    /\ chooseLength_turn held_up s1 = (s3, false)
    /\ passwordLength s3 = 17
    /\ millis s2 - millis s1 < debounceDelay.
Proof.
  intros down select held held_up.
  eexists. eexists. eexists. eexists.
  split; [vm_compute; reflexivity|].
  split; [vm_compute; reflexivity|].
  split; [vm_compute; reflexivity|].
  split; [vm_compute; intros H; discriminate H|].
  split; [vm_compute; reflexivity|].
  split; [vm_compute; reflexivity|].
  split; [vm_compute; reflexivity|].
  split; [vm_compute; reflexivity|].
  split; [vm_compute; reflexivity|].
  split; [vm_compute; reflexivity|].
  split; [vm_compute; reflexivity|].
  split; [vm_compute; reflexivity|].
  split; [vm_compute; reflexivity|].
  split; [vm_compute; intros H; discriminate H|].
  split; [vm_compute; reflexivity|].
  split; [vm_compute; reflexivity|].
  vm_compute. reflexivity.
Qed.

(** C9.  On the demo path, for an input line that the 64-byte arrays of
    [setup] can hold once padded (at most 63 bytes), let the recovered
    pad value be the last byte of the decrypted buffer.  If it lies
    outside 1..16 (the block size), [setup] ends by printing the line
    [Ошибка паддинга!] (padding error), after a text that does not
    depend on the decrypted bytes: the decrypted text is not printed.
    Otherwise it prints the line [Расшифровка (без паддинга):] and then
    the decrypted bytes up to the padded length minus the pad value,
    that is, the decrypted text with the pad bytes stripped.  Each line
    ends with the carriage return and line feed of [println]. *)
Theorem setup_padding_check
    (cbc : AES.mode -> list Z -> Z -> list Z -> list Z -> list Z)
    (inputString rnd : list Z) (f : Demo.frame) :
  (length inputString <= 63)%nat ->
  let '(out, paddedLen, decrypted) := Demo.setup_decrypt cbc inputString rnd f in
  let padLen := nth (Z.to_nat (paddedLen - 1)) decrypted 0 in
  let crlf := String (ascii_of_nat 13) (String (ascii_of_nat 10) "") in
  (padLen < 1 \/ 16 < padLen ->
   Demo.setup cbc inputString rnd f = out ++ "Ошибка паддинга!" ++ crlf)
  /\ (1 <= padLen <= 16 ->
      Demo.setup cbc inputString rnd f
      = out ++ "Расшифровка (без паддинга):" ++ crlf
        ++ string_of_bytes
             (map (fun i => nth i decrypted 0)
                  (seq 0 (Z.to_nat (paddedLen - padLen))))
        ++ crlf)
  /\ (forall cbc',
        (forall key len iv input,
           cbc' AES.MBEDTLS_AES_ENCRYPT key len iv input
           = cbc AES.MBEDTLS_AES_ENCRYPT key len iv input) ->
        fst (fst (Demo.setup_decrypt cbc' inputString rnd f)) = out).
Proof.
  intros Hlen.
  pose proof (DemoFacts.setup_cases_fit cbc inputString rnd f Hlen) as Hcases.
  pose proof (fun cbc' => DemoFacts.setup_decrypt_out_ext cbc cbc' inputString rnd f)
    as Hout.
  destruct (Demo.setup_decrypt cbc inputString rnd f) as [[out paddedLen] decrypted].
  cbv zeta in *. cbn [fst] in Hout.
  destruct Hcases as [Hbad Hgood].
  split; [exact Hbad|]. split; [exact Hgood | exact Hout].
Qed.

Lemma setup_padding_check_witness :
  Demo.setup zeroing_cbc [104; 105] [] blank_frame
  = fst (fst (Demo.setup_decrypt zeroing_cbc [104; 105] [] blank_frame))
    ++ "Ошибка паддинга!" ++ String (ascii_of_nat 13) (String (ascii_of_nat 10) "").
Proof.
  pose proof (setup_padding_check zeroing_cbc [104; 105] [] blank_frame
                ltac:(cbn; lia)) as H.
  destruct (Demo.setup_decrypt zeroing_cbc [104; 105] [] blank_frame)
    as [[out paddedLen] decrypted] eqn:Hrun.
  destruct H as [Hbad _]. cbn [fst]. apply Hbad.
  left.
  assert (Hpad : nth (Z.to_nat (paddedLen - 1)) decrypted 0
                 = nth (Z.to_nat
                          (snd (fst (Demo.setup_decrypt zeroing_cbc [104; 105] []
                                       blank_frame)) - 1))
                       (snd (Demo.setup_decrypt zeroing_cbc [104; 105] []
                               blank_frame)) 0)
    by now rewrite Hrun.
  rewrite Hpad. vm_compute. reflexivity.
Defined.

(** C10.  For every input of at most 48 bytes (and a buffer of 64),
    [applyPadding] returns the next multiple of 16 strictly above the
    input length, so between 1 and 16 bytes are added; the output
    starts with the input bytes unchanged and every added byte equals
    the number of added bytes.  Hence, on the demo path, if decryption
    undoes encryption, the recovered pad value is that number, lies in
    1..16, and [setup] ends by printing the input back and never the
    padding error. *)
Theorem padding_error_unreachable :
  (forall input output : list Z,
     (length input <= 48)%nat -> (64 <= length output)%nat ->
     let inputLen := Z.of_nat (length input) in
     let '(padded, paddedLen) := AesCrypto.applyPadding input inputLen output in
     paddedLen = 16 * (inputLen / 16 + 1)
     /\ paddedLen mod 16 = 0
     /\ inputLen < paddedLen <= inputLen + 16
     /\ 1 <= paddedLen - inputLen <= 16
     /\ firstn (length input) padded = input
     /\ forall i, (length input <= i < Z.to_nat paddedLen)%nat ->
          nth i padded 0 = paddedLen - inputLen)
  /\ (forall (cbc : AES.mode -> list Z -> Z -> list Z -> list Z -> list Z)
             (inputString rnd : list Z) (f : Demo.frame),
        decrypt_inverts_encrypt cbc ->
        Forall is_byte inputString ->
        (length inputString <= 48)%nat ->
        length (Demo.paddedInput f) = 64%nat ->
        let '(out, paddedLen, decrypted) :=
          Demo.setup_decrypt cbc inputString rnd f in
        let padLen := nth (Z.to_nat (paddedLen - 1)) decrypted 0 in
        padLen = paddedLen - Z.of_nat (length inputString)
        /\ 1 <= padLen <= 16
        /\ Demo.setup cbc inputString rnd f
           = out ++ Demo.msg_decrypted ++ newline
             ++ string_of_bytes inputString ++ newline).
Proof.
  split.
  - intros input output Hlen Hroom inputLen.
    pose proof (PaddingFacts.applyPadding_spec input output) as Hspec.
    cbv zeta in Hspec. fold inputLen in Hspec.
    set (paddedLen := (inputLen / 16 + 1) * 16) in *.
    assert (Hpl : 16 <= paddedLen <= 64) by (subst paddedLen inputLen; dlia).
    assert (Hpad : 1 <= paddedLen - inputLen <= 16) by (subst paddedLen; dlia).
    rewrite Hspec by lia.
    split; [subst paddedLen; lia|].
    split; [subst paddedLen; dlia|].
    split; [lia|]. split; [lia|]. split.
    + rewrite firstn_app, Nat.sub_diag, firstn_O, app_nil_r. apply firstn_all.
    + intros i Hi. apply PaddingFacts.nth_repeat_mid. subst inputLen. lia.
  - intros cbc inputString rnd f Hinv Hbytes Hlen Hframe.
    pose proof (DemoFacts.setup_cases cbc inputString rnd f Hlen) as Hcases.
    pose proof (DemoFacts.setup_decrypt_recovers cbc inputString rnd f
                  Hinv Hbytes Hlen Hframe) as Hrec.
    destruct (Demo.setup_decrypt cbc inputString rnd f)
      as [[out paddedLen] decrypted].
    cbv zeta in *.
    set (inputLen := Z.of_nat (length inputString)) in *.
    destruct Hrec as [Hpl Hfirst]. subst paddedLen.
    set (paddedLen := (inputLen / 16 + 1) * 16) in *.
    assert (Hpad : 1 <= paddedLen - inputLen <= 16) by (subst paddedLen; dlia).
    assert (Hnth : forall i, (i < Z.to_nat paddedLen)%nat ->
              nth i decrypted 0
              = nth i (inputString
                       ++ repeat (paddedLen - inputLen)
                            (Z.to_nat (paddedLen - inputLen)))%list 0).
    { intros i Hi. rewrite <- Hfirst, nth_firstn.
      apply Nat.ltb_lt in Hi. now rewrite Hi. }
    assert (Hlast : nth (Z.to_nat (paddedLen - 1)) decrypted 0 = paddedLen - inputLen).
    { rewrite Hnth by lia.
      rewrite <- (app_nil_r (repeat _ _)).
      apply PaddingFacts.nth_repeat_mid. subst inputLen. lia. }
    rewrite Hlast in *.
    split; [reflexivity|]. split; [exact Hpad|].
    destruct Hcases as [_ Hgood]. rewrite (Hgood Hpad).
    do 3 f_equal.
    replace (Z.to_nat (paddedLen - (paddedLen - inputLen)))
      with (length inputString) by (subst inputLen; lia).
    f_equal. f_equal.
    rewrite <- (DemoFacts.map_nth_prefix 0 inputString
                  (repeat (paddedLen - inputLen) (Z.to_nat (paddedLen - inputLen)))) at 2.
    apply map_ext_in. intros i Hi. apply in_seq in Hi.
    apply Hnth. subst inputLen. lia.
Qed.

Lemma padding_error_unreachable_witness :
  Demo.setup AES.mbedtls_aes_crypt_cbc [104; 105] [3; 1; 4; 1; 5] blank_frame
  = fst (fst (Demo.setup_decrypt AES.mbedtls_aes_crypt_cbc [104; 105]
                [3; 1; 4; 1; 5] blank_frame))
    ++ Demo.msg_decrypted ++ newline ++ "hi" ++ newline.
Proof.
  assert (Hbytes : Forall is_byte [104; 105])
    by (repeat constructor; unfold is_byte; lia).
  pose proof (proj2 padding_error_unreachable AES.mbedtls_aes_crypt_cbc
                [104; 105] [3; 1; 4; 1; 5] blank_frame
                CBCFacts.mbedtls_decrypt_inverts_encrypt Hbytes
                ltac:(cbn; lia) eq_refl) as H.
  destruct (Demo.setup_decrypt AES.mbedtls_aes_crypt_cbc [104; 105]
              [3; 1; 4; 1; 5] blank_frame) as [[out paddedLen] decrypted].
  destruct H as (_ & _ & Hsetup). exact Hsetup.
Defined.

(* ===================================================================== *)
(** * Further properties *)
(* ===================================================================== *)

(** ** What each screen leaves alone *)

Module FrameFacts.

Import Reference Words Firmware MenuFacts RunFacts.
Local Open Scope Z_scope.

Lemma chooseLength_turn_untouched p s :
  untouched (fst (chooseLength_turn p s)) = untouched s.
Proof.
  unfold chooseLength_turn.
  destruct (debounceDelay <? sinceLastDebounce (tick p s)); [|reflexivity].
  destruct (upPressed p), (downPressed p), (selectPressed p);
    cbn -[wrap_s32 Z.ltb]; split_ifs; reflexivity.
Qed.

Lemma chooseComplexity_turn_untouched p t s :
  untouched (snd (fst (chooseComplexity_turn p t s))) = untouched s.
Proof.
  unfold chooseComplexity_turn.
  destruct (debounceDelay <? sinceLastDebounce (tick p s)); [|reflexivity].
  destruct (upPressed p), (downPressed p), (selectPressed p); reflexivity.
Qed.

Lemma chooseLength_untouched polls s :
  untouched (state_of (chooseLength polls s)) = untouched s.
Proof.
  unfold chooseLength. apply bind_preserves; [|intros s' rest Hs'; exact Hs'].
  revert s. induction polls as [|p polls IH]; intros s;
    cbn [chooseLength_loop state_of]; [reflexivity|].
  pose proof (chooseLength_turn_untouched p s) as Hturn.
  destruct (chooseLength_turn p s) as [s' setting]. cbn [fst] in Hturn.
  destruct setting; [rewrite IH|]; exact Hturn.
Qed.

Lemma chooseComplexity_untouched polls s :
  untouched (state_of (chooseComplexity polls s)) = untouched s.
Proof.
  unfold chooseComplexity. apply bind_preserves; [|intros s' rest Hs'; exact Hs'].
  generalize (complexityLevel s). intros t.
  revert t s. induction polls as [|p polls IH]; intros t s;
    cbn [chooseComplexity_loop state_of]; [reflexivity|].
  pose proof (chooseComplexity_turn_untouched p t s) as Hturn.
  destruct (chooseComplexity_turn p t s) as [[t' s'] setting]. cbn [fst snd] in Hturn.
  destruct setting; [rewrite IH|]; exact Hturn.
Qed.

Lemma displayAbout_untouched polls s :
  untouched (state_of (displayAbout polls s)) = untouched s
  /\ passwordLength (state_of (displayAbout polls s)) = passwordLength s
  /\ complexityLevel (state_of (displayAbout polls s)) = complexityLevel s.
Proof.
  unfold displayAbout.
  apply (bind_preserves (fun s' => untouched s' = untouched s
                                   /\ passwordLength s' = passwordLength s
                                   /\ complexityLevel s' = complexityLevel s));
    [|intros s' rest Hs'; exact Hs'].
  generalize 1, false. intros a shown.
  assert (Hgen : forall polls a shown s0,
            untouched s0 = untouched s /\ passwordLength s0 = passwordLength s
            /\ complexityLevel s0 = complexityLevel s ->
            let s' := state_of (displayAbout_loop polls shown a s0) in
            untouched s' = untouched s /\ passwordLength s' = passwordLength s
            /\ complexityLevel s' = complexityLevel s).
  { clear polls a shown.
    induction polls as [|p polls IH]; intros a shown s0 Hs0;
      cbn [displayAbout_loop state_of]; [exact Hs0|].
    destruct shown.
    - destruct (selectPressed p); apply IH; exact Hs0.
    - destruct (debounceDelay <? sinceLastDebounce (tick p s0)); [|apply IH; exact Hs0].
      destruct (upPressed p), (downPressed p), (selectPressed p);
        cbn -[wrap_s32 Z.ltb Z.leb Z.eqb]; split_ifs;
        cbn [state_of]; try apply IH; exact Hs0. }
  apply Hgen. auto.
Qed.

End FrameFacts.

(** ** The main menu *)

Module MainMenuFacts.

Import Reference Words Firmware Display MenuFacts RunFacts FrameFacts.
Local Open Scope string_scope.
Local Open Scope Z_scope.

Lemma untouched_menu s s' :
  untouched s' = untouched s ->
  selector s' = selector s /\ top_line_index s' = top_line_index s.
Proof. unfold untouched. intros H. injection H as Hsel Htop _ _ _ _ _. auto. Qed.

Lemma menu_ok_ext s s' :
  selector s' = selector s -> top_line_index s' = top_line_index s ->
  menu_ok s -> menu_ok s'.
Proof. unfold menu_ok. now intros -> ->. Qed.

Lemma runPasswordGeneration_menu s :
  selector (runPasswordGeneration s) = selector s
  /\ top_line_index (runPasswordGeneration s) = top_line_index s.
Proof.
  unfold runPasswordGeneration.
  destruct (fillGeneratedKey generateRandomByte (generatedKey s) (hw s)).
  split; reflexivity.
Qed.

Lemma performAction_menu polls s :
  selector (state_of (performAction polls s)) = selector s
  /\ top_line_index (state_of (performAction polls s)) = top_line_index s.
Proof.
  unfold performAction.
  destruct (selector s =? 0); [apply runPasswordGeneration_menu|].
  destruct (selector s =? 1); [apply untouched_menu, chooseLength_untouched|].
  destruct (selector s =? 2); [apply untouched_menu, chooseComplexity_untouched|].
  destruct (selector s =? 3); [apply untouched_menu, displayAbout_untouched|].
  split; reflexivity.
Qed.

Lemma moved_scrolled_ok up down sel top :
  0 <= sel <= 3 -> 0 <= top <= 1 ->
  0 <= moved up down sel <= 3
  /\ 0 <= scrolled top (moved up down sel) <= 1
  /\ scrolled top (moved up down sel) <= moved up down sel
     <= scrolled top (moved up down sel) + 2.
Proof.
  intros Hsel Htop. unfold moved, scrolled.
  destruct up, down; split_ifs; to_prop; dlia.
Qed.

(** [handleInput] on a poll that passes the debounce test. *)
Lemma handleInput_open p polls s :
  menu_ok s ->
  (sinceLastDebounce (tick p s) <? debounceDelay) = false ->
  handleInput p polls s
  = bind (if selectPressed p then performAction polls (menu_step p s)
          else Done (menu_step p s) polls)
      (fun s rest =>
         if upPressed p || downPressed p || selectPressed p
         then Done (stampDebounce s) rest
         else Done s rest).
Proof.
  intros (Hsel & Htop & _) Hopen. unfold handleInput, menu_step.
  rewrite Hopen.
  assert (Hs0 : selector (tick p s) = selector s) by reflexivity.
  assert (Ht0 : top_line_index (tick p s) = top_line_index s) by reflexivity.
  rewrite <- Hs0 in Hsel |- *. rewrite <- Ht0 in Htop |- *.
  clear Hs0 Ht0 Hopen.
  destruct (tick p s) as [sel top last len level key h].
  cbn [selector top_line_index] in Hsel, Htop.
  assert (Hsel' : sel = 0 \/ sel = 1 \/ sel = 2 \/ sel = 3) by lia.
  assert (Htop' : top = 0 \/ top = 1) by lia.
  destruct Hsel' as [-> | [-> | [-> | ->]]], Htop' as [-> | ->];
    destruct (upPressed p), (downPressed p); reflexivity.
Qed.

Lemma menu_step_ok p s : menu_ok s -> menu_ok (menu_step p s).
Proof.
  intros (Hsel & Htop & _). unfold menu_ok, menu_step.
  cbn [selector top_line_index with_selector with_top_line_index tick with_hw].
  now apply moved_scrolled_ok.
Qed.

Lemma handleInput_menu p polls s :
  menu_ok s -> menu_ok (state_of (handleInput p polls s)).
Proof.
  intros Hs.
  destruct (sinceLastDebounce (tick p s) <? debounceDelay) eqn:Hgate.
  - unfold handleInput. rewrite Hgate. exact Hs.
  - rewrite handleInput_open by assumption.
    pose proof (menu_step_ok p s Hs) as Hstep.
    apply bind_preserves.
    + destruct (selectPressed p); [|exact Hstep].
      destruct (performAction_menu polls (menu_step p s)) as [H1 H2].
      now apply (menu_ok_ext (menu_step p s)).
    + intros s' rest Hs'. destruct (_ || _); exact Hs'.
Qed.

Lemma loop_n_menu : forall n polls s,
  menu_ok s -> menu_ok (state_of (loop_n n polls s)).
Proof.
  induction n as [|n IH]; intros polls s Hs; cbn [loop_n state_of];
    [destruct polls; assumption|].
  destruct polls as [|p rest]; [assumption|].
  apply bind_preserves; [now apply handleInput_menu|].
  intros s' rest' Hs'. now apply IH.
Qed.

Lemma boot_menu h : menu_ok (boot h).
Proof. unfold menu_ok. cbn. lia. Qed.

End MainMenuFacts.

Import Words Display.

(** X1.  The main menu keeps its position well-formed over any run of
    [loop()]: whatever the buttons do, in the menu and in the screens it
    opens, the selector stays on one of the four items, the scroll
    offset is 0 or 1, and the selector is within the three lines shown
    from the scroll offset. *)
Theorem menu_position_kept (polls : list Poll) (s : State) :
  menu_ok s -> menu_ok (state_of (run polls s)).
Proof. intros Hs. unfold run. now apply MainMenuFacts.loop_n_menu. Qed.

Lemma menu_position_kept_witness :
  let down := mkPoll 300000 false true false in
  let up := mkPoll 300000 true false false in
  menu_ok (state_of (run [down; down; down; up; down; down; up] (boot idle_board))).
Proof.
  intros down up. apply menu_position_kept.
  unfold menu_ok. cbn. lia.
Defined.

(** X2.  A poll that passes the debounce test of the main menu, without
    Select, moves the selector one step round the four items: Up alone
    goes back one (from the first item to the last), Down alone goes on
    one (from the last item to the first), both together leave it where
    it is.  The scroll offset follows so that the selector stays in
    view, the debounce stamp is set to the time of the poll when a
    button was down, and settings, key and board (but for the clock)
    are as before. *)
Theorem handleInput_moves_selector (p : Poll) (polls : list Poll) (s : State) :
  menu_ok s -> menu_accepts p s -> selectPressed p = false ->
  exists s' : State,
    handleInput p polls s = Done s' polls
    /\ selector s' = moved (upPressed p) (downPressed p) (selector s)
    /\ top_line_index s' = scrolled (top_line_index s) (selector s')
    /\ (selector s = 0 -> upPressed p = true -> downPressed p = false ->
        selector s' = 3)
    /\ (selector s = 3 -> upPressed p = false -> downPressed p = true ->
        selector s' = 0)
    /\ lastDebounceTime s'
       = (if upPressed p || downPressed p
          then wrap_s32 (millis (tick p s)) else lastDebounceTime s)
    /\ passwordLength s' = passwordLength s
    /\ complexityLevel s' = complexityLevel s
    /\ generatedKey s' = generatedKey s
    /\ hw s' = hw (tick p s).
Proof.
  intros Hs Hopen Hsel. unfold menu_accepts in Hopen.
  rewrite MainMenuFacts.handleInput_open by (try assumption; lia).
  rewrite Hsel, orb_false_r. cbn [bind].
  assert (Hwrap : (selector s = 0 -> upPressed p = true -> downPressed p = false ->
                   moved (upPressed p) (downPressed p) (selector s) = 3)
                  /\ (selector s = 3 -> upPressed p = false -> downPressed p = true ->
                      moved (upPressed p) (downPressed p) (selector s) = 0)).
  { split; intros -> -> ->; reflexivity. }
  destruct Hwrap as [Hfirst Hlast].
  destruct (upPressed p || downPressed p);
    eexists; (split; [reflexivity|]); cbn; auto 12.
Qed.

Lemma handleInput_moves_selector_witness :
  let up := mkPoll 300000 true false false in
  exists s', handleInput up [] (boot idle_board) = Done s' [] /\ selector s' = 3.
Proof.
  intros up.
  destruct (handleInput_moves_selector up [] (boot idle_board))
    as (s' & Hrun & _ & _ & Hwrap & _).
  - unfold menu_ok. cbn. lia.
  - unfold menu_accepts. vm_compute. intros H. discriminate H.
  - reflexivity.
  - exists s'. split; [exact Hrun|]. apply Hwrap; reflexivity.
Defined.

(** X3.  When the menu position is well-formed, [drawMenu] draws the
    three items from the scroll offset on the lines y = 0, 10 and 20,
    and draws the marker [>] on the line of the selected item: the text
    printed at (10, y) for the marker's y is the name of item number
    [selector]. *)
Theorem drawMenu_marks_selected (s : State) :
  menu_ok s ->
  let top := Z.to_nat (top_line_index s) in
  let y := (selector s - top_line_index s) * 10 in
  drawMenu s
  = [ClearDisplay; SetTextSize 1; SetTextColor WHITE;
     SetCursor 10 0; PrintText (nth top menuItems "");
     SetCursor 10 10; PrintText (nth (top + 1) menuItems "");
     SetCursor 10 20; PrintText (nth (top + 2) menuItems "");
     SetCursor 0 y; PrintText ">"; DisplayFlush]
  /\ (y = 0 \/ y = 10 \/ y = 20)
  /\ exists before after,
       drawMenu s
       = (before
          ++ [SetCursor 10 y; PrintText (nth (Z.to_nat (selector s)) menuItems "")]
          ++ after ++ [SetCursor 0 y; PrintText ">"; DisplayFlush])%list.
Proof.
  intros (Hsel & Htop & Hview) top y. subst top y. unfold drawMenu.
  assert (Htop' : top_line_index s = 0 \/ top_line_index s = 1) by lia.
  assert (Hrow : selector s = top_line_index s \/ selector s = top_line_index s + 1
                 \/ selector s = top_line_index s + 2) by lia.
  destruct Htop' as [Ht | Ht], Hrow as [Hr | [Hr | Hr]];
    rewrite Hr, Ht; cbn; (split; [reflexivity|]); (split; [lia|]).
  - exists [ClearDisplay; SetTextSize 1; SetTextColor WHITE].
    exists [SetCursor 10 10; PrintText "Set Length";
            SetCursor 10 20; PrintText "Set Complexity"]. reflexivity.
  - exists [ClearDisplay; SetTextSize 1; SetTextColor WHITE;
            SetCursor 10 0; PrintText "Generate Password"].
    exists [SetCursor 10 20; PrintText "Set Complexity"]. reflexivity.
  - exists [ClearDisplay; SetTextSize 1; SetTextColor WHITE;
            SetCursor 10 0; PrintText "Generate Password";
            SetCursor 10 10; PrintText "Set Length"]. exists []. reflexivity.
  - exists [ClearDisplay; SetTextSize 1; SetTextColor WHITE].
    exists [SetCursor 10 10; PrintText "Set Complexity";
            SetCursor 10 20; PrintText "About"]. reflexivity.
  - exists [ClearDisplay; SetTextSize 1; SetTextColor WHITE;
            SetCursor 10 0; PrintText "Set Length"].
    exists [SetCursor 10 20; PrintText "About"]. reflexivity.
  - exists [ClearDisplay; SetTextSize 1; SetTextColor WHITE;
            SetCursor 10 0; PrintText "Set Length";
            SetCursor 10 10; PrintText "Set Complexity"]. exists []. reflexivity.
Qed.

Lemma drawMenu_marks_selected_witness :
  let s := with_top_line_index 1 (with_selector 3 (boot idle_board)) in
  exists before after,
    drawMenu s
    = (before ++ [SetCursor 10 20; PrintText "About"]
       ++ after ++ [SetCursor 0 20; PrintText ">"; DisplayFlush])%list.
Proof.
  intros s.
  destruct (drawMenu_marks_selected s) as (_ & _ & Hmark).
  - unfold menu_ok. cbn. lia.
  - exact Hmark.
Defined.

(** ** Gating *)

Module GatingFacts.

Import Reference Words Firmware SamplerFacts.
Local Open Scope Z_scope.

Lemma gate_pulses_app a b :
  gate_pulses (a ++ b) = (gate_pulses a ++ gate_pulses b)%list.
Proof.
  induction a as [|g a IH]; [reflexivity|].
  cbn [gate_pulses app]. now rewrite IH.
Qed.

Lemma pulses_time_app a b : pulses_time (a ++ b) = pulses_time a + pulses_time b.
Proof.
  induction a as [|g a IH]; [reflexivity|].
  cbn [pulses_time app]. rewrite IH. lia.
Qed.

Lemma pulses_time_bounds gs :
  Forall gate_time_ok gs ->
  20 * Z.of_nat (length gs) <= pulses_time gs <= 119 * Z.of_nat (length gs).
Proof.
  induction 1 as [|g gs Hg Hgs IH]; [cbn; lia|].
  unfold gate_time_ok in Hg. cbn [pulses_time length]. lia.
Qed.

Lemma reads_time_nonneg : forall n us, 0 <= reads_time n us.
Proof.
  induction n as [|n IH]; intros us; cbn [reads_time]; [lia|].
  specialize (IH (tl us)). lia.
Qed.

Lemma skipn_tl {A} (n : nat) (l : list A) : skipn n (tl l) = skipn (S n) l.
Proof. destruct l; [now rewrite skipn_nil | reflexivity]. Qed.

Lemma gate_pulse_keeps h :
  serial (gate_pulse h) = serial h /\ counter (gate_pulse h) = counter h.
Proof.
  rewrite gate_pulse_spec.
  destruct (getMotion6_snd h) as (_ & _ & _ & _ & Hs & Hc).
  cbn. now rewrite Hs, Hc.
Qed.

Lemma getMotion6_motion h : motion (snd (getMotion6 h)) = skipn 1 (motion h).
Proof.
  destruct (getMotion6_snd h) as (_ & -> & _). now destruct (motion h).
Qed.

(** The acquisition loop only pulses the gate: one reading taken, one
    pulse made, each within its bounds; the time it takes is that of
    the pulses and of the sensor reads. *)
Lemma gate_loop_shape startTime : forall fuel h,
  Forall motion_int16 (motion h) ->
  exists gs : list Z,
    trace (gate_loop fuel startTime h) = (gate_pulses gs ++ trace h)%list
    /\ Forall gate_time_ok gs
    /\ (length gs <= fuel)%nat
    /\ micros (gate_loop fuel startTime h)
       = micros h + pulses_time gs + reads_time (length gs) (sensor_us h)
    /\ motion (gate_loop fuel startTime h) = skipn (length gs) (motion h)
    /\ sensor_us (gate_loop fuel startTime h) = skipn (length gs) (sensor_us h)
    /\ serial (gate_loop fuel startTime h) = serial h
    /\ counter (gate_loop fuel startTime h) = counter h.
Proof.
  induction fuel as [|fuel IH]; intros h Hmotion; cbn [gate_loop].
  - exists []. cbn [gate_pulses app pulses_time reads_time length skipn].
    split; [reflexivity|]. split; [constructor|]. split; [lia|].
    split; [lia|]. split; [reflexivity|]. split; [reflexivity|].
    split; reflexivity.
  - destruct (wrap_u32 (hw_millis h - startTime) <? 200).
    + destruct (getMotion6_int16 h Hmotion) as (Hm & Hrest).
      destruct (IH (gate_pulse h))
        as (gs & Htrace & Hok & Hlen & Htime & Hmot & Hsen & Hser & Hcnt).
      { now rewrite gate_pulse_motion. }
      destruct (gate_pulse_keeps h) as [Hs1 Hc1].
      assert (Hsize : length (gs ++ [gateTime (fst (getMotion6 h))])%list
                      = S (length gs))
        by (rewrite length_app; cbn; lia).
      exists (gs ++ [gateTime (fst (getMotion6 h))])%list.
      rewrite Hsize.
      split.
      { rewrite Htrace, gate_pulse_trace, gate_pulses_app, <- app_assoc.
        cbn [gate_pulses gate_pulse_events app]. reflexivity. }
      split.
      { apply Forall_app. split; [assumption|].
        constructor; [|constructor]. now apply gateTime_bounds. }
      split; [lia|].
      split.
      { rewrite Htime, gate_pulse_micros, gate_pulse_sensor, pulses_time_app.
        cbn [pulses_time reads_time]. lia. }
      split.
      { rewrite Hmot, gate_pulse_motion, getMotion6_motion, skipn_skipn.
        f_equal. lia. }
      split.
      { rewrite Hsen, gate_pulse_sensor. apply skipn_tl. }
      split; congruence.
    + exists []. cbn [gate_pulses app pulses_time reads_time length skipn].
      split; [reflexivity|]. split; [constructor|]. split; [lia|].
      split; [lia|]. split; [reflexivity|]. split; [reflexivity|].
      split; reflexivity.
Qed.

(** The reading of the millisecond clock over a stretch short of 2^32
    ms is not disturbed by the wrap-around of [millis()]. *)
Lemma millis_elapsed t0 t :
  0 <= t - t0 <= 201118 + 2 ^ 32 ->
  wrap_u32 (wrap_u32 (t / 1000) - wrap_u32 (t0 / 1000)) = t / 1000 - t0 / 1000.
Proof.
  intros Ht. unfold wrap_u32.
  rewrite <- Zminus_mod. apply Z.mod_small. dlia.
Qed.

Lemma readCounter_keeps h :
  micros (snd (readCounter h)) = micros h
  /\ trace (snd (readCounter h)) = trace h
  /\ motion (snd (readCounter h)) = motion h
  /\ sensor_us (snd (readCounter h)) = sensor_us h
  /\ serial (snd (readCounter h)) = serial h
  /\ counter (snd (readCounter h)) = tl (counter h).
Proof. unfold readCounter. cbn. auto 7. Qed.

(** The whole of [generateRandomByte]. *)
Lemma generateRandomByte_run h :
  Forall motion_int16 (motion h) ->
  sensor_prompt h ->
  exists gs : list Z,
    trace (snd (generateRandomByte h))
    = (gate_pulses gs ++ reset_pulse ++ trace h)%list
    /\ Forall gate_time_ok gs
    /\ (1 <= length gs <= acquisition_turns)%nat
    /\ micros (snd (generateRandomByte h))
       = micros h + 10 + pulses_time gs + reads_time (length gs) (sensor_us h)
    /\ 199001 <= pulses_time gs + reads_time (length gs) (sensor_us h)
    /\ 200 <= micros (snd (generateRandomByte h)) / 1000 - (micros h + 10) / 1000
    /\ motion (snd (generateRandomByte h)) = skipn (length gs) (motion h)
    /\ sensor_us (snd (generateRandomByte h)) = skipn (length gs) (sensor_us h)
    /\ serial (snd (generateRandomByte h)) = serial h
    /\ counter (snd (generateRandomByte h)) = tl (counter h).
Proof.
  intros Hmotion Hprompt. unfold generateRandomByte.
  set (h0 := digitalWrite COUNTER_RESET_PIN false
               (delayMicroseconds 10 (digitalWrite COUNTER_RESET_PIN true h))).
  set (h1 := gate_loop acquisition_turns (hw_millis h0) h0).
  destruct (readCounter_keeps h1) as (Hmic & Htr & Hmot & Hsen & Hser & Hcnt).
  destruct (gate_loop_shape (hw_millis h0) acquisition_turns h0 Hmotion)
    as (gs & Htrace & Hok & Hlen & Htime & Hmot1 & Hsen1 & Hser1 & Hcnt1).
  fold h1 in Htrace, Htime, Hmot1, Hsen1, Hser1, Hcnt1.
  destruct (gate_loop_closes (micros h0) acquisition_turns h0 Hmotion Hprompt)
    as [Hexit Hrange]; [lia | unfold acquisition_turns; lia |].
  change (gate_loop acquisition_turns (wrap_u32 (micros h0 / 1000)) h0) with h1
    in Hexit, Hrange.
  unfold hw_millis in Hexit. rewrite millis_elapsed in Hexit by exact Hrange.
  apply Z.ltb_ge in Hexit.
  change (micros h0) with (micros h + 10) in *.
  change (sensor_us h0) with (sensor_us h) in *.
  assert (Hlong : 199001 <= pulses_time gs + reads_time (length gs) (sensor_us h))
    by dlia.
  exists gs. rewrite Hmic, Htr, Hmot, Hsen, Hser, Hcnt.
  split; [rewrite Htrace; reflexivity|].
  split; [exact Hok|].
  split.
  { split; [|exact Hlen].
    destruct gs; [cbn [pulses_time reads_time length] in Hlong; lia | cbn; lia]. }
  split; [rewrite Htime; lia|].
  split; [exact Hlong|]. split; [exact Hexit|].
  split; [exact Hmot1|]. split; [exact Hsen1|].
  split; [exact Hser1 | now rewrite Hcnt1].
Qed.

(** Reads that are yet to come are as prompt as all were. *)
Lemma sensor_prompt_skipn h h' n :
  sensor_us h' = skipn n (sensor_us h) -> sensor_prompt h -> sensor_prompt h'.
Proof.
  unfold sensor_prompt. intros ->. generalize (sensor_us h). intros us.
  revert us. induction n as [|n IH]; intros [|u us] Hus; cbn; auto.
  inversion Hus; subst. auto.
Qed.

Lemma motion_int16_skipn n : forall l,
  Forall motion_int16 l -> Forall motion_int16 (skipn n l).
Proof.
  induction n as [|n IH]; intros [|m l] Hl; cbn; auto.
  inversion Hl; subst. auto.
Qed.

Lemma readCounter_bits h (i : nat) :
  (i < 8)%nat ->
  Z.testbit (fst (readCounter h)) (Z.of_nat i)
  = hd (fun _ : Z => false) (counter h) (nth i counterPins 0).
Proof.
  intros Hi. unfold readCounter. cbn [fst for_range nth counterPins].
  generalize (hd (fun _ : Z => false) (counter h)). intros pins.
  do 8 (destruct i as [|i]; [
    cbn [nth Z.of_nat];
    destruct (pins 4), (pins 5), (pins 15), (pins 16),
      (pins 17), (pins 18), (pins 19), (pins 23); reflexivity |]).
  lia.
Qed.

End GatingFacts.

(** X4.  [readCounter] packs the eight counter pins into one byte, the
    first pin of [counterPins] as bit 0: bit [i] of the result is set
    exactly when pin number [i] reads HIGH.  It changes nothing on the
    board (the model only moves on to the next reading). *)
Theorem readCounter_packs_pins (h : Hw) :
  let pins := hd (fun _ : Z => false) (counter h) in
  is_byte (fst (readCounter h))
  /\ (forall i : nat, (i < 8)%nat ->
        Z.testbit (fst (readCounter h)) (Z.of_nat i) = pins (nth i counterPins 0))
  /\ snd (readCounter h) = with_counter (tl (counter h)) h.
Proof.
  intros pins.
  split; [apply SamplerFacts.readCounter_byte|].
  split; [intros i Hi; now apply GatingFacts.readCounter_bits | reflexivity].
Qed.

(** X5.  With 16-bit motion readings, and however long the reads of the
    motion sensor take (each less than 2^32 microseconds),
    [generateRandomByte] leaves its acquisition loop because the
    millisecond clock has advanced by 200 since the loop began, not
    because the turns of the model ran out: the call returns a byte, no
    sooner than 199011 microseconds after it was made, has sent nothing
    on the serial port, and has read the counter once. *)
Theorem generateRandomByte_fills_window (h : Hw) :
  Forall motion_int16 (motion h) ->
  sensor_prompt h ->
  let '(b, h') := generateRandomByte h in
  is_byte b
  /\ 199011 <= micros h' - micros h
  /\ 200 <= micros h' / 1000 - (micros h + 10) / 1000
  /\ serial h' = serial h
  /\ counter h' = tl (counter h).
Proof.
  intros Hmotion Hprompt.
  pose proof (SamplerFacts.generateRandomByte_byte h) as Hbyte.
  destruct (GatingFacts.generateRandomByte_run h Hmotion Hprompt)
    as (gs & _ & _ & _ & Htime & Hrange & Hexit & _ & _ & Hser & Hcnt).
  destruct (generateRandomByte h) as [b h']. cbn [fst snd] in *.
  split; [exact Hbyte|]. split; [lia|].
  split; [exact Hexit|]. split; assumption.
Qed.

Lemma generateRandomByte_fills_window_witness :
  let h := mkHw 0 [] [400%N; 1500%N; 400%N] [] [] "" in
  199011 <= micros (snd (generateRandomByte h)).
Proof.
  intros h.
  assert (Hprompt : sensor_prompt h)
    by (repeat constructor).
  pose proof (generateRandomByte_fills_window h (Forall_nil _) Hprompt) as H.
  destruct (generateRandomByte h) as [b h'].
  destruct H as (_ & Htime & _). cbn [snd].
  change (micros h) with 0 in Htime. lia.
Defined.

(** X6.  With 16-bit motion readings, and however long the reads of the
    motion sensor take (each less than 2^32 microseconds), all that
    [generateRandomByte] does on the output pins is one reset pulse of
    the counter followed by gate pulses: each raises the gate, waits
    between 10 and 109 microseconds, lowers it and waits 10
    microseconds, so the gate is never left open.  One motion reading
    is taken per pulse; there is at least one pulse, and no more than
    10050. *)
Theorem generateRandomByte_gating (h : Hw) :
  Forall motion_int16 (motion h) ->
  sensor_prompt h ->
  exists gs : list Z,
    trace (snd (generateRandomByte h))
    = (gate_pulses gs ++ reset_pulse ++ trace h)%list
    /\ Forall gate_time_ok gs
    /\ 1 <= Z.of_nat (length gs) <= 10050
    /\ motion (snd (generateRandomByte h)) = skipn (length gs) (motion h)
    /\ sensor_us (snd (generateRandomByte h)) = skipn (length gs) (sensor_us h).
Proof.
  intros Hmotion Hprompt.
  destruct (GatingFacts.generateRandomByte_run h Hmotion Hprompt)
    as (gs & Htrace & Hok & Hlen & _ & _ & _ & Hmot & Hsen & _).
  exists gs.
  split; [exact Htrace|]. split; [exact Hok|].
  split; [|split; [exact Hmot | exact Hsen]].
  unfold acquisition_turns in Hlen. lia.
Qed.

Lemma generateRandomByte_gating_witness :
  let h := mkHw 0 [] [400%N; 1500%N; 400%N] [] [] "" in
  exists gs : list Z,
    trace (snd (generateRandomByte h)) = (gate_pulses gs ++ reset_pulse)%list
    /\ Forall gate_time_ok gs.
Proof.
  intros h.
  assert (Hprompt : sensor_prompt h)
    by (repeat constructor).
  destruct (generateRandomByte_gating h (Forall_nil _) Hprompt)
    as (gs & Htrace & Hok & _).
  exists gs. split; [|exact Hok].
  rewrite Htrace. now rewrite app_nil_r.
Defined.

(** ** Reading reports back *)

Module ParseFacts.

Import Print Reference Words PrintFacts.
Local Open Scope string_scope.
Local Open Scope Z_scope.

Lemma unhex_pair b :
  is_byte b ->
  16 * hex_digit_value (digit_char (b / 16)) + hex_digit_value (digit_char (b mod 16))
  = b.
Proof.
  intros Hb. apply Z.eqb_eq.
  apply (byte_cases (fun b =>
    16 * hex_digit_value (digit_char (b / 16))
    + hex_digit_value (digit_char (b mod 16)) =? b)); [|assumption].
  vm_compute. reflexivity.
Qed.

Lemma unhex_hex_string l : Forall is_byte l -> unhex (hex_string l) = l.
Proof.
  induction 1 as [|b l Hb Hl IH]; [reflexivity|].
  cbn [hex_string fold_right]. fold (hex_string l).
  unfold hex_pair. cbn [append unhex].
  now rewrite unhex_pair, IH.
Qed.

Lemma until_comma_app a r :
  string_forall no_comma a = true ->
  until_comma (a ++ String "," r) = (a, r).
Proof.
  induction a as [|c a IH]; intros Ha; [reflexivity|].
  cbn [string_forall] in Ha. apply andb_true_iff in Ha as [Hc Ha].
  cbn [append until_comma]. unfold no_comma in Hc.
  destruct (Ascii.eqb c ","); [discriminate|].
  now rewrite IH.
Qed.

Lemma is_digit_no_comma c : is_digit c = true -> no_comma c = true.
Proof.
  intros Hd. unfold no_comma.
  destruct (Ascii.eqb c ",") eqn:He; [|reflexivity].
  apply Ascii.eqb_eq in He. subst c. discriminate.
Qed.

Lemma is_decimal_no_comma s : is_decimal s = true -> string_forall no_comma s = true.
Proof.
  unfold is_decimal. destruct s as [|c r]; [discriminate|].
  destruct (Ascii.eqb c "-") eqn:He; intros Hd.
  - apply Ascii.eqb_eq in He. subst c. cbn [string_forall].
    now rewrite (string_forall_impl _ _ _ is_digit_no_comma Hd).
  - exact (string_forall_impl _ _ _ is_digit_no_comma Hd).
Qed.

(** A line assembled from texts of the right kinds is read back. *)
Lemma parse_report_texts lenText levelText keyText :
  is_decimal lenText = true -> is_decimal levelText = true ->
  string_forall is_hex_digit keyText = true ->
  String.length keyText = 32%nat ->
  parse_report ("LEN:" ++ lenText ++ ",COMPLEX:" ++ levelText ++ ",KEY:" ++ keyText)
  = Some (decimal_value lenText, decimal_value levelText, unhex keyText).
Proof.
  intros Hlen Hlevel Hkey H32. unfold parse_report.
  cbn [append strip_prefix Ascii.eqb Bool.eqb].
  rewrite (until_comma_app lenText) by now apply is_decimal_no_comma.
  cbn [append strip_prefix Ascii.eqb Bool.eqb].
  rewrite (until_comma_app levelText) by now apply is_decimal_no_comma.
  cbn [append strip_prefix Ascii.eqb Bool.eqb].
  now rewrite Hlen, Hlevel, Hkey, H32.
Qed.

End ParseFacts.

(** X7.  A report can be read back: for every length and level that fit
    an [int] and every 16-byte key, splitting the line written by
    [sendToPC] at its two commas, reading the two decimal numerals and
    decoding the 32 hexadecimal digits two by two gives back the
    length, the level and the key bytes. *)
Theorem report_reads_back (s : State) (key : list Z) :
  length key = 16%nat -> Forall is_byte key ->
  - 2 ^ 31 <= passwordLength s < 2 ^ 31 ->
  - 2 ^ 31 <= complexityLevel s < 2 ^ 31 ->
  let line := report_line (passwordLength s) (complexityLevel s) key in
  serial (hw (sendToPC key s)) = serial (hw s) ++ line ++ newline
  /\ parse_report line = Some (passwordLength s, complexityLevel s, key)
  /\ unhex (hex_string key) = key.
Proof.
  intros Hlen Hbytes Hpl Hcl line. subst line.
  destruct (PrintFacts.print_long_decimal _ Hpl) as [Hd1 Hv1].
  destruct (PrintFacts.print_long_decimal _ Hcl) as [Hd2 Hv2].
  pose proof (PrintFacts.hex_string_digits key Hbytes) as Hhex.
  pose proof (ParseFacts.unhex_hex_string key Hbytes) as Hunhex.
  split.
  - rewrite ReportFacts.sendToPC_spec by assumption. reflexivity.
  - split; [|exact Hunhex].
    unfold report_line.
    rewrite ParseFacts.parse_report_texts;
      [ | exact Hd1 | exact Hd2 | exact Hhex
        | rewrite PrintFacts.hex_string_length, Hlen; reflexivity ].
    now rewrite Hv1, Hv2, Hunhex.
Qed.

Lemma report_reads_back_witness :
  parse_report (report_line 16 5 (map Z.of_nat (seq 0 16)))
  = Some (16, 5, map Z.of_nat (seq 0 16)).
Proof.
  assert (Hbytes : Forall is_byte (map Z.of_nat (seq 0 16))).
  { apply Forall_forall. intros x Hx. apply in_map_iff in Hx as (n & <- & Hn).
    apply in_seq in Hn. unfold is_byte. lia. }
  exact (proj1 (proj2 (report_reads_back (boot idle_board) (map Z.of_nat (seq 0 16))
                         eq_refl Hbytes ltac:(cbn; lia) ltac:(cbn; lia)))).
Defined.

(** ** Generation and the serial traffic *)

Module TrafficFacts.

Import Print Reference Words Firmware SamplerFacts MenuFacts RunFacts FrameFacts
  GatingFacts.
Local Open Scope string_scope.
Local Open Scope Z_scope.

Lemma gate_loop_serial startTime : forall fuel h,
  serial (gate_loop fuel startTime h) = serial h.
Proof.
  induction fuel as [|fuel IH]; intros h; cbn [gate_loop]; [reflexivity|].
  destruct (_ <? 200); [|reflexivity].
  rewrite IH. apply gate_pulse_keeps.
Qed.

Lemma generateRandomByte_serial h :
  serial (snd (generateRandomByte h)) = serial h.
Proof.
  unfold generateRandomByte.
  destruct (readCounter_keeps
              (gate_loop acquisition_turns
                 (hw_millis
                    (digitalWrite COUNTER_RESET_PIN false
                       (delayMicroseconds 10
                          (digitalWrite COUNTER_RESET_PIN true h))))
                 (digitalWrite COUNTER_RESET_PIN false
                    (delayMicroseconds 10 (digitalWrite COUNTER_RESET_PIN true h)))))
    as (_ & _ & _ & _ & Hser & _).
  rewrite Hser, gate_loop_serial. reflexivity.
Qed.

Lemma sample_n_serial : forall n h,
  serial (snd (sample_n n generateRandomByte h)) = serial h.
Proof.
  induction n as [|n IH]; intros h; cbn [sample_n]; [reflexivity|].
  pose proof (generateRandomByte_serial h) as H1.
  destruct (generateRandomByte h) as [b h1]. cbn [snd] in H1.
  specialize (IH h1). destruct (sample_n n generateRandomByte h1) as [bs h2].
  cbn [snd] in *. congruence.
Qed.

(** [n] bytes take [n] acquisition windows at the least. *)
Lemma sample_n_time : forall n h,
  Forall motion_int16 (motion h) ->
  sensor_prompt h ->
  Z.of_nat n * 199011
  <= micros (snd (sample_n n generateRandomByte h)) - micros h.
Proof.
  induction n as [|n IH]; intros h Hmotion Hprompt; cbn [sample_n]; [cbn; lia|].
  destruct (generateRandomByte_run h Hmotion Hprompt)
    as (gs & _ & _ & _ & Htime & Hrange & _ & Hmot & Hsen & _).
  destruct (generateRandomByte h) as [b h1]. cbn [snd] in *.
  assert (Hmotion1 : Forall motion_int16 (motion h1))
    by (rewrite Hmot; now apply motion_int16_skipn).
  assert (Hprompt1 : sensor_prompt h1)
    by now apply (sensor_prompt_skipn h h1 (length gs)).
  specialize (IH h1 Hmotion1 Hprompt1).
  destruct (sample_n n generateRandomByte h1) as [bs h2]. cbn [snd] in *.
  lia.
Qed.

Lemma runPasswordGeneration_spec s :
  length (generatedKey s) = 16%nat ->
  let raw := fst (sample_n 16 generateRandomByte (hw s)) in
  let h16 := snd (sample_n 16 generateRandomByte (hw s)) in
  let protected := AES.aes128_enc_single encryptionKey raw in
  runPasswordGeneration s
  = delay 2000
      (sendToPC protected (with_generatedKey protected (with_hw h16 s))).
Proof.
  intros Hkey. cbv zeta. unfold runPasswordGeneration.
  rewrite fillGeneratedKey_spec by assumption.
  destruct (sample_n 16 generateRandomByte (hw s)) as [raw h16].
  reflexivity.
Qed.

(** What a generation does to the data of the reports. *)
Lemma runPasswordGeneration_payload s :
  length (generatedKey s) = 16%nat ->
  let s' := runPasswordGeneration s in
  passwordLength s' = passwordLength s
  /\ complexityLevel s' = complexityLevel s
  /\ length (generatedKey s') = 16%nat
  /\ Forall is_byte (generatedKey s')
  /\ serial (hw s')
     = serial (hw s)
       ++ report_line (passwordLength s) (complexityLevel s) (generatedKey s')
       ++ newline.
Proof.
  intros Hkey. cbv zeta.
  rewrite runPasswordGeneration_spec by assumption.
  set (raw := fst (sample_n 16 generateRandomByte (hw s))).
  set (h16 := snd (sample_n 16 generateRandomByte (hw s))).
  set (protected := AES.aes128_enc_single encryptionKey raw).
  assert (Hlen : length protected = 16%nat)
    by apply AESFacts.aes128_enc_single_length.
  assert (Hbytes : Forall is_byte protected)
    by apply AESFacts.bytes_of_block_bytes.
  rewrite ReportFacts.sendToPC_spec by assumption.
  cbn [delay with_hw with_generatedKey passwordLength complexityLevel
       generatedKey hw Serial_print with_serial serial hw_delay with_micros].
  split; [reflexivity|]. split; [reflexivity|].
  split; [exact Hlen|]. split; [exact Hbytes|].
  subst h16. rewrite sample_n_serial. reflexivity.
Qed.

Lemma untouched_payload s s' :
  untouched s' = untouched s ->
  generatedKey s' = generatedKey s /\ serial (hw s') = serial (hw s).
Proof. unfold untouched. intros H. injection H as _ _ Hkey _ _ _ Hser. auto. Qed.

Section Kept.

Variable P : string -> Prop.
Hypothesis P_more : takes_reports P.

Lemma kept_ext s s' :
  payload s' = payload s -> kept P s -> kept P s'.
Proof.
  unfold payload, kept, data_ok, settings_ok, length_ok.
  intros H. injection H as -> -> -> ->. auto.
Qed.

(** An editor or the About screen: the settings stay in range and the
    rest of the payload is as it was. *)
Lemma screen_kept s s' :
  settings_ok s' -> untouched s' = untouched s -> kept P s -> kept P s'.
Proof.
  intros Hset Hsame ((_ & Hlen & Hbytes) & Hrep).
  destruct (untouched_payload s s' Hsame) as [Hkey Hser].
  unfold kept, data_ok. rewrite Hkey, Hser. auto.
Qed.

Lemma runPasswordGeneration_kept s :
  kept P s -> kept P (runPasswordGeneration s).
Proof.
  intros (((Hpl & Hcl) & Hlen & Hbytes) & Hrep).
  destruct (runPasswordGeneration_payload s Hlen)
    as (Hpl' & Hcl' & Hlen' & Hbytes' & Hser).
  unfold kept, data_ok, settings_ok, length_ok.
  rewrite Hpl', Hcl', Hser.
  split; [auto|].
  now apply P_more.
Qed.

Lemma performAction_kept polls s :
  kept P s -> kept P (state_of (performAction polls s)).
Proof.
  intros Hs. pose proof Hs as ((Hset & _) & _). unfold performAction.
  destruct (selector s =? 0); [now apply runPasswordGeneration_kept|].
  destruct (selector s =? 1).
  { apply (screen_kept s); [now apply chooseLength_settings
                           | apply chooseLength_untouched | exact Hs]. }
  destruct (selector s =? 2).
  { apply (screen_kept s); [now apply chooseComplexity_settings
                           | apply chooseComplexity_untouched | exact Hs]. }
  destruct (selector s =? 3).
  { apply (screen_kept s); [now apply displayAbout_settings
                           | apply displayAbout_untouched | exact Hs]. }
  exact Hs.
Qed.

Lemma handleInput_kept p polls s :
  kept P s -> kept P (state_of (handleInput p polls s)).
Proof.
  intros Hs. unfold handleInput.
  destruct (sinceLastDebounce (tick p s) <? debounceDelay); [exact Hs|].
  set (s1 := if upPressed p then _ else tick p s).
  set (s2 := if downPressed p then _ else s1).
  set (s3 := if selector s2 <? top_line_index s2 then _ else s2).
  set (s4 := if top_line_index s3 + 3 <=? selector s3 then _ else s3).
  assert (H4 : kept P s4).
  { apply (kept_ext s); [|exact Hs].
    subst s4 s3 s2 s1; split_ifs; reflexivity. }
  clearbody s4. apply bind_preserves.
  - destruct (selectPressed p); [now apply performAction_kept | exact H4].
  - intros s' rest Hs'. destruct (_ || _); exact Hs'.
Qed.

Lemma loop_n_kept : forall n polls s,
  kept P s -> kept P (state_of (loop_n n polls s)).
Proof.
  induction n as [|n IH]; intros polls s Hs; cbn [loop_n state_of];
    [destruct polls; assumption|].
  destruct polls as [|p rest]; [assumption|].
  apply bind_preserves; [now apply handleInput_kept|].
  intros s' rest' Hs'. now apply IH.
Qed.

End Kept.

Lemma boot_data h : data_ok (boot h).
Proof.
  split; [apply boot_settings|]. split; [reflexivity|].
  cbn. repeat constructor; unfold is_byte; lia.
Qed.

End TrafficFacts.

(** X8.  Over any run of [loop()] from a state with the settings in
    range and a 16-byte key buffer, the settings stay in range (length
    8..64, level 0..5) and the key buffer stays 16 bytes, each within
    0..255: the menu, the editors, the About screen and the generation
    all keep it so. *)
Theorem data_kept (polls : list Poll) (s : State) :
  data_ok s -> data_ok (state_of (run polls s)).
Proof.
  intros Hs.
  apply (TrafficFacts.loop_n_kept (fun _ => True)); [now intros ? | split; auto].
Qed.

Lemma data_kept_witness :
  data_ok (state_of (run [mkPoll 300000 false true false; mkPoll 300000 false false true;
                          mkPoll 300000 true false false; mkPoll 300000 false false true]
                         (boot idle_board))).
Proof. apply data_kept. apply TrafficFacts.boot_data. Defined.

Module CountFacts.

Import Print Reference Words CountWords Firmware MenuFacts RunFacts FrameFacts
  TrafficFacts.
Local Open Scope string_scope.
Local Open Scope Z_scope.

Lemma selects_app a b : selects (a ++ b) = (selects a + selects b)%nat.
Proof. unfold selects. now rewrite filter_app, length_app. Qed.

Lemma selects_cons p polls :
  selects (p :: polls)
  = ((if selectPressed p then 1 else 0) + selects polls)%nat.
Proof. unfold selects. cbn [filter]. now destruct (selectPressed p). Qed.

Lemma hands_back_left r polls :
  hands_back r polls -> (selects_left r <= selects polls)%nat.
Proof.
  destruct r as [s rest|s]; cbn; [|lia].
  intros (used & ->). rewrite selects_app. lia.
Qed.

Lemma hands_back_bind r k polls :
  hands_back r polls ->
  (forall s rest, exists s', k s rest = Done s' rest) ->
  hands_back (bind r k) polls.
Proof.
  destruct r as [s rest|s]; cbn; [|auto].
  intros Hr Hk. destruct (Hk s rest) as [s' ->]. exact Hr.
Qed.

Lemma hands_back_cons p r polls :
  hands_back r polls -> hands_back r (p :: polls).
Proof.
  destruct r as [s rest|s]; cbn; [|auto].
  intros (used & ->). now exists (p :: used).
Qed.

Lemma chooseLength_hands_back polls s : hands_back (chooseLength polls s) polls.
Proof.
  unfold chooseLength. apply hands_back_bind; [|eauto].
  revert s. induction polls as [|p polls IH]; intros s;
    cbn [chooseLength_loop hands_back]; [exact I|].
  destruct (chooseLength_turn p s) as [s' setting].
  destruct setting; [apply hands_back_cons, IH | now exists [p]].
Qed.

Lemma chooseComplexity_hands_back polls s :
  hands_back (chooseComplexity polls s) polls.
Proof.
  unfold chooseComplexity. apply hands_back_bind; [|eauto].
  generalize (complexityLevel s). intros t.
  revert t s. induction polls as [|p polls IH]; intros t s;
    cbn [chooseComplexity_loop hands_back]; [exact I|].
  destruct (chooseComplexity_turn p t s) as [[t' s'] setting].
  destruct setting; [apply hands_back_cons, IH | now exists [p]].
Qed.

Lemma displayAbout_hands_back polls s : hands_back (displayAbout polls s) polls.
Proof.
  unfold displayAbout. apply hands_back_bind; [|eauto].
  generalize 1, false. intros a shown.
  revert a shown s. induction polls as [|p polls IH]; intros a shown s;
    cbn [displayAbout_loop hands_back]; [exact I|].
  destruct shown.
  - destruct (selectPressed p); apply hands_back_cons, IH.
  - destruct (debounceDelay <? sinceLastDebounce (tick p s));
      [|apply hands_back_cons, IH].
    destruct (upPressed p), (downPressed p), (selectPressed p);
      cbv beta iota zeta; split_ifs;
      first [apply hands_back_cons, IH | now exists [p]].
Qed.

Lemma reports_n_app a x : forall b y,
  reports_n a x -> reports_n b y -> reports_n (a + b) (x ++ y).
Proof.
  intros b y Hx Hy. induction Hy as [|b y len level key Hy IH Hl Hv Hk Hb].
  - now rewrite Nat.add_0_r, string_app_nil_r.
  - rewrite Nat.add_succ_r, <- string_app_assoc. now constructor.
Qed.

Lemma sent_same n s0 s s' :
  serial (hw s') = serial (hw s) -> sent n s0 s -> sent n s0 s'.
Proof. unfold sent. now intros ->. Qed.

Lemma sent_none s : sent 0 s s.
Proof. exists "". split; [now rewrite string_app_nil_r | constructor]. Qed.

Lemma sent_trans a b s0 s1 s2 :
  sent a s0 s1 -> sent b s1 s2 -> sent (a + b) s0 s2.
Proof.
  intros (x & Hx & Hrx) (y & Hy & Hry). exists (x ++ y). split.
  - now rewrite Hy, Hx, string_app_assoc.
  - now apply reports_n_app.
Qed.

(** A generation sends one report. *)
Lemma runPasswordGeneration_sent s :
  data_ok s -> sent 1 s (runPasswordGeneration s).
Proof.
  intros ((Hpl & Hcl) & Hlen & Hbytes).
  destruct (runPasswordGeneration_payload s Hlen)
    as (_ & _ & Hlen' & Hbytes' & Hser).
  exists (report_line (passwordLength s) (complexityLevel s)
            (generatedKey (runPasswordGeneration s)) ++ newline).
  split; [exact Hser|].
  apply (reports_n_more 0 ""); [constructor | exact Hpl | exact Hcl | | ];
    assumption.
Qed.

(** What an action sends, and the Select presses it leaves. *)
Lemma performAction_sent polls s :
  data_ok s ->
  exists j,
    sent j s (state_of (performAction polls s))
    /\ (j + selects_left (performAction polls s) <= 1 + selects polls)%nat.
Proof.
  intros Hs. unfold performAction.
  destruct (selector s =? 0).
  { exists 1%nat. split; [now apply runPasswordGeneration_sent | cbn; lia]. }
  destruct (selector s =? 1).
  { exists 0%nat. split.
    - apply (sent_same 0 s s); [|apply sent_none].
      apply (untouched_payload s), chooseLength_untouched.
    - pose proof (hands_back_left _ _ (chooseLength_hands_back polls s)). lia. }
  destruct (selector s =? 2).
  { exists 0%nat. split.
    - apply (sent_same 0 s s); [|apply sent_none].
      apply (untouched_payload s), chooseComplexity_untouched.
    - pose proof (hands_back_left _ _ (chooseComplexity_hands_back polls s)). lia. }
  destruct (selector s =? 3).
  { exists 0%nat. split.
    - apply (sent_same 0 s s); [|apply sent_none].
      apply (untouched_payload s), displayAbout_untouched.
    - pose proof (hands_back_left _ _ (displayAbout_hands_back polls s)). lia. }
  exists 0%nat. split; [apply sent_none | cbn; lia].
Qed.

Lemma handleInput_sent p polls s :
  data_ok s ->
  exists j,
    sent j s (state_of (handleInput p polls s))
    /\ (j + selects_left (handleInput p polls s) <= selects (p :: polls))%nat.
Proof.
  intros Hs. rewrite selects_cons. unfold handleInput.
  destruct (sinceLastDebounce (tick p s) <? debounceDelay).
  { exists 0%nat. split; [apply (sent_same 0 s s); [reflexivity | apply sent_none]|].
    cbn. lia. }
  set (s1 := if upPressed p then _ else tick p s).
  set (s2 := if downPressed p then _ else s1).
  set (s3 := if selector s2 <? top_line_index s2 then _ else s2).
  set (s4 := if top_line_index s3 + 3 <=? selector s3 then _ else s3).
  assert (H4 : payload s4 = payload s)
    by (subst s4 s3 s2 s1; split_ifs; reflexivity).
  clearbody s4.
  assert (Hd4 : data_ok s4).
  { apply (kept_ext (fun _ => True) s s4 H4). split; [exact Hs | exact I]. }
  assert (Hser4 : serial (hw s4) = serial (hw s))
    by (unfold payload in H4; congruence).
  assert (Hbind : forall r,
            serial (hw (state_of
              (bind r (fun s rest =>
                 if upPressed p || downPressed p || selectPressed p
                 then Done (stampDebounce s) rest else Done s rest))))
            = serial (hw (state_of r))
            /\ selects_left
                 (bind r (fun s rest =>
                    if upPressed p || downPressed p || selectPressed p
                    then Done (stampDebounce s) rest else Done s rest))
               = selects_left r).
  { intros [s' rest|s']; cbn [bind state_of]; [|split; reflexivity].
    destruct (_ || _); split; reflexivity. }
  destruct (selectPressed p) eqn:Hsel.
  - destruct (performAction_sent polls s4 Hd4) as (j & Hsent & Hleft).
    destruct (Hbind (performAction polls s4)) as [Hser Hsame].
    exists j. rewrite Hsame. split; [|lia].
    destruct Hsent as (more & Hmore & Hrep). exists more.
    split; [rewrite Hser, Hmore, Hser4; reflexivity | exact Hrep].
  - destruct (Hbind (Done s4 polls)) as [Hser Hsame].
    exists 0%nat. rewrite Hsame. split; [|cbn; lia].
    apply (sent_same 0 s s); [|apply sent_none].
    rewrite Hser. exact Hser4.
Qed.

Lemma handleInput_data p polls s :
  data_ok s -> data_ok (state_of (handleInput p polls s)).
Proof.
  intros Hs.
  apply (handleInput_kept (fun _ => True)); [now intros ? | split; auto].
Qed.

Lemma loop_n_sent : forall n polls s,
  data_ok s ->
  exists j,
    sent j s (state_of (loop_n n polls s)) /\ (j <= selects polls)%nat.
Proof.
  induction n as [|n IH]; intros polls s Hs; cbn [loop_n].
  { exists 0%nat. split; [destruct polls; apply sent_none | lia]. }
  destruct polls as [|p rest].
  { exists 0%nat. split; [apply sent_none | lia]. }
  destruct (handleInput_sent p rest s Hs) as (j1 & Hsent1 & Hleft).
  pose proof (handleInput_data p rest s Hs) as Hdata.
  destruct (handleInput p rest s) as [s1 rest1|s1];
    cbn [bind state_of selects_left] in *.
  - destruct (IH rest1 s1 Hdata) as (j2 & Hsent2 & Hj2).
    exists (j1 + j2)%nat. split; [now apply (sent_trans j1 j2 s s1) | lia].
  - exists j1. split; [exact Hsent1 | lia].
Qed.

Lemma reports_n_zero out : reports_n 0 out -> out = "".
Proof. now inversion 1. Qed.

End CountFacts.

Import CountWords.

(** X9.  Whatever the buttons do, the serial output after a run of
    [loop()] is the output before it followed by whole report lines and
    nothing else, each [LEN:<8..64>,COMPLEX:<0..5>,KEY:<16 bytes in hex>]
    and a line end, and there are no more of them than polls with
    Select pressed: a run in which Select is never pressed sends
    nothing.  Both editors and the About screen leave the serial output
    as it was, whatever the buttons do in them; a generation appends
    exactly one report, with the settings and the key it has produced. *)
Theorem serial_reports_only (polls : list Poll) (s : State) :
  data_ok s ->
  (exists (n : nat) (more : string),
      serial (hw (state_of (run polls s))) = serial (hw s) ++ more
      /\ reports_n n more
      /\ (n <= selects polls)%nat)
  /\ (selects polls = 0%nat ->
      serial (hw (state_of (run polls s))) = serial (hw s))
  /\ (forall (sub : list Poll) (s' : State),
        serial (hw (state_of (chooseLength sub s'))) = serial (hw s')
        /\ serial (hw (state_of (chooseComplexity sub s'))) = serial (hw s')
        /\ serial (hw (state_of (displayAbout sub s'))) = serial (hw s'))
  /\ (forall s' : State,
        length (generatedKey s') = 16%nat ->
        serial (hw (runPasswordGeneration s'))
        = serial (hw s')
          ++ report_line (passwordLength s') (complexityLevel s')
               (generatedKey (runPasswordGeneration s'))
          ++ newline).
Proof.
  intros Hs.
  destruct (CountFacts.loop_n_sent (length polls) polls s Hs)
    as (n & (more & Hmore & Hrep) & Hn).
  fold (run polls s) in Hmore.
  split; [now exists n, more|].
  split.
  { intros Hnone. assert (n = 0%nat) as -> by lia.
    apply CountFacts.reports_n_zero in Hrep. subst more.
    now rewrite Hmore, string_app_nil_r. }
  split.
  { intros sub s'.
    split; [apply (TrafficFacts.untouched_payload s'),
              FrameFacts.chooseLength_untouched|].
    split; [apply (TrafficFacts.untouched_payload s'),
              FrameFacts.chooseComplexity_untouched|].
    apply (TrafficFacts.untouched_payload s'), FrameFacts.displayAbout_untouched. }
  intros s' Hkey.
  apply (TrafficFacts.runPasswordGeneration_payload s' Hkey).
Qed.

Lemma serial_reports_only_witness :
  let down := mkPoll 300000 false true false in
  let up := mkPoll 300000 true false false in
  serial (hw (state_of (run [down; up; down; down] (boot idle_board))))
  = serial (hw (boot idle_board)).
Proof.
  intros down up.
  refine (proj1 (proj2 (serial_reports_only [down; up; down; down]
                          (boot idle_board) (TrafficFacts.boot_data _))) _).
  reflexivity.
Defined.

(** X10.  One generation, end to end: with 16-bit motion readings (the
    sensor reads taking any time below 2^32 microseconds each) and a
    16-byte key buffer, [runPasswordGeneration] leaves in [generatedKey]
    the AES-128 encryption, under the compiled-in key, of the 16 bytes
    it sampled; it sends exactly one report line, carrying the current
    length and level and that very key; it returns no sooner than
    5184176 microseconds after it was called (16 acquisition windows
    and the 2 s message); the menu position, the debounce stamp and the
    settings are as before. *)
Theorem runPasswordGeneration_report (s : State) :
  Forall motion_int16 (motion (hw s)) ->
  sensor_prompt (hw s) ->
  length (generatedKey s) = 16%nat ->
  let raw := fst (sample_n 16 generateRandomByte (hw s)) in
  let s' := runPasswordGeneration s in
  generatedKey s' = AES.aes128_enc_single encryptionKey raw
  /\ serial (hw s')
     = serial (hw s)
       ++ report_line (passwordLength s) (complexityLevel s) (generatedKey s')
       ++ newline
  /\ 5184176 <= micros (hw s') - micros (hw s)
  /\ (selector s', top_line_index s', lastDebounceTime s',
      passwordLength s', complexityLevel s')
     = (selector s, top_line_index s, lastDebounceTime s,
        passwordLength s, complexityLevel s).
Proof.
  intros Hmotion Hprompt Hkey. cbv zeta.
  destruct (TrafficFacts.runPasswordGeneration_payload s Hkey)
    as (_ & _ & _ & _ & Hser).
  split; [|split; [exact Hser|]]; clear Hser;
    rewrite TrafficFacts.runPasswordGeneration_spec by exact Hkey.
  - generalize (AES.aes128_enc_single encryptionKey
                  (fst (sample_n 16 generateRandomByte (hw s)))).
    intros protected. unfold sendToPC. reflexivity.
  - pose proof (TrafficFacts.sample_n_time 16 (hw s) Hmotion Hprompt) as Htime.
    rewrite ReportFacts.sendToPC_spec
      by (apply AESFacts.aes128_enc_single_length
          || apply AESFacts.bytes_of_block_bytes).
    match goal with |- context [Serial_print ?t _] => generalize t end.
    generalize (AES.aes128_enc_single encryptionKey
                  (fst (sample_n 16 generateRandomByte (hw s)))).
    revert Htime. generalize (snd (sample_n 16 generateRandomByte (hw s))).
    intros h16 Htime protected line.
    split; [|reflexivity].
    cbn [delay hw with_hw with_generatedKey hw_delay with_micros micros
         Serial_print with_serial].
    lia.
Qed.

Lemma runPasswordGeneration_report_witness :
  exists s : State,
    motion (hw s) = [Build_Motion 1 (-2) 3 (-4) 5 (-6)]
    /\ sensor_us (hw s) = [400%N; 1500%N]
    /\ 5184176 <= micros (hw (runPasswordGeneration s)) - micros (hw s).
Proof.
  exists (boot (mkHw 0 [Build_Motion 1 (-2) 3 (-4) 5 (-6)] [400%N; 1500%N]
                  [] [] "")).
  split; [reflexivity|]. split; [reflexivity|].
  assert (Hmotion : Forall motion_int16 [Build_Motion 1 (-2) 3 (-4) 5 (-6)]).
  { constructor; [|constructor]. unfold motion_int16, is_int16. cbn. lia. }
  assert (Hprompt : Forall (fun us => Z.of_N us < 2 ^ 32) [400%N; 1500%N])
    by (repeat constructor).
  pose proof (runPasswordGeneration_report
                (boot (mkHw 0 [Build_Motion 1 (-2) 3 (-4) 5 (-6)]
                         [400%N; 1500%N] [] [] ""))
                Hmotion Hprompt eq_refl) as H.
  cbv zeta in H. exact (proj1 (proj2 (proj2 H))).
Defined.

(** ** The padding, the key and the cipher wrappers of aes_crypto.cpp *)

Module UnpadFacts.

Import AesCrypto PaddingFacts DemoWords.
Local Open Scope Z_scope.

Lemma firstn_exact {A} (l rest : list A) : firstn (length l) (l ++ rest) = l.
Proof. now rewrite firstn_app, Nat.sub_diag, firstn_O, app_nil_r, firstn_all. Qed.

Lemma skipn_exact {A} (l rest : list A) : skipn (length l) (l ++ rest) = rest.
Proof. now rewrite skipn_app, Nat.sub_diag, skipn_all. Qed.

End UnpadFacts.

Import AesCrypto DemoWords.

(** X11.  [applyPadding] for an input of any length, as long as the
    length computation does not overflow [size_t] and the output buffer
    has room: the returned length is the next multiple of 16 strictly
    above the input length; the last padded byte is the number of bytes
    added, so dropping that many bytes gives the input back; the bytes
    of the buffer beyond the padded length are left as they were and the
    buffer keeps its size; and the padded length fits an array of 64
    bytes exactly when the input has at most 63 bytes. *)
Theorem applyPadding_unpad (input output : list Z) :
  let inputLen := Z.of_nat (length input) in
  inputLen < 2 ^ 32 - 16 ->
  (Z.to_nat ((inputLen / 16 + 1) * 16) <= length output)%nat ->
  let padded := fst (applyPadding input inputLen output) in
  let paddedLen := snd (applyPadding input inputLen output) in
  let padLen := nth (Z.to_nat (paddedLen - 1)) padded 0 in
  paddedLen mod 16 = 0
  /\ inputLen < paddedLen <= inputLen + 16
  /\ padLen = paddedLen - inputLen
  /\ unpad padded paddedLen = input
  /\ (forall i, (length input <= i < Z.to_nat paddedLen)%nat ->
                nth i padded 0 = padLen)
  /\ skipn (Z.to_nat paddedLen) padded = skipn (Z.to_nat paddedLen) output
  /\ length padded = length output
  /\ (paddedLen <= 64 <-> inputLen <= 63).
Proof.
  intros inputLen Hfit Hroom.
  pose proof (PaddingFacts.applyPadding_spec input output) as Hspec.
  cbv zeta in Hspec. fold inputLen in Hspec.
  set (paddedLen := (inputLen / 16 + 1) * 16) in *.
  assert (Hlen : 0 <= inputLen) by (subst inputLen; lia).
  assert (Hpad : 1 <= paddedLen - inputLen <= 16) by (subst paddedLen; dlia).
  rewrite Hspec by lia. clear Hspec. cbn [fst snd].
  set (k := Z.to_nat (paddedLen - inputLen)).
  assert (Hlast : forall i, (length input <= i < Z.to_nat paddedLen)%nat ->
            nth i (input ++ repeat (paddedLen - inputLen) k
                     ++ skipn (Z.to_nat paddedLen) output) 0
            = paddedLen - inputLen).
  { intros i Hi. apply PaddingFacts.nth_repeat_mid. subst k inputLen. lia. }
  assert (Hpadlen : nth (Z.to_nat (paddedLen - 1))
                      (input ++ repeat (paddedLen - inputLen) k
                         ++ skipn (Z.to_nat paddedLen) output) 0
                    = paddedLen - inputLen).
  { apply Hlast. subst inputLen. lia. }
  cbv zeta. unfold unpad. rewrite Hpadlen.
  split; [subst paddedLen; dlia|].
  split; [lia|].
  split; [reflexivity|].
  split.
  { replace (Z.to_nat (paddedLen - (paddedLen - inputLen))) with (length input)
      by (subst inputLen; lia).
    apply UnpadFacts.firstn_exact. }
  split; [exact Hlast|].
  split.
  { rewrite app_assoc.
    replace (Z.to_nat paddedLen)
      with (length (input ++ repeat (paddedLen - inputLen) k)) at 1
      by (rewrite length_app, repeat_length; subst k inputLen; lia).
    apply UnpadFacts.skipn_exact. }
  split.
  { rewrite !length_app, repeat_length, length_skipn. subst k inputLen. lia. }
  subst paddedLen. dlia.
Qed.

Lemma applyPadding_unpad_witness :
  unpad (fst (applyPadding [104; 105; 33] 3 (repeat 7 64))) 
        (snd (applyPadding [104; 105; 33] 3 (repeat 7 64)))
  = [104; 105; 33].
Proof.
  refine (proj1 (proj2 (proj2 (proj2
            (applyPadding_unpad [104; 105; 33] (repeat 7 64) _ _))))).
  - cbn. lia.
  - cbn. lia.
Defined.

Module DumpFacts.

Import Print Reference Words AesCrypto DemoWords PrintFacts.
Local Open Scope string_scope.
Local Open Scope Z_scope.

Lemma hex_dump_app a b : hex_dump (a ++ b)%list = hex_dump a ++ hex_dump b.
Proof.
  induction a as [|x a IH]; [reflexivity|].
  cbn [app hex_dump fold_right]. fold (hex_dump (a ++ b)%list). fold (hex_dump a).
  now rewrite IH, !string_app_assoc.
Qed.

Lemma firstn_snoc {A} (d : A) : forall n l,
  (n < length l)%nat -> firstn (S n) l = (firstn n l ++ [nth n l d])%list.
Proof.
  induction n as [|n IH]; intros [|x l] Hn; cbn in Hn; try lia.
  - reflexivity.
  - cbn [firstn nth app]. f_equal. rewrite <- IH by lia. reflexivity.
Qed.

Lemma print_for_S n (f : nat -> string) :
  print_for (S n) f = print_for n f ++ f n.
Proof. reflexivity. Qed.

(** The loop of [printHex] prints the dump of the bytes it walks over. *)
Lemma print_for_dump (data : list Z) : forall n,
  (n <= length data)%nat -> Forall is_byte (firstn n data) ->
  print_for n (fun i =>
    let b := nth i data 0 in
    (if b <? 16 then "0" else "") ++ print_byte b HEX ++ " ")
  = hex_dump (firstn n data).
Proof.
  induction n as [|n IH]; intros Hn Hbytes; [reflexivity|].
  rewrite (firstn_snoc 0) in * by lia.
  apply Forall_app in Hbytes as [Hfirst Hlast].
  inversion Hlast as [|b l Hb _]; subst.
  rewrite print_for_S, IH by (lia || assumption).
  rewrite hex_dump_app. f_equal. cbv beta zeta.
  rewrite <- string_app_assoc, hex_byte by assumption.
  cbn [hex_dump fold_right]. now rewrite string_app_nil_r.
Qed.

Lemma hex_dump_length l : String.length (hex_dump l) = (3 * length l)%nat.
Proof.
  induction l as [|b l IH]; [reflexivity|].
  cbn [hex_dump fold_right length]. fold (hex_dump l).
  rewrite !string_app_length, IH. cbn. lia.
Qed.

Lemma undump_hex_dump l : Forall is_byte l -> undump (hex_dump l) = l.
Proof.
  induction 1 as [|b l Hb Hl IH]; [reflexivity|].
  cbn [hex_dump fold_right]. fold (hex_dump l).
  unfold hex_pair. cbn [append undump]. rewrite IH. f_equal.
  pose proof (ParseFacts.unhex_pair b Hb) as Hpair.
  unfold hex_pair in Hpair. cbn [unhex] in Hpair. congruence.
Qed.

Lemma hex_dump_chars l :
  Forall is_byte l -> string_forall is_dump_char (hex_dump l) = true.
Proof.
  induction 1 as [|b l Hb Hl IH]; [reflexivity|].
  cbn [hex_dump fold_right]. fold (hex_dump l).
  rewrite !string_forall_app, IH, andb_true_r.
  rewrite (string_forall_impl is_hex_digit is_dump_char (hex_pair b)).
  - reflexivity.
  - intros c Hc. unfold is_dump_char. now rewrite Hc.
  - now apply hex_pair_digits.
Qed.

End DumpFacts.

(** X12.  [printHex] on the first [len] bytes of a buffer prints three
    characters for each byte, two upper-case hexadecimal digits and a
    blank, and then a line end; the bytes can be read back from the
    line. *)
Theorem printHex_reads_back (data : list Z) (len : nat) :
  (len <= length data)%nat ->
  Forall is_byte (firstn len data) ->
  let line := hex_dump (firstn len data) in
  printHex data (Z.of_nat len) = line ++ newline
  /\ String.length line = (3 * len)%nat
  /\ string_forall is_dump_char line = true
  /\ undump line = firstn len data.
Proof.
  intros Hlen Hbytes line. subst line.
  split.
  { unfold printHex. rewrite Nat2Z.id.
    now rewrite DumpFacts.print_for_dump. }
  split.
  { rewrite DumpFacts.hex_dump_length, length_firstn. lia. }
  split; [now apply DumpFacts.hex_dump_chars | now apply DumpFacts.undump_hex_dump].
Qed.

Lemma printHex_reads_back_witness :
  printHex [0; 171; 9; 255] 3 = "00 AB 09 " ++ newline.
Proof.
  refine (proj1 (printHex_reads_back [0; 171; 9; 255] 3 _ _)).
  - cbn. lia.
  - cbn. repeat constructor; unfold is_byte; lia.
Defined.

Module KeyFacts.

Import Print Reference AesCrypto Demo DemoWords.
Local Open Scope string_scope.
Local Open Scope Z_scope.

(** A check over every value [random(charSet_size)] can return. *)
Lemma random_cases (P : Z -> bool) :
  forallb (fun n => P (Z.of_nat n)) (seq 0 95) = true ->
  forall r, random_ok r -> P r = true.
Proof.
  intros Hall r [Hlo Hhi]. change charSet_size with 95 in Hhi.
  rewrite forallb_forall in Hall.
  specialize (Hall (Z.to_nat r)). rewrite Z2Nat.id in Hall by lia.
  apply Hall, in_seq. lia.
Qed.

Lemma charset_at_printable r :
  random_ok r -> is_printable_byte (charset_at r).
Proof.
  intros Hr. unfold is_printable_byte.
  assert (H : (32 <=? charset_at r) && (charset_at r <=? 126) = true).
  { revert r Hr. apply random_cases. vm_compute. reflexivity. }
  lia.
Qed.

(** The 95 characters of [charset] are all different. *)
Lemma charset_at_inj r r' :
  random_ok r -> random_ok r' -> charset_at r = charset_at r' -> r = r'.
Proof.
  intros Hr Hr' Heq.
  assert (H : forallb (fun n' => implb (charset_at r =? charset_at (Z.of_nat n'))
                                       (r =? Z.of_nat n'))
                (seq 0 95) = true).
  { clear Heq. revert r Hr. apply random_cases. vm_compute. reflexivity. }
  rewrite forallb_forall in H.
  destruct Hr' as [Hlo Hhi]. change charSet_size with 95 in Hhi.
  specialize (H (Z.to_nat r')). rewrite Z2Nat.id in H by lia.
  specialize (H ltac:(apply in_seq; lia)).
  rewrite Heq, Z.eqb_refl in H. cbn in H. lia.
Qed.

(** Every printable ASCII character is in [charset]. *)
Lemma charset_at_onto c :
  is_printable_byte c -> exists r, random_ok r /\ charset_at r = c.
Proof.
  intros [Hlo Hhi].
  assert (H : forallb (fun n =>
                existsb (fun k => charset_at (Z.of_nat k) =? Z.of_nat n + 32)
                        (seq 0 95))
                (seq 0 95) = true) by (vm_compute; reflexivity).
  rewrite forallb_forall in H.
  specialize (H (Z.to_nat (c - 32)) ltac:(apply in_seq; lia)).
  apply existsb_exists in H as (k & Hk & Heq). apply in_seq in Hk.
  exists (Z.of_nat k). split.
  - unfold random_ok. change charSet_size with 95. lia.
  - apply Z.eqb_eq in Heq. rewrite Z2Nat.id in Heq by lia. lia.
Qed.

Lemma cstr_no_nul : forall l rest,
  Forall (fun b => b <> 0) l -> cstr (l ++ 0 :: rest) = l.
Proof.
  induction l as [|b l IH]; intros rest Hl; [reflexivity|].
  inversion Hl as [|? ? Hb Hl']; subst.
  cbn [app cstr]. destruct (b =? 0) eqn:E; [lia|].
  now rewrite IH.
Qed.

Lemma string_of_bytes_length l :
  String.length (string_of_bytes l) = length l.
Proof. induction l as [|b l IH]; cbn; auto. Qed.

Lemma generation_Key_map rnd :
  length rnd = 16%nat -> generation_Key rnd = (map charset_at rnd ++ [0])%list.
Proof.
  intros Hl. unfold generation_Key. f_equal.
  do 17 (destruct rnd as [|? rnd]; try discriminate). reflexivity.
Qed.

Lemma generation_Key_printable rnd :
  Forall random_ok rnd -> Forall is_printable_byte (map charset_at rnd).
Proof.
  intros Hrnd. apply Forall_map.
  eapply Forall_impl; [|exact Hrnd]. apply charset_at_printable.
Qed.

(** The key as [Serial.println(key)] prints it. *)
Lemma generation_Key_cstr rnd :
  length rnd = 16%nat -> Forall random_ok rnd ->
  cstr (generation_Key rnd) = map charset_at rnd.
Proof.
  intros Hl Hrnd. rewrite generation_Key_map by assumption.
  apply cstr_no_nul.
  eapply Forall_impl; [|apply generation_Key_printable, Hrnd].
  unfold is_printable_byte. intros; lia.
Qed.

End KeyFacts.

(** X13.  [generation_Key] with any sixteen values of
    [random(charSet_size)], each within 0..94: the key buffer holds
    sixteen printable ASCII characters, those of [charset] at the drawn
    indices, and a NUL at offset 16, so printing it as a C string gives
    exactly these sixteen characters.  The 95 characters of [charset]
    are all different and are all of printable ASCII: two draws give
    the same key only if they agree, and every printable character can
    occur in a key. *)
Theorem generation_Key_text (rnd : list Z) :
  length rnd = 16%nat ->
  Forall random_ok rnd ->
  let key := generation_Key rnd in
  key = (map charset_at rnd ++ [0])%list
  /\ length key = 17%nat
  /\ Forall is_printable_byte (firstn 16 key)
  /\ Demo.cstr key = firstn 16 key
  /\ String.length (string_of_bytes (Demo.cstr key)) = 16%nat
  /\ (forall rnd', length rnd' = 16%nat -> Forall random_ok rnd' ->
        generation_Key rnd' = key -> rnd' = rnd)
  /\ (forall c, is_printable_byte c -> exists r, random_ok r /\ charset_at r = c).
Proof.
  intros Hlen Hrnd. cbv zeta.
  rewrite KeyFacts.generation_Key_cstr by assumption.
  rewrite (KeyFacts.generation_Key_map rnd Hlen).
  assert (Hfirst : firstn 16 (map charset_at rnd ++ [0])%list = map charset_at rnd).
  { replace 16%nat with (length (map charset_at rnd)) by now rewrite length_map.
    apply UnpadFacts.firstn_exact. }
  rewrite Hfirst.
  split; [reflexivity|].
  split; [rewrite length_app, length_map; cbn; lia|].
  split; [now apply KeyFacts.generation_Key_printable|].
  split; [reflexivity|].
  split; [now rewrite KeyFacts.string_of_bytes_length, length_map|].
  split; [|apply KeyFacts.charset_at_onto].
  intros rnd' Hlen' Hrnd' Hsame.
  rewrite (KeyFacts.generation_Key_map rnd' Hlen') in Hsame.
  apply app_inv_tail in Hsame.
  clear Hfirst Hlen Hlen'.
  revert rnd Hrnd Hsame.
  induction Hrnd' as [|r' l' Hr' Hl' IH]; intros [|r l] Hrnd Hsame;
    try discriminate; [reflexivity|].
  inversion Hrnd; subst. injection Hsame as Hhead Htail.
  f_equal; [now apply KeyFacts.charset_at_inj | now apply IH].
Qed.

Lemma generation_Key_text_witness :
  Demo.cstr (generation_Key [0; 26; 52; 62; 94; 1; 2; 3; 4; 5; 6; 7; 8; 9; 10; 11])
  = firstn 16 (generation_Key [0; 26; 52; 62; 94; 1; 2; 3; 4; 5; 6; 7; 8; 9; 10; 11]).
Proof.
  refine (proj1 (proj2 (proj2 (proj2
    (generation_Key_text [0; 26; 52; 62; 94; 1; 2; 3; 4; 5; 6; 7; 8; 9; 10; 11] _ _))))).
  - reflexivity.
  - repeat constructor; unfold random_ok; cbn; lia.
Defined.

Module WrapperFacts.

Import AES AESFacts CBCFacts AesCrypto.
Local Open Scope Z_scope.

Lemma cbc_decrypt_length w : forall bs iv,
  length (cbc_decrypt w iv bs) = length bs.
Proof. induction bs as [|b bs IH]; intros iv; cbn; auto. Qed.

Lemma of_blocks_bytes bs : Forall is_byte (of_blocks bs).
Proof.
  induction bs as [|b bs IH]; [constructor|].
  cbn [of_blocks flat_map]. apply Forall_app. split; [|exact IH].
  apply bytes_of_block_bytes.
Qed.

(** On whole blocks mbedtls writes [len] bytes. *)
Lemma mbedtls_length m key len iv input :
  0 <= len -> len mod 16 = 0 ->
  length (mbedtls_aes_crypt_cbc m key len iv input) = Z.to_nat len.
Proof.
  intros Hlen Hmod. unfold mbedtls_aes_crypt_cbc. rewrite Hmod. cbn [Z.eqb].
  destruct m; rewrite of_blocks_length;
    rewrite ?cbc_encrypt_length, ?cbc_decrypt_length, to_blocks_length; dlia.
Qed.

Lemma mbedtls_bytes m key len iv input :
  Forall is_byte (mbedtls_aes_crypt_cbc m key len iv input).
Proof.
  unfold mbedtls_aes_crypt_cbc. destruct (len mod 16 =? 0); [|constructor].
  destruct m; apply of_blocks_bytes.
Qed.

Lemma store_bytes_length buf out :
  (length out <= length buf)%nat -> length (store_bytes buf out) = length buf.
Proof.
  intros H. unfold store_bytes. rewrite length_app, length_skipn. lia.
Qed.

Lemma store_bytes_firstn buf out :
  firstn (length out) (store_bytes buf out) = out.
Proof. apply UnpadFacts.firstn_exact. Qed.

Lemma store_bytes_skipn buf out :
  skipn (length out) (store_bytes buf out) = skipn (length out) buf.
Proof. apply UnpadFacts.skipn_exact. Qed.

End WrapperFacts.

(** X14.  [encrypt] and [decrypt] over the CBC of mbedtls, for a length
    that is a multiple of 16 and buffers that hold it: decrypting what
    [encrypt] wrote, under the same key, gives the first [len] bytes of
    the input back (both use the same fixed IV); the ciphertext is
    [len] bytes; and each call leaves the bytes of its output buffer
    beyond [len], and its size, as they were. *)
Theorem encrypt_decrypt_buffers (input key e0 d0 : list Z) (len : Z) :
  0 <= len -> len mod 16 = 0 ->
  (Z.to_nat len <= length input)%nat ->
  Forall is_byte (firstn (Z.to_nat len) input) ->
  (Z.to_nat len <= length e0)%nat ->
  (Z.to_nat len <= length d0)%nat ->
  let n := Z.to_nat len in
  let enc := encrypt AES.mbedtls_aes_crypt_cbc input len key e0 in
  let dec := decrypt AES.mbedtls_aes_crypt_cbc enc len key d0 in
  firstn n dec = firstn n input
  /\ Forall is_byte (firstn n enc)
  /\ skipn n enc = skipn n e0
  /\ skipn n dec = skipn n d0
  /\ length enc = length e0
  /\ length dec = length d0.
Proof.
  intros Hlen Hmod Hinput Hbytes He0 Hd0. cbv zeta.
  split.
  { now apply CBCFacts.mbedtls_decrypt_inverts_encrypt. }
  unfold encrypt, decrypt.
  set (c := AES.mbedtls_aes_crypt_cbc AES.MBEDTLS_AES_ENCRYPT key len iv input).
  assert (Hc : length c = Z.to_nat len) by now apply WrapperFacts.mbedtls_length.
  set (p := AES.mbedtls_aes_crypt_cbc AES.MBEDTLS_AES_DECRYPT key len iv
              (store_bytes e0 c)).
  assert (Hp : length p = Z.to_nat len) by now apply WrapperFacts.mbedtls_length.
  rewrite <- Hc at 1 2 3. rewrite <- Hp at 1 2.
  rewrite WrapperFacts.store_bytes_firstn, !WrapperFacts.store_bytes_skipn.
  rewrite !WrapperFacts.store_bytes_length by lia.
  split; [apply WrapperFacts.mbedtls_bytes|].
  rewrite Hc, Hp. auto.
Qed.

Lemma encrypt_decrypt_buffers_witness :
  let input := map Z.of_nat (seq 0 32) in
  let key := map Z.of_nat (seq 65 16) in
  firstn 32 (decrypt AES.mbedtls_aes_crypt_cbc
               (encrypt AES.mbedtls_aes_crypt_cbc input 32 key (repeat 0 64))
               32 key (repeat 0 64))
  = firstn 32 input.
Proof.
  intros input key.
  refine (proj1 (encrypt_decrypt_buffers input key (repeat 0 64) (repeat 0 64) 32
                   _ _ _ _ _ _)).
  - lia.
  - reflexivity.
  - cbn. lia.
  - cbn. repeat (constructor; [unfold is_byte; lia|]). constructor.
  - cbn. lia.
  - cbn. lia.
Defined.

(** ** The demo sketch *)

Module SetupFacts.

Import Print Reference AesCrypto Demo DemoWords PaddingFacts DemoFacts.
Local Open Scope string_scope.
Local Open Scope Z_scope.

Lemma nth_firstn_eq (l l' : list Z) (n i : nat) :
  firstn n l = l' -> (i < n)%nat -> nth i l 0 = nth i l' 0.
Proof.
  intros <- Hi. rewrite nth_firstn.
  apply Nat.ltb_lt in Hi. now rewrite Hi.
Qed.

End SetupFacts.

Import Demo.

(** X15.  The demo end to end over the CBC of mbedtls, for every input
    line of at most 63 bytes (what the 64-byte arrays of [setup] hold
    once padded) and any sixteen draws of the key characters: [setup]
    prints the prompt, the input, the sixteen characters of the key, a
    hex dump of the ciphertext, and then the input again; the padding
    error is never printed.  The ciphertext dumped has the padded
    length and decrypts, under the printed key and the fixed IV, to the
    input followed by its padding. *)
Theorem setup_prints_input_back (inputString rnd : list Z) (f : frame) :
  Forall is_byte inputString ->
  (length inputString <= 63)%nat ->
  length rnd = 16%nat ->
  Forall random_ok rnd ->
  length (paddedInput f) = 64%nat ->
  let inputLen := Z.of_nat (length inputString) in
  let paddedLen := (inputLen / 16 + 1) * 16 in
  let padded :=
    (inputString
     ++ repeat (paddedLen - inputLen) (Z.to_nat (paddedLen - inputLen)))%list in
  let key := generation_Key rnd in
  exists cipher : list Z,
    length cipher = Z.to_nat paddedLen
    /\ Forall is_byte cipher
    /\ AES.mbedtls_aes_crypt_cbc AES.MBEDTLS_AES_DECRYPT key paddedLen iv cipher
       = padded
    /\ setup AES.mbedtls_aes_crypt_cbc inputString rnd f
       = msg_prompt ++ newline
         ++ string_of_bytes inputString ++ newline
         ++ msg_key ++ string_of_bytes (map charset_at rnd) ++ newline
         ++ msg_encrypted ++ newline
         ++ hex_dump cipher ++ newline
         ++ msg_decrypted ++ newline
         ++ string_of_bytes inputString ++ newline.
Proof.
  intros Hbytes Hlen Hrnd Hrange Hframe inputLen paddedLen padded key.
  assert (Hpad : 1 <= paddedLen - inputLen <= 16) by (subst paddedLen; dlia).
  assert (Hpl : 16 <= paddedLen <= 64) by (subst paddedLen inputLen; dlia).
  assert (Hmod : paddedLen mod 16 = 0) by (subst paddedLen; dlia).
  set (rest := skipn (Z.to_nat paddedLen) (paddedInput f)).
  set (c := AES.mbedtls_aes_crypt_cbc AES.MBEDTLS_AES_ENCRYPT key paddedLen iv
              (padded ++ rest)%list).
  assert (Hpadded_len : length padded = Z.to_nat paddedLen).
  { subst padded. rewrite length_app, repeat_length. subst inputLen. lia. }
  assert (Hpadded_bytes : Forall is_byte padded).
  { subst padded. apply Forall_app. split; [assumption|].
    apply Forall_forall. intros x Hx. apply repeat_spec in Hx. subst x.
    unfold is_byte. lia. }
  assert (Hc : length c = Z.to_nat paddedLen)
    by (apply WrapperFacts.mbedtls_length; lia).
  assert (Hback : forall e0 d0,
            firstn (Z.to_nat paddedLen)
              (decrypt AES.mbedtls_aes_crypt_cbc
                 (encrypt AES.mbedtls_aes_crypt_cbc (padded ++ rest)%list
                    paddedLen key e0) paddedLen key d0)
            = padded).
  { intros e0 d0. rewrite CBCFacts.mbedtls_decrypt_inverts_encrypt.
    - rewrite <- Hpadded_len. apply UnpadFacts.firstn_exact.
    - lia.
    - exact Hmod.
    - rewrite length_app. lia.
    - rewrite <- Hpadded_len, UnpadFacts.firstn_exact. exact Hpadded_bytes. }
  exists c. split; [exact Hc|].
  split; [apply WrapperFacts.mbedtls_bytes|].
  split.
  { specialize (Hback [] []).
    unfold encrypt, decrypt, store_bytes in Hback. fold c in Hback.
    rewrite !skipn_nil, !app_nil_r in Hback.
    rewrite firstn_all2 in Hback
      by (rewrite WrapperFacts.mbedtls_length; lia).
    exact Hback. }
  unfold setup, setup_decrypt. fold inputLen.
  rewrite PaddingFacts.applyPadding_spec
    by (fold inputLen paddedLen; rewrite ?Hframe; lia).
  fold inputLen paddedLen. rewrite app_assoc. fold padded. fold rest.
  fold key. cbv beta iota zeta.
  specialize (Hback (encrypted f) (decrypted f)).
  set (enc := encrypt AES.mbedtls_aes_crypt_cbc (padded ++ rest)%list paddedLen
                key (encrypted f)) in *.
  set (dec := decrypt AES.mbedtls_aes_crypt_cbc enc paddedLen key (decrypted f)) in *.
  assert (Henc : firstn (Z.to_nat paddedLen) enc = c).
  { subst enc. unfold encrypt. fold c. rewrite <- Hc.
    apply WrapperFacts.store_bytes_firstn. }
  assert (Hnth : forall i, (i < Z.to_nat paddedLen)%nat ->
                           nth i dec 0 = nth i padded 0).
  { intros i Hi. now apply (SetupFacts.nth_firstn_eq _ _ (Z.to_nat paddedLen)). }
  assert (Hlast : nth (Z.to_nat (paddedLen - 1)) dec 0 = paddedLen - inputLen).
  { rewrite Hnth by lia. subst padded.
    rewrite <- (app_nil_r (repeat _ _)).
    apply PaddingFacts.nth_repeat_mid. subst inputLen. lia. }
  rewrite Hlast. unfold BLOCK_SIZE.
  replace ((0 <? paddedLen - inputLen) && (paddedLen - inputLen <=? 16))
    with true by lia.
  unfold wrap_u32.
  replace ((paddedLen - (paddedLen - inputLen)) mod 2 ^ 32) with inputLen by dlia.
  rewrite DemoFacts.print_for_chars.
  replace (map (fun i => nth i dec 0) (seq 0 (Z.to_nat inputLen)))
    with inputString.
  2:{ subst inputLen. rewrite Nat2Z.id.
      rewrite <- (DemoFacts.map_nth_prefix 0 inputString
                    (repeat (paddedLen - Z.of_nat (length inputString))
                       (Z.to_nat (paddedLen - Z.of_nat (length inputString))))) at 1.
      apply map_ext_in. intros i Hi. apply in_seq in Hi.
      symmetry. apply Hnth. lia. }
  subst key. rewrite KeyFacts.generation_Key_cstr by assumption.
  unfold printHex.
  rewrite DumpFacts.print_for_dump.
  - rewrite Henc. now rewrite !string_app_assoc.
  - subst enc. unfold encrypt. fold c.
    unfold store_bytes. rewrite length_app. lia.
  - rewrite Henc. apply WrapperFacts.mbedtls_bytes.
Qed.

Lemma setup_prints_input_back_witness :
  let rnd := [7; 30; 60; 94; 0; 1; 2; 3; 4; 5; 6; 7; 8; 9; 10; 11] in
  exists cipher : list Z,
    length cipher = 16%nat
    /\ setup AES.mbedtls_aes_crypt_cbc [104; 105] rnd blank_frame
       = msg_prompt ++ newline
         ++ "hi" ++ newline
         ++ msg_key ++ string_of_bytes (map charset_at rnd) ++ newline
         ++ msg_encrypted ++ newline
         ++ hex_dump cipher ++ newline
         ++ msg_decrypted ++ newline
         ++ "hi" ++ newline.
Proof.
  intros rnd.
  assert (Hbytes : Forall is_byte [104; 105])
    by (repeat constructor; unfold is_byte; lia).
  assert (Hrnd : Forall random_ok rnd)
    by (repeat (constructor; [unfold random_ok; cbn; lia|]); constructor).
  destruct (setup_prints_input_back [104; 105] rnd blank_frame
              Hbytes ltac:(cbn; lia) eq_refl Hrnd eq_refl)
    as (cipher & Hlen & _ & _ & Hsetup).
  exists cipher. split; [exact Hlen | exact Hsetup].
Defined.

(** ** Debounce, the editors and the About screen *)

Module DebounceFacts.

Import Reference Words Firmware MenuFacts.
Local Open Scope Z_scope.

(** The test value [millis() - lastDebounceTime] right after a stamp:
    the milliseconds gone by, whatever the 32-bit counter shows. *)
Lemma sinceLastDebounce_stamped p s :
  sinceLastDebounce (tick p (stampDebounce s))
  = ((micros (hw s) + Z.of_N (elapsed_us p)) / 1000 - micros (hw s) / 1000)
    mod 2 ^ 32.
Proof.
  unfold sinceLastDebounce, stampDebounce, tick, millis, hw_millis,
    wrap_u32, wrap_s32.
  cbn [hw with_hw with_lastDebounceTime lastDebounceTime micros with_micros].
  generalize (micros (hw s)) (Z.of_N (elapsed_us p)). intros m e.
  generalize ((m + e) / 1000) (m / 1000). intros a b.
  dlia.
Qed.

End DebounceFacts.

(** X16.  The debounce test measures the time since the stamp, whatever
    the 32-bit millisecond counter shows: right after
    [lastDebounceTime = millis()], the value [millis() - lastDebounceTime]
    at the next look at the buttons is the number of milliseconds gone
    by (modulo 2^32), also when the counter has wrapped round in between
    or the stamp, a signed [long], is negative.  So within 200 ms of a
    stamp the main menu changes nothing but the clock, and up to and
    including 200 ms neither do the editors; at exactly 200 ms the main
    menu takes the buttons while the editors do not. *)
Theorem debounce_measures_elapsed (p : Poll) (polls : list Poll) (t : Z) (s : State) :
  let s0 := stampDebounce s in
  let elapsed_ms :=
    (micros (hw s) + Z.of_N (elapsed_us p)) / 1000 - micros (hw s) / 1000 in
  0 <= elapsed_ms
  /\ sinceLastDebounce (tick p s0) = elapsed_ms mod 2 ^ 32
  /\ (elapsed_ms < 200 -> handleInput p polls s0 = Done (tick p s0) polls)
  /\ (elapsed_ms <= 200 ->
      chooseLength_turn p s0 = (tick p s0, true)
      /\ chooseComplexity_turn p t s0 = (t, tick p s0, true))
  /\ (elapsed_ms = 200 -> menu_accepts p s0 /\ ~ editor_accepts p s0).
Proof.
  cbv zeta.
  pose proof (DebounceFacts.sinceLastDebounce_stamped p s) as Hsince.
  assert (Hpos : 0 <= (micros (hw s) + Z.of_N (elapsed_us p)) / 1000
                      - micros (hw s) / 1000).
  { pose proof (N2Z.is_nonneg (elapsed_us p)). dlia. }
  revert Hsince Hpos.
  generalize ((micros (hw s) + Z.of_N (elapsed_us p)) / 1000 - micros (hw s) / 1000).
  intros e Hsince Hpos.
  split; [exact Hpos|]. split; [exact Hsince|].
  split; [|split].
  - intros He. apply MenuFacts.handleInput_debounced.
    rewrite Hsince. unfold debounceDelay. rewrite Z.mod_small; lia.
  - intros He.
    assert (Hearly : sinceLastDebounce (tick p (stampDebounce s)) <= debounceDelay).
    { rewrite Hsince. unfold debounceDelay. rewrite Z.mod_small; lia. }
    split; [now apply MenuFacts.chooseLength_turn_debounced
           | now apply MenuFacts.chooseComplexity_turn_debounced].
  - intros ->. unfold menu_accepts, editor_accepts. rewrite Hsince.
    unfold debounceDelay. rewrite Z.mod_small by lia. lia.
Qed.

Lemma debounce_measures_elapsed_witness :
  let p := mkPoll 150000 true false false in
  handleInput p [] (stampDebounce (boot idle_board))
  = Done (tick p (stampDebounce (boot idle_board))) [].
Proof.
  intros p.
  refine (proj1 (proj2 (proj2 (debounce_measures_elapsed p [] 0 (boot idle_board)))) _).
  vm_compute. reflexivity.
Defined.

Module EditorFacts.

Import Reference Words Firmware MenuFacts RunFacts FrameFacts.
Local Open Scope Z_scope.

(** A turn that keeps the editor open has stored nothing; a turn that
    closes it had Select pressed, passed the debounce test and stored
    the level shown. *)
Lemma chooseComplexity_turn_commit p t s :
  let '(t', s', setting) := chooseComplexity_turn p t s in
  if setting then complexityLevel s' = complexityLevel s
  else selectPressed p = true /\ editor_accepts p s /\ complexityLevel s' = t'.
Proof.
  unfold chooseComplexity_turn, editor_accepts.
  destruct (debounceDelay <? sinceLastDebounce (tick p s)) eqn:Hopen;
    [|reflexivity].
  apply Z.ltb_lt in Hopen.
  destruct (upPressed p), (downPressed p), (selectPressed p);
    cbv beta iota zeta; auto.
Qed.

Lemma chooseComplexity_loop_commit : forall polls t s,
  match chooseComplexity_loop polls t s with
  | Waiting s' => complexityLevel s' = complexityLevel s
  | Done s' rest =>
      exists used p,
        polls = (used ++ p :: rest)%list /\ selectPressed p = true
  end.
Proof.
  induction polls as [|p polls IH]; intros t s;
    cbn [chooseComplexity_loop]; [reflexivity|].
  pose proof (chooseComplexity_turn_commit p t s) as Hturn.
  destruct (chooseComplexity_turn p t s) as [[t' s'] setting].
  destruct setting.
  - specialize (IH t' s').
    destruct (chooseComplexity_loop polls t' s') as [s'' rest|s''].
    + destruct IH as (used & q & -> & Hq). exists (p :: used), q. now split.
    + congruence.
  - exists [], p. split; [reflexivity | apply Hturn].
Qed.

Lemma chooseComplexity_loop_level_length : forall polls t s,
  level_ok t -> level_ok (complexityLevel s) ->
  level_ok (complexityLevel (state_of (chooseComplexity_loop polls t s)))
  /\ passwordLength (state_of (chooseComplexity_loop polls t s))
     = passwordLength s.
Proof.
  induction polls as [|p polls IH]; intros t s Ht Hs;
    cbn [chooseComplexity_loop state_of]; [now split|].
  pose proof (chooseComplexity_turn_level p t s Ht Hs) as Hturn.
  pose proof (chooseComplexity_turn_length p t s) as Hlen.
  destruct (chooseComplexity_turn p t s) as [[t' s'] setting].
  cbn [fst snd] in Hlen. destruct Hturn as [Ht' Hs'].
  destruct setting; [|now split].
  rewrite <- Hlen. now apply IH.
Qed.

(** Without Up or Down the About screen stays on a topic, and Select
    only opens and closes its help text. *)
Lemma displayAbout_loop_stays : forall polls shown a s,
  a <> 0 ->
  Forall (fun p => upPressed p = false /\ downPressed p = false) polls ->
  exists s', displayAbout_loop polls shown a s = Waiting s'.
Proof.
  induction polls as [|p polls IH]; intros shown a s Ha Hpolls;
    cbn [displayAbout_loop]; [eauto|].
  inversion Hpolls as [|? ? [Hup Hdown] Hrest]; subst.
  rewrite Hup, Hdown.
  destruct shown.
  - destruct (selectPressed p); now apply IH.
  - destruct (debounceDelay <? sinceLastDebounce (tick p s)); [|now apply IH].
    destruct (selectPressed p); [|now apply IH].
    destruct (a =? 0) eqn:E; [lia|]. now apply IH.
Qed.

End EditorFacts.

(** X17.  [chooseComplexity] stores the level only on Select: while the
    editor is still open, whatever Up and Down have done to the level
    shown, [complexityLevel] is what it was on entry; and when the
    editor has returned, the last poll it took had Select pressed and
    the stored level is within 0..5.  The password length is never
    touched. *)
Theorem chooseComplexity_commits_on_select (polls : list Poll) (s : State) :
  level_ok (complexityLevel s) ->
  passwordLength (state_of (chooseComplexity polls s)) = passwordLength s
  /\ match chooseComplexity polls s with
     | Waiting s' => complexityLevel s' = complexityLevel s
     | Done s' rest =>
         level_ok (complexityLevel s')
         /\ exists used p,
              polls = (used ++ p :: rest)%list /\ selectPressed p = true
     end.
Proof.
  intros Hlevel.
  pose proof (EditorFacts.chooseComplexity_loop_level_length polls (complexityLevel s) s
                Hlevel Hlevel) as [Hok Hlen].
  pose proof (EditorFacts.chooseComplexity_loop_commit polls (complexityLevel s) s)
    as Hcommit.
  unfold chooseComplexity.
  destruct (chooseComplexity_loop polls (complexityLevel s) s) as [s' rest|s'];
    cbn [bind state_of] in *.
  - split; [exact Hlen|]. split; [exact Hok | exact Hcommit].
  - split; [exact Hlen | exact Hcommit].
Qed.

Lemma chooseComplexity_commits_on_select_witness :
  let up := mkPoll 300000 true false false in
  let select := mkPoll 300000 false false true in
  passwordLength (state_of (chooseComplexity [up; up; select] (boot idle_board)))
  = passwordLength (boot idle_board).
Proof.
  intros up select.
  refine (proj1 (chooseComplexity_commits_on_select [up; up; select]
                   (boot idle_board) _)).
  unfold level_ok. cbn. lia.
Defined.

(** X18.  The About screen only shows text: it changes neither the
    settings, the key buffer, the menu position, the serial output nor
    the pins.  It opens on a topic, not on [< Back], so Select alone
    never leaves it: with no Up and no Down among the polls, Select only
    opens and closes the help text and [displayAbout] has not
    returned. *)
Theorem displayAbout_read_only (polls : list Poll) (s : State) :
  let s' := state_of (displayAbout polls s) in
  (selector s', top_line_index s', passwordLength s', complexityLevel s',
   generatedKey s', serial (hw s'), trace (hw s'))
  = (selector s, top_line_index s, passwordLength s, complexityLevel s,
     generatedKey s, serial (hw s), trace (hw s))
  /\ (Forall (fun p => upPressed p = false /\ downPressed p = false) polls ->
      exists w, displayAbout polls s = Waiting w).
Proof.
  cbv zeta. split.
  - destruct (FrameFacts.displayAbout_untouched polls s) as (Hsame & Hlen & Hlevel).
    unfold untouched in Hsame.
    injection Hsame as Hsel Htop Hkey _ _ Htrace Hser.
    now rewrite Hsel, Htop, Hkey, Htrace, Hser, Hlen, Hlevel.
  - intros Hpolls. unfold displayAbout.
    destruct (EditorFacts.displayAbout_loop_stays polls false 1 s) as [w Hw];
      [lia | exact Hpolls |].
    exists w. now rewrite Hw.
Qed.

Lemma displayAbout_read_only_witness :
  let select := mkPoll 300000 false false true in
  exists w, displayAbout [select; select; select] (boot idle_board) = Waiting w.
Proof.
  intros select.
  apply (proj2 (displayAbout_read_only [select; select; select] (boot idle_board))).
  repeat constructor.
Defined.

(** ** Select on the first item *)

Module SelectFacts.

Import Reference Words Firmware MenuFacts RunFacts MainMenuFacts.
Local Open Scope Z_scope.

(** With neither Up nor Down the menu step is the clock tick alone. *)
Lemma menu_step_still p s :
  menu_ok s -> upPressed p = false -> downPressed p = false ->
  menu_step p s = tick p s.
Proof.
  intros (Hsel & Htop & Hwin) Hup Hdown. unfold menu_step, moved, scrolled.
  rewrite Hup, Hdown.
  replace (selector s <? top_line_index s) with false by lia.
  replace (top_line_index s + 3 <=? selector s) with false by lia.
  destruct s; reflexivity.
Qed.

(** Select alone on the first item runs the generation and then stamps. *)
Lemma handleInput_select_first p polls s :
  menu_ok s -> selector s = 0 ->
  menu_accepts p s ->
  selectPressed p = true -> upPressed p = false -> downPressed p = false ->
  handleInput p polls s
  = Done (stampDebounce (runPasswordGeneration (tick p s))) polls.
Proof.
  intros Hmenu Hsel Hopen Hselect Hup Hdown.
  unfold menu_accepts in Hopen.
  rewrite MainMenuFacts.handleInput_open
    by (assumption || (apply Z.ltb_ge; exact Hopen)).
  rewrite menu_step_still by assumption.
  rewrite Hselect, Hup, Hdown. cbn [orb].
  unfold performAction.
  replace (selector (tick p s) =? 0) with true
    by (symmetry; apply Z.eqb_eq; exact Hsel).
  reflexivity.
Qed.

(** What a generation leaves of the clock and the menu position. *)
Lemma runPasswordGeneration_frame s :
  length (generatedKey s) = 16%nat ->
  micros (hw (runPasswordGeneration s))
  = micros (snd (sample_n 16 generateRandomByte (hw s))) + 2000000
  /\ selector (runPasswordGeneration s) = selector s
  /\ top_line_index (runPasswordGeneration s) = top_line_index s.
Proof.
  intros Hkey.
  pose proof (TrafficFacts.runPasswordGeneration_spec s Hkey) as Hspec.
  cbv zeta in Hspec. rewrite Hspec.
  rewrite ReportFacts.sendToPC_spec
    by (apply AESFacts.aes128_enc_single_length
        || apply AESFacts.bytes_of_block_bytes).
  match goal with |- context [Serial_print ?t _] => generalize t end.
  generalize (AES.aes128_enc_single encryptionKey
                (fst (sample_n 16 generateRandomByte (hw s)))).
  generalize (snd (sample_n 16 generateRandomByte (hw s))).
  intros h16 protected line. auto.
Qed.

End SelectFacts.

(** X19.  Select on the first menu item, from the main menu: a poll
    with Select alone that passes the debounce test runs one generation
    and returns to the menu.  One report line goes out with the
    current settings and the new key; the menu position is as before;
    and the debounce stamp is taken after the generation, no sooner
    than 5184176 microseconds after the poll, so that the 200 ms window
    starts when the menu is back. *)
Theorem select_generates (p : Poll) (polls : list Poll) (s : State) :
  menu_ok s -> selector s = 0 ->
  length (generatedKey s) = 16%nat ->
  Forall motion_int16 (motion (hw s)) ->
  sensor_prompt (hw s) ->
  menu_accepts p s ->
  selectPressed p = true -> upPressed p = false -> downPressed p = false ->
  exists s',
    handleInput p polls s = Done s' polls
    /\ serial (hw s')
       = serial (hw s)
         ++ report_line (passwordLength s) (complexityLevel s) (generatedKey s')
         ++ newline
    /\ 5184176 <= micros (hw s') - (micros (hw s) + Z.of_N (elapsed_us p))
    /\ lastDebounceTime s' = wrap_s32 (millis s')
    /\ (selector s', top_line_index s', passwordLength s', complexityLevel s')
       = (selector s, top_line_index s, passwordLength s, complexityLevel s).
Proof.
  intros Hmenu Hsel Hkey Hmotion Hprompt Hopen Hselect Hup Hdown.
  exists (stampDebounce (runPasswordGeneration (tick p s))).
  split; [now apply SelectFacts.handleInput_select_first|].
  destruct (TrafficFacts.runPasswordGeneration_payload (tick p s) Hkey)
    as (Hpl & Hcl & _ & _ & Hser).
  destruct (SelectFacts.runPasswordGeneration_frame (tick p s) Hkey)
    as (Hmicros & Hsel' & Htop').
  pose proof (TrafficFacts.sample_n_time 16 (hw (tick p s)) Hmotion Hprompt)
    as Htime.
  revert Hpl Hcl Hser Hmicros Hsel' Htop' Htime.
  generalize (snd (sample_n 16 generateRandomByte (hw (tick p s)))).
  generalize (runPasswordGeneration (tick p s)).
  intros g h16 Hpl Hcl Hser Hmicros Hsel' Htop' Htime.
  split; [exact Hser|].
  split.
  { change (hw (stampDebounce g)) with (hw g). rewrite Hmicros.
    change (micros (hw (tick p s)))
      with (micros (hw s) + Z.of_N (elapsed_us p)) in Htime.
    lia. }
  split; [reflexivity|].
  change ((selector g, top_line_index g, passwordLength g, complexityLevel g)
          = (selector s, top_line_index s, passwordLength s, complexityLevel s)).
  now rewrite Hsel', Htop', Hpl, Hcl.
Qed.

Lemma select_generates_witness :
  let p := mkPoll 300000 false false true in
  exists s', handleInput p [] (boot idle_board) = Done s' [].
Proof.
  intros p.
  destruct (select_generates p [] (boot idle_board)) as (s' & Hdone & _).
  - apply MainMenuFacts.boot_menu.
  - reflexivity.
  - reflexivity.
  - constructor.
  - constructor.
  - unfold menu_accepts. vm_compute. discriminate.
  - reflexivity.
  - reflexivity.
  - reflexivity.
  - exists s'. exact Hdone.
Defined.

(** ** The v2.0 firmware and the edge counter *)

Module V20Facts.

Import Print Reference Words PrintFacts ReportFacts.
Local Open Scope string_scope.
Local Open Scope Z_scope.



End V20Facts.



Module CounterFacts.

Import Esp32Counter.
Local Open Scope Z_scope.

Lemma edges_spec : forall n c,
  is_byte c -> edges n c = (c + Z.of_nat n) mod 256.
Proof.
  unfold is_byte.
  induction n as [|n IH]; intros c Hc; cbn [edges].
  - rewrite Z.add_0_r, Z.mod_small; lia.
  - rewrite IH by (unfold onRise, wrap_u8; dlia).
    unfold onRise, wrap_u8.
    rewrite Zplus_mod_idemp_l. f_equal. lia.
Qed.

End CounterFacts.

(** X21.  The edge counter sketch: [onRise] counts rising edges in a
    [uint8_t], so after [n] edges the counter holds the count modulo
    256: it stays a byte, 256 edges bring it back to where it was, and
    what [loop()] could read is the number of edges only up to
    multiples of 256. *)
Theorem edges_count_mod_256 (n : nat) (c : Z) :
  is_byte c ->
  Esp32Counter.edges n c = (c + Z.of_nat n) mod 256
  /\ is_byte (Esp32Counter.edges n c)
  /\ Esp32Counter.edges (n + 256) c = Esp32Counter.edges n c.
Proof.
  intros Hc. rewrite !CounterFacts.edges_spec by assumption.
  split; [reflexivity|]. split.
  - unfold is_byte. dlia.
  - rewrite Nat2Z.inj_add. change (Z.of_nat 256) with (1 * 256).
    now rewrite Z.add_assoc, Z_mod_plus_full.
Qed.

Lemma edges_count_mod_256_witness :
  Esp32Counter.edges 300 0 = 44.
Proof.
  refine (proj1 (edges_count_mod_256 300 0 _)).
  unfold is_byte. lia.
Defined.

(** ** Whole visits to the editors *)

Module PressFacts.

Import Reference Words PressWords Firmware MenuFacts RunFacts MainMenuFacts.
Local Open Scope Z_scope.
















End PressFacts.

Import PressWords.




